(** * Edge-based graph factory (src/extractor/edge_based_graph_factory.cpp)

    A shallow embedding of [EdgeBasedGraphFactory]: the renumbering of the
    forward edges, the generation of the expanded nodes, the turn candidates
    of an intersection with their post-processing, and the writer of the
    expanded edges, followed by the properties of these functions.

    Conventions.
    - [unsigned], [NodeID] and [EdgeID] are 32-bit: they are integers of [Z]
      and every operation that can leave the range is wrapped by [wrap32].
    - [int] values (distances, penalties) are integers of [Z]; signed overflow
      is undefined in the source and is not wrapped here.
    - [double] is the binary64 type of [PrimFloat].
    - [std::size_t] indices into the candidate vector are [nat].
    - A [std::vector] is a [list]; [v[i]] is the total lookup [v !!! i], which
      yields the default element where the source indexes out of range, and
      an assignment to [v[i]] is the update [<[i := x]> v], which changes
      nothing there. *)

From stdpp Require Import gmap list.
From Stdlib Require Import ZArith Lia.
From Stdlib Require Import Floats.PrimFloat Floats.SpecFloat Floats.FloatOps.
From Stdlib Require Import Floats.FloatAxioms.

Local Open Scope Z_scope.

(** ** Scalars and sentinels *)

Definition NodeID := Z.
Definition EdgeID := Z.
Definition EdgeWeight := Z.

Definition wrap32 (x : Z) : Z := x mod 2 ^ 32.

Definition SPECIAL_NODEID : NodeID := 4294967295.
Definition SPECIAL_EDGEID : EdgeID := 4294967295.

(** Modelled from the spec: the sentinels of util/typedefs.hpp, which is not
    part of this file ([INVALID_EDGE_WEIGHT = u32::MAX],
    [INVALID_COMPONENTID = u32::MAX]). *)
Definition INVALID_EDGE_WEIGHT : EdgeWeight := 4294967295.
Definition INVALID_COMPONENTID : Z := 4294967295.

(** configuration of turn classification *)
Definition INVERT : bool := true.
Definition RESOLVE_TO_RIGHT : bool := true.
Definition RESOLVE_TO_LEFT : bool := false.

Definition STRAIGHT_ANGLE : float := 180.
Definition MAXIMAL_ALLOWED_NO_TURN_DEVIATION : float := 2.
Definition NARROW_TURN_ANGLE : float := 35.
Definition FUZZY_STRAIGHT_ANGLE : float := 15.
Definition DISTINCTION_RATIO : float := 2.

(** [static_cast<int>] of a [double]: truncation toward zero, where the
    truncated value is an [int].  For every other argument (a value outside
    the range of [int], a NaN, an infinity) the conversion is undefined in the
    source; the model yields [INT_MIN] there, which is what the conversion
    instruction of the compiled program leaves. *)
Definition INT_MIN : Z := - 2 ^ 31.
Definition INT_MAX : Z := 2 ^ 31 - 1.

Definition static_cast_int (d : float) : Z :=
  match Prim2SF d with
  | S754_zero _ => 0
  | S754_finite s m e =>
      let magnitude :=
        if 0 <=? e then Z.shiftl (Z.pos m) e else Z.shiftr (Z.pos m) (- e) in
      let truncated := if s then - magnitude else magnitude in
      if bool_decide (INT_MIN <= truncated <= INT_MAX) then truncated
      else INT_MIN
  | _ => INT_MIN
  end.

(** ** Turn instructions (engine/guidance/turn_instruction.hpp) *)

Module TurnType.
Inductive t :=
  | Invalid | NoTurn | Suppressed | NewName | Continue | Turn | Merge | Ramp
  | Fork | EndOfRoad | EnterRoundabout | EnterRoundaboutAtExit | EnterRotary
  | EnterRotaryAtExit | ExitRoundabout | RemainRoundabout.
#[global] Instance eq_dec : EqDecision t.
Proof. solve_decision. Defined.
End TurnType.

Module DirectionModifier.
Inductive t :=
  | UTurn | SharpRight | Right | SlightRight | Straight | SlightLeft | Left
  | SharpLeft.
#[global] Instance eq_dec : EqDecision t.
Proof. solve_decision. Defined.
End DirectionModifier.

Record TurnInstruction := {
  type : TurnType.t;
  direction_modifier : DirectionModifier.t
}.

#[global] Instance TurnInstruction_eq_dec : EqDecision TurnInstruction.
Proof. solve_decision. Defined.

Definition set_type (i : TurnInstruction) (ty : TurnType.t) : TurnInstruction :=
  {| type := ty; direction_modifier := direction_modifier i |}.

Definition set_direction_modifier (i : TurnInstruction)
    (m : DirectionModifier.t) : TurnInstruction :=
  {| type := type i; direction_modifier := m |}.

(** ** The node-based graph *)

Definition FunctionalRoadClass := Z.

Record EdgeData := {
  distance : Z;
  edge_id : Z;
  name_id : Z;
  reversed : bool;
  roundabout : bool;
  startpoint : bool;
  travel_mode : Z;
  road_class : FunctionalRoadClass
}.

Definition set_edge_id (d : EdgeData) (id : Z) : EdgeData :=
  {| distance := distance d; edge_id := id; name_id := name_id d;
     reversed := reversed d; roundabout := roundabout d;
     startpoint := startpoint d; travel_mode := travel_mode d;
     road_class := road_class d |}.

Record NodeBasedEdge := {
  target : NodeID;
  data : EdgeData
}.

(** What an access past the end of the edge array yields in the model: the
    source leaves it undefined. *)
Definition no_edge : NodeBasedEdge :=
  {| target := SPECIAL_NODEID;
     data := {| distance := 0; edge_id := SPECIAL_NODEID; name_id := 0;
                reversed := true; roundabout := false; startpoint := false;
                travel_mode := 0; road_class := 0 |} |}.

#[global] Instance NodeBasedEdge_inhabited : Inhabited NodeBasedEdge :=
  populate no_edge.

(** Modelled from the spec: the graph container (util/node_based_graph.hpp and
    util/dynamic_graph.hpp are not part of this file).  Node [n] owns the
    adjacency list [adjacency !!! n]; the edge ids are the positions in the
    concatenation of these lists, so the adjacent edge range of a node is a
    block of consecutive ids and the ranges of two nodes never overlap. *)
Record NodeBasedDynamicGraph := {
  adjacency : list (list NodeBasedEdge)
}.

Definition edge_array (g : NodeBasedDynamicGraph) : list NodeBasedEdge :=
  concat (adjacency g).

Definition GetNumberOfNodes (g : NodeBasedDynamicGraph) : Z :=
  Z.of_nat (length (adjacency g)).

Definition GetNumberOfEdges (g : NodeBasedDynamicGraph) : Z :=
  Z.of_nat (length (edge_array g)).

Definition BeginEdges (g : NodeBasedDynamicGraph) (n : NodeID) : EdgeID :=
  Z.of_nat (length (concat (take (Z.to_nat n) (adjacency g)))).

Definition GetOutDegree (g : NodeBasedDynamicGraph) (n : NodeID) : Z :=
  Z.of_nat (length (adjacency g !!! Z.to_nat n)).

Definition EndEdges (g : NodeBasedDynamicGraph) (n : NodeID) : EdgeID :=
  BeginEdges g n + GetOutDegree g n.

Definition GetAdjacentEdgeRange (g : NodeBasedDynamicGraph) (n : NodeID)
    : list EdgeID :=
  seqZ (BeginEdges g n) (GetOutDegree g n).

Definition GetEdge (g : NodeBasedDynamicGraph) (e : EdgeID) : NodeBasedEdge :=
  edge_array g !!! Z.to_nat e.

Definition GetEdgeData (g : NodeBasedDynamicGraph) (e : EdgeID) : EdgeData :=
  data (GetEdge g e).

Definition GetTarget (g : NodeBasedDynamicGraph) (e : EdgeID) : NodeID :=
  target (GetEdge g e).

Definition FindEdge (g : NodeBasedDynamicGraph) (from to : NodeID) : EdgeID :=
  match filter (fun e => GetTarget g e = to) (GetAdjacentEdgeRange g from) with
  | e :: _ => e
  | [] => SPECIAL_EDGEID
  end.

Definition GetDirectedOutDegree (g : NodeBasedDynamicGraph) (n : NodeID) : Z :=
  Z.of_nat (length (filter (fun e => reversed (GetEdgeData g e) = false)
                           (GetAdjacentEdgeRange g n))).

(** ** External collaborators *)

Record Coordinate := { lon : Z; lat : Z }.

Record QueryNode := {
  node_id : Z;
  node_lon : Z;
  node_lat : Z
}.

Definition QueryNode_coordinate (n : QueryNode) : Coordinate :=
  {| lon := node_lon n; lat := node_lat n |}.

#[global] Instance QueryNode_inhabited : Inhabited QueryNode :=
  populate {| node_id := 0; node_lon := 0; node_lat := 0 |}.

(** Modelled from the spec: the restriction index
    (extractor/restriction_map.hpp is not part of this file), a two-query
    oracle: the target of the only-turn restriction that emanates from
    [(from, via)], [SPECIAL_NODEID] when there is none, and whether the turn
    [(from, via, to)] is restricted. *)
Record RestrictionMap := {
  CheckForEmanatingIsOnlyTurn : NodeID -> NodeID -> NodeID;
  CheckIfTurnIsRestricted : NodeID -> NodeID -> NodeID -> bool
}.

Record CompressedNode := {
  geometry_node_id : NodeID;
  geometry_weight : EdgeWeight
}.

#[global] Instance CompressedNode_inhabited : Inhabited CompressedNode :=
  populate {| geometry_node_id := SPECIAL_NODEID; geometry_weight := 0 |}.

(** Modelled from the spec: the compressed geometry container
    (extractor/compressed_edge_container.hpp is not part of this file): for a
    source edge, the ordered geometry records and a stable position. *)
Record CompressedEdgeContainer := {
  HasEntryForID : EdgeID -> bool;
  GetPositionForID : EdgeID -> Z;
  GetBucketReference : EdgeID -> list CompressedNode
}.

Record SpeedProfileProperties := {
  traffic_signal_penalty : Z;
  u_turn_penalty : Z;
  has_turn_penalty_function : bool
}.

(** The scripting state, as far as the factory uses it: the profile's
    [turn_function]; [None] stands for a call that throws [luabind::error]. *)
Record lua_State := {
  turn_function : float -> option float
}.

(** The helpers of engine/guidance (guidance_toolkit.hpp,
    turn_classification.hpp, classification_data.hpp) and of
    util/coordinate_calculation.hpp that the factory calls.  Their definitions
    are not part of this file: the development is parametric in them.
    [resolve] and [resolveTransitive] update their leading arguments in place
    in the source; here they return the updated instructions next to their
    result. *)
Class GuidanceToolkit := {
  getTurnDirection : float -> DirectionModifier.t;
  angularDeviation : float -> float -> float;
  getTurnConfidence : float -> TurnInstruction -> float;
  isLowPriorityRoadClass : FunctionalRoadClass -> bool;
  isRampClass : FunctionalRoadClass -> bool;
  isBasic : TurnType.t -> bool;
  canBeSuppressed : TurnType.t -> bool;
  isUturn : TurnInstruction -> bool;
  isOnRoundabout : TurnInstruction -> bool;
  entersRoundabout : TurnInstruction -> bool;
  isConflict : TurnInstruction -> TurnInstruction -> bool;
  isSlightTurn : TurnInstruction -> bool;
  isSharpTurn : TurnInstruction -> bool;
  isSlightModifier : DirectionModifier.t -> bool;
  mirrorDirectionModifier : DirectionModifier.t -> DirectionModifier.t;
  resolve : TurnInstruction -> TurnInstruction -> bool
            -> bool * TurnInstruction;
  resolveTransitive : TurnInstruction -> TurnInstruction -> TurnInstruction
                      -> bool -> bool * (TurnInstruction * TurnInstruction);
  (* the implicit conversion of a [TurnType] to a [TurnInstruction] *)
  TurnInstruction_of_type : TurnType.t -> TurnInstruction;
  NO_TURN : TurnInstruction;
  REMAIN_ROUNDABOUT : DirectionModifier.t -> TurnInstruction;
  ENTER_ROUNDABOUT : DirectionModifier.t -> TurnInstruction;
  EXIT_ROUNDABOUT : DirectionModifier.t -> TurnInstruction;
  getRepresentativeCoordinate :
    NodeID -> NodeID -> EdgeID -> bool -> CompressedEdgeContainer
    -> list QueryNode -> Coordinate;
  computeAngle : Coordinate -> Coordinate -> Coordinate -> float
}.

(** ** The factory object *)

Record EdgeBasedNode := {
  forward_edge_based_node_id : Z;
  reverse_edge_based_node_id : Z;
  u : NodeID;
  v : NodeID;
  ebn_name_id : Z;
  forward_packed_geometry_id : Z;
  reverse_packed_geometry_id : Z;
  is_tiny_component : bool;
  component_id : Z;
  fwd_segment_position : Z;
  forward_travel_mode : Z;
  backward_travel_mode : Z
}.

(** The weight of an expanded edge is the [unsigned] value that the writer
    computes; the width of the member in extractor/edge_based_edge.hpp, which
    is not part of this file, is not modelled. *)
Record EdgeBasedEdge := {
  source : NodeID;
  ebe_target : NodeID;
  ebe_edge_id : NodeID;
  weight : Z;
  forward : bool;
  backward : bool
}.

Record OriginalEdgeData := {
  via_node : Z;
  oed_name_id : Z;
  turn_instruction : TurnInstruction;
  oed_travel_mode : Z
}.

Record TurnCandidate := {
  eid : EdgeID;
  valid : bool;
  angle : float;
  instruction : TurnInstruction;
  confidence : float
}.

#[global] Instance TurnCandidate_inhabited : Inhabited TurnCandidate :=
  populate {| eid := SPECIAL_EDGEID; valid := false; angle := 0;
              instruction := {| type := TurnType.Invalid;
                                direction_modifier := DirectionModifier.UTurn |};
              confidence := 0 |}.

Definition set_instruction (c : TurnCandidate) (i : TurnInstruction)
    : TurnCandidate :=
  {| eid := eid c; valid := valid c; angle := angle c; instruction := i;
     confidence := confidence c |}.

(** The data members of [EdgeBasedGraphFactory].  The three skip counters are
    declared in the header; they are counted in [Z]. *)
Record EdgeBasedGraphFactory := {
  m_max_edge_id : Z;
  m_edge_based_node_weights : list EdgeWeight;
  m_edge_based_node_list : list EdgeBasedNode;
  m_edge_based_node_is_startpoint : list bool;
  m_edge_based_edge_list : list EdgeBasedEdge;
  m_node_info_list : list QueryNode;
  m_node_based_graph : NodeBasedDynamicGraph;
  m_restriction_map : RestrictionMap;
  m_barrier_nodes : gset Z;
  m_traffic_lights : gset Z;
  m_compressed_edge_container : CompressedEdgeContainer;
  speed_profile : SpeedProfileProperties;
  restricted_turns_counter : Z;
  skipped_uturns_counter : Z;
  skipped_barrier_turns_counter : Z
}.

(** The constructor: [m_max_edge_id(0)], empty vectors. *)
Definition EdgeBasedGraphFactory_new
    (node_based_graph : NodeBasedDynamicGraph)
    (compressed_edge_container : CompressedEdgeContainer)
    (barrier_nodes traffic_lights : gset Z)
    (restriction_map : RestrictionMap)
    (node_info_list : list QueryNode)
    (profile : SpeedProfileProperties) : EdgeBasedGraphFactory :=
  {| m_max_edge_id := 0;
     m_edge_based_node_weights := [];
     m_edge_based_node_list := [];
     m_edge_based_node_is_startpoint := [];
     m_edge_based_edge_list := [];
     m_node_info_list := node_info_list;
     m_node_based_graph := node_based_graph;
     m_restriction_map := restriction_map;
     m_barrier_nodes := barrier_nodes;
     m_traffic_lights := traffic_lights;
     m_compressed_edge_container := compressed_edge_container;
     speed_profile := profile;
     restricted_turns_counter := 0;
     skipped_uturns_counter := 0;
     skipped_barrier_turns_counter := 0 |}.

(** Assignments to the data members that the member functions write. *)
Definition set_m_max_edge_id (this : EdgeBasedGraphFactory) (x : Z)
    : EdgeBasedGraphFactory :=
  {| m_max_edge_id := x;
     m_edge_based_node_weights := m_edge_based_node_weights this;
     m_edge_based_node_list := m_edge_based_node_list this;
     m_edge_based_node_is_startpoint := m_edge_based_node_is_startpoint this;
     m_edge_based_edge_list := m_edge_based_edge_list this;
     m_node_info_list := m_node_info_list this;
     m_node_based_graph := m_node_based_graph this;
     m_restriction_map := m_restriction_map this;
     m_barrier_nodes := m_barrier_nodes this;
     m_traffic_lights := m_traffic_lights this;
     m_compressed_edge_container := m_compressed_edge_container this;
     speed_profile := speed_profile this;
     restricted_turns_counter := restricted_turns_counter this;
     skipped_uturns_counter := skipped_uturns_counter this;
     skipped_barrier_turns_counter := skipped_barrier_turns_counter this |}.

Definition set_m_edge_based_node_weights (this : EdgeBasedGraphFactory)
    (x : list EdgeWeight) : EdgeBasedGraphFactory :=
  {| m_max_edge_id := m_max_edge_id this;
     m_edge_based_node_weights := x;
     m_edge_based_node_list := m_edge_based_node_list this;
     m_edge_based_node_is_startpoint := m_edge_based_node_is_startpoint this;
     m_edge_based_edge_list := m_edge_based_edge_list this;
     m_node_info_list := m_node_info_list this;
     m_node_based_graph := m_node_based_graph this;
     m_restriction_map := m_restriction_map this;
     m_barrier_nodes := m_barrier_nodes this;
     m_traffic_lights := m_traffic_lights this;
     m_compressed_edge_container := m_compressed_edge_container this;
     speed_profile := speed_profile this;
     restricted_turns_counter := restricted_turns_counter this;
     skipped_uturns_counter := skipped_uturns_counter this;
     skipped_barrier_turns_counter := skipped_barrier_turns_counter this |}.

Definition push_edge_based_node (this : EdgeBasedGraphFactory)
    (n : EdgeBasedNode) (is_startpoint : bool) : EdgeBasedGraphFactory :=
  {| m_max_edge_id := m_max_edge_id this;
     m_edge_based_node_weights := m_edge_based_node_weights this;
     m_edge_based_node_list := m_edge_based_node_list this ++ [n];
     m_edge_based_node_is_startpoint :=
       m_edge_based_node_is_startpoint this ++ [is_startpoint];
     m_edge_based_edge_list := m_edge_based_edge_list this;
     m_node_info_list := m_node_info_list this;
     m_node_based_graph := m_node_based_graph this;
     m_restriction_map := m_restriction_map this;
     m_barrier_nodes := m_barrier_nodes this;
     m_traffic_lights := m_traffic_lights this;
     m_compressed_edge_container := m_compressed_edge_container this;
     speed_profile := speed_profile this;
     restricted_turns_counter := restricted_turns_counter this;
     skipped_uturns_counter := skipped_uturns_counter this;
     skipped_barrier_turns_counter := skipped_barrier_turns_counter this |}.

Definition set_m_edge_based_edge_list (this : EdgeBasedGraphFactory)
    (x : list EdgeBasedEdge) : EdgeBasedGraphFactory :=
  {| m_max_edge_id := m_max_edge_id this;
     m_edge_based_node_weights := m_edge_based_node_weights this;
     m_edge_based_node_list := m_edge_based_node_list this;
     m_edge_based_node_is_startpoint := m_edge_based_node_is_startpoint this;
     m_edge_based_edge_list := x;
     m_node_info_list := m_node_info_list this;
     m_node_based_graph := m_node_based_graph this;
     m_restriction_map := m_restriction_map this;
     m_barrier_nodes := m_barrier_nodes this;
     m_traffic_lights := m_traffic_lights this;
     m_compressed_edge_container := m_compressed_edge_container this;
     speed_profile := speed_profile this;
     restricted_turns_counter := restricted_turns_counter this;
     skipped_uturns_counter := skipped_uturns_counter this;
     skipped_barrier_turns_counter := skipped_barrier_turns_counter this |}.

Definition set_m_node_based_graph (this : EdgeBasedGraphFactory)
    (x : NodeBasedDynamicGraph) : EdgeBasedGraphFactory :=
  {| m_max_edge_id := m_max_edge_id this;
     m_edge_based_node_weights := m_edge_based_node_weights this;
     m_edge_based_node_list := m_edge_based_node_list this;
     m_edge_based_node_is_startpoint := m_edge_based_node_is_startpoint this;
     m_edge_based_edge_list := m_edge_based_edge_list this;
     m_node_info_list := m_node_info_list this;
     m_node_based_graph := x;
     m_restriction_map := m_restriction_map this;
     m_barrier_nodes := m_barrier_nodes this;
     m_traffic_lights := m_traffic_lights this;
     m_compressed_edge_container := m_compressed_edge_container this;
     speed_profile := speed_profile this;
     restricted_turns_counter := restricted_turns_counter this;
     skipped_uturns_counter := skipped_uturns_counter this;
     skipped_barrier_turns_counter := skipped_barrier_turns_counter this |}.

Definition set_counters (this : EdgeBasedGraphFactory)
    (restricted uturns barrier : Z) : EdgeBasedGraphFactory :=
  {| m_max_edge_id := m_max_edge_id this;
     m_edge_based_node_weights := m_edge_based_node_weights this;
     m_edge_based_node_list := m_edge_based_node_list this;
     m_edge_based_node_is_startpoint := m_edge_based_node_is_startpoint this;
     m_edge_based_edge_list := m_edge_based_edge_list this;
     m_node_info_list := m_node_info_list this;
     m_node_based_graph := m_node_based_graph this;
     m_restriction_map := m_restriction_map this;
     m_barrier_nodes := m_barrier_nodes this;
     m_traffic_lights := m_traffic_lights this;
     m_compressed_edge_container := m_compressed_edge_container this;
     speed_profile := speed_profile this;
     restricted_turns_counter := restricted;
     skipped_uturns_counter := uturns;
     skipped_barrier_turns_counter := barrier |}.

(** ** RenumberEdges *)

(** The body of the inner loop, for one adjacent edge: the running count, the
    weight vector and the edge with its data as the iteration leaves them. *)
Definition RenumberEdges_edge (penalty : Z)
    (numbered_edges_count : Z) (weights : list EdgeWeight) (e : NodeBasedEdge)
    : Z * list EdgeWeight * NodeBasedEdge :=
  let edge_data := data e in
  (* only number incoming edges *)
  if reversed edge_data then (numbered_edges_count, weights, e)
  else
    (wrap32 (numbered_edges_count + 1),
     weights ++ [distance edge_data + penalty],
     {| target := target e;
        data := set_edge_id edge_data numbered_edges_count |}).

(** The inner loop: the adjacent edges of one node, in order. *)
Fixpoint RenumberEdges_node (penalty : Z)
    (numbered_edges_count : Z) (weights : list EdgeWeight)
    (edges : list NodeBasedEdge) : Z * list EdgeWeight * list NodeBasedEdge :=
  match edges with
  | [] => (numbered_edges_count, weights, [])
  | e :: rest =>
      let '(count, weights, e') :=
        RenumberEdges_edge penalty numbered_edges_count weights e in
      let '(count, weights, rest') :=
        RenumberEdges_node penalty count weights rest in
      (count, weights, e' :: rest')
  end.

(** The outer loop: the nodes, by increasing id. *)
Fixpoint RenumberEdges_nodes (penalty : Z)
    (numbered_edges_count : Z) (weights : list EdgeWeight)
    (nodes : list (list NodeBasedEdge))
    : Z * list EdgeWeight * list (list NodeBasedEdge) :=
  match nodes with
  | [] => (numbered_edges_count, weights, [])
  | edges :: rest =>
      let '(count, weights, edges') :=
        RenumberEdges_node penalty numbered_edges_count weights edges in
      let '(count, weights, rest') :=
        RenumberEdges_nodes penalty count weights rest in
      (count, weights, edges' :: rest')
  end.

(** Renumbers all _forward_ edges and sets the edge_id.  Returns the number
    of edge based nodes. *)
Definition RenumberEdges (this : EdgeBasedGraphFactory)
    : EdgeBasedGraphFactory * Z :=
  let '(numbered_edges_count, weights, nodes) :=
    RenumberEdges_nodes (u_turn_penalty (speed_profile this)) 0
      (m_edge_based_node_weights this)
      (adjacency (m_node_based_graph this)) in
  (set_m_node_based_graph (set_m_edge_based_node_weights this weights)
     {| adjacency := nodes |},
   numbered_edges_count).

(** The first statement of [Run]: [m_max_edge_id = RenumberEdges() - 1]. *)
Definition Run_renumber (this : EdgeBasedGraphFactory)
    : EdgeBasedGraphFactory :=
  let '(this, numbered_edges_count) := RenumberEdges this in
  set_m_max_edge_id this (wrap32 (numbered_edges_count - 1)).

(** ** GenerateEdgeExpandedNodes *)

(** The loop over the geometry of an edge pair: segment [i] runs from the
    running source coordinate to [forward_geometry[i]]. *)
Fixpoint InsertEdgeBasedNode_segments (this : EdgeBasedGraphFactory)
    (forward_data reverse_data : EdgeData) (position_1 position_2 : Z)
    (forward_geometry : list CompressedNode) (i : Z)
    (current_edge_source_coordinate_id : NodeID) : EdgeBasedGraphFactory :=
  match forward_geometry with
  | [] => this
  | segment :: rest =>
      let current_edge_target_coordinate_id := geometry_node_id segment in
      let this :=
        push_edge_based_node this
          {| forward_edge_based_node_id := edge_id forward_data;
             reverse_edge_based_node_id := edge_id reverse_data;
             u := current_edge_source_coordinate_id;
             v := current_edge_target_coordinate_id;
             ebn_name_id := name_id forward_data;
             forward_packed_geometry_id := position_1;
             reverse_packed_geometry_id := position_2;
             is_tiny_component := false;
             component_id := INVALID_COMPONENTID;
             fwd_segment_position := i;
             forward_travel_mode := travel_mode forward_data;
             backward_travel_mode := travel_mode reverse_data |}
          (startpoint forward_data || startpoint reverse_data) in
      InsertEdgeBasedNode_segments this forward_data reverse_data
        position_1 position_2 rest (i + 1) current_edge_target_coordinate_id
  end.

Definition InsertEdgeBasedNode (this : EdgeBasedGraphFactory)
    (node_u node_v : NodeID) : EdgeBasedGraphFactory :=
  let g := m_node_based_graph this in
  (* find forward edge id and *)
  let edge_id_1 := FindEdge g node_u node_v in
  let forward_data := GetEdgeData g edge_id_1 in
  (* find reverse edge id and *)
  let edge_id_2 := FindEdge g node_v node_u in
  let reverse_data := GetEdgeData g edge_id_2 in
  if bool_decide (edge_id forward_data = SPECIAL_NODEID)
     && bool_decide (edge_id reverse_data = SPECIAL_NODEID)
  then this
  else
    let this :=
      if bool_decide (edge_id forward_data <> SPECIAL_NODEID)
         && bool_decide (edge_id reverse_data = SPECIAL_NODEID)
      then
        set_m_edge_based_node_weights this
          (<[Z.to_nat (edge_id forward_data) := INVALID_EDGE_WEIGHT]>
             (m_edge_based_node_weights this))
      else this in
    let container := m_compressed_edge_container this in
    InsertEdgeBasedNode_segments this forward_data reverse_data
      (GetPositionForID container edge_id_1)
      (GetPositionForID container edge_id_2)
      (GetBucketReference container edge_id_1) 0 node_u.

(** The body of the inner loop of [GenerateEdgeExpandedNodes]. *)
Definition GenerateEdgeExpandedNodes_edge (node_u : NodeID)
    (this : EdgeBasedGraphFactory) (e1 : EdgeID) : EdgeBasedGraphFactory :=
  let edge_data := GetEdgeData (m_node_based_graph this) e1 in
  let node_v := GetTarget (m_node_based_graph this) e1 in
  (* pick only every other edge, since we have every edge as an outgoing
     and incoming egde *)
  if bool_decide (node_u > node_v) then this
  else
    (* if we found a non-forward edge reverse and try again *)
    if bool_decide (edge_id edge_data = SPECIAL_NODEID)
    then InsertEdgeBasedNode this node_v node_u
    else InsertEdgeBasedNode this node_u node_v.

(** Creates the nodes in the edge expanded graph from edges in the
    node-based graph. *)
Definition GenerateEdgeExpandedNodes (this : EdgeBasedGraphFactory)
    : EdgeBasedGraphFactory :=
  foldl
    (fun this node_u =>
       foldl (GenerateEdgeExpandedNodes_edge node_u) this
         (GetAdjacentEdgeRange (m_node_based_graph this) node_u))
    this
    (seqZ 0 (GetNumberOfNodes (m_node_based_graph this))).

(** ** The turn candidates of an intersection *)

(** Cyclic neighbours in a candidate vector of size [n]. *)
Definition getLeft (n index : nat) : nat := ((index + 1) mod n)%nat.
Definition getRight (n index : nat) : nat := ((index + n - 1) mod n)%nat.

(** Assignment to [turn_candidates[i].instruction]. *)
Definition assign_instruction (i : nat) (ins : TurnInstruction)
    (turn_candidates : list TurnCandidate) : list TurnCandidate :=
  alter (fun c => set_instruction c ins) i turn_candidates.

Definition modifier_at (turn_candidates : list TurnCandidate) (i : nat)
    : DirectionModifier.t :=
  direction_modifier (instruction (turn_candidates !!! i)).

Definition assign_modifier (i : nat) (m : DirectionModifier.t)
    (turn_candidates : list TurnCandidate) : list TurnCandidate :=
  alter (fun c => set_instruction c (set_direction_modifier (instruction c) m))
    i turn_candidates.

Definition assign_type (i : nat) (ty : TurnType.t)
    (turn_candidates : list TurnCandidate) : list TurnCandidate :=
  alter (fun c => set_instruction c (set_type (instruction c) ty))
    i turn_candidates.

Section Guidance.
Context `{toolkit : GuidanceToolkit}.

(** node_u -- (edge_1) --> node_v -- (edge_2) --> node_w *)
Definition AnalyzeTurn (this : EdgeBasedGraphFactory)
    (node_u : NodeID) (edge1 : EdgeID) (node_v : NodeID) (edge2 : EdgeID)
    (node_w : NodeID) (angle : float) : TurnInstruction :=
  let g := m_node_based_graph this in
  let data1 := GetEdgeData g edge1 in
  let data2 := GetEdgeData g edge2 in
  let from_ramp := isRampClass (road_class data1) in
  let to_ramp := isRampClass (road_class data2) in
  if bool_decide (node_u = node_w) then
    {| type := TurnType.Turn; direction_modifier := DirectionModifier.UTurn |}
  (* roundabouts need to be handled explicitely *)
  else if roundabout data1 && roundabout data2 then
    (* Is a turn possible? If yes, we stay on the roundabout! *)
    if bool_decide (1 = GetDirectedOutDegree g node_v) then NO_TURN
    else REMAIN_ROUNDABOUT (getTurnDirection angle)
  (* Does turn start or end on roundabout? *)
  else if (roundabout data1 || roundabout data2)
          && (negb (roundabout data1) && roundabout data2) then
    ENTER_ROUNDABOUT (getTurnDirection angle)
  else if (roundabout data1 || roundabout data2)
          && (roundabout data1 && negb (roundabout data2)) then
    EXIT_ROUNDABOUT (getTurnDirection angle)
  else if negb from_ramp && to_ramp then
    {| type := TurnType.Ramp; direction_modifier := getTurnDirection angle |}
  (* assign a designated turn angle instruction purely based on the angle *)
  else
    {| type := TurnType.Turn; direction_modifier := getTurnDirection angle |}.

Definition increment_restricted_turns_counter (this : EdgeBasedGraphFactory)
    : EdgeBasedGraphFactory :=
  set_counters this (restricted_turns_counter this + 1)
    (skipped_uturns_counter this) (skipped_barrier_turns_counter this).

Definition increment_skipped_uturns_counter (this : EdgeBasedGraphFactory)
    : EdgeBasedGraphFactory :=
  set_counters this (restricted_turns_counter this)
    (skipped_uturns_counter this + 1) (skipped_barrier_turns_counter this).

Definition increment_skipped_barrier_turns_counter
    (this : EdgeBasedGraphFactory) : EdgeBasedGraphFactory :=
  set_counters this (restricted_turns_counter this)
    (skipped_uturns_counter this) (skipped_barrier_turns_counter this + 1).

(** The inner count of [getTurnCandidates]: the edges out of [turn_node]
    whose reverse edge is not [reversed]. *)
Definition number_of_emmiting_bidirectional_edges
    (g : NodeBasedDynamicGraph) (turn_node : NodeID) : Z :=
  Z.of_nat (length (filter
    (fun edge =>
       let target := GetTarget g edge in
       let reverse_edge := FindEdge g target turn_node in
       reversed (GetEdgeData g reverse_edge) = false)
    (GetAdjacentEdgeRange g turn_node))).

(** The only_-restriction check of the loop body of [getTurnCandidates]:
    [turn_is_valid] after the check, and the object with its counters. *)
Definition check_only_restriction (this : EdgeBasedGraphFactory)
    (only_restriction_to_node to_node : NodeID) (turn_is_valid : bool)
    : bool * EdgeBasedGraphFactory :=
  if turn_is_valid && bool_decide (only_restriction_to_node <> SPECIAL_NODEID)
     && bool_decide (to_node <> only_restriction_to_node)
  then
    (* We are at an only_-restriction but not at the right turn. *)
    (false, increment_restricted_turns_counter this)
  else (turn_is_valid, this).

(** The barrier and U-turn check of the loop body. *)
Definition check_barrier_and_uturn (this : EdgeBasedGraphFactory)
    (from_node turn_node to_node : NodeID) (is_barrier_node : bool)
    (turn_is_valid : bool) : bool * EdgeBasedGraphFactory :=
  let g := m_node_based_graph this in
  if turn_is_valid then
    if is_barrier_node then
      if bool_decide (from_node <> to_node)
      then (false, increment_skipped_barrier_turns_counter this)
      else (turn_is_valid, this)
    else
      if bool_decide (from_node = to_node)
         && bool_decide (GetOutDegree g turn_node > 1)
      then
        if bool_decide (number_of_emmiting_bidirectional_edges g turn_node > 1)
        then (false, increment_skipped_uturns_counter this)
        else (turn_is_valid, this)
      else (turn_is_valid, this)
  else (turn_is_valid, this).

(** The query of the restriction map that closes the validity checks. *)
Definition check_turn_restricted (this : EdgeBasedGraphFactory)
    (from_node turn_node to_node only_restriction_to_node : NodeID)
    (turn_is_valid : bool) : bool * EdgeBasedGraphFactory :=
  if CheckIfTurnIsRestricted (m_restriction_map this)
       from_node turn_node to_node
     && bool_decide (only_restriction_to_node = SPECIAL_NODEID)
     && bool_decide (to_node <> only_restriction_to_node)
  then (false, increment_restricted_turns_counter this)
  else (turn_is_valid, this).

(** [turn_is_valid] for the turn onto [onto_edge], as the loop body of
    [getTurnCandidates] computes it, with the counters it increments. *)
Definition turn_validity (this : EdgeBasedGraphFactory)
    (from_node turn_node only_restriction_to_node : NodeID)
    (is_barrier_node : bool) (onto_edge : EdgeID)
    : bool * EdgeBasedGraphFactory :=
  let g := m_node_based_graph this in
  let turn_is_valid := negb (reversed (GetEdgeData g onto_edge)) in
  let to_node := GetTarget g onto_edge in
  let '(turn_is_valid, this) :=
    check_only_restriction this only_restriction_to_node to_node
      turn_is_valid in
  let '(turn_is_valid, this) :=
    check_barrier_and_uturn this from_node turn_node to_node is_barrier_node
      turn_is_valid in
  check_turn_restricted this from_node turn_node to_node
    only_restriction_to_node turn_is_valid.

(** The state of the loop over the edges out of the turn node. *)
Record CandidateLoop := {
  loop_this : EdgeBasedGraphFactory;
  has_non_roundabout : bool;
  has_roundabout_entry : bool;
  turn_candidates : list TurnCandidate
}.

Definition getTurnCandidates_edge
    (from_node : NodeID) (via_eid : EdgeID) (turn_node : NodeID)
    (only_restriction_to_node : NodeID) (is_barrier_node : bool)
    (st : CandidateLoop) (onto_edge : EdgeID) : CandidateLoop :=
  let this := loop_this st in
  let g := m_node_based_graph this in
  let to_node := GetTarget g onto_edge in
  let '(turn_is_valid, this') :=
    turn_validity this from_node turn_node only_restriction_to_node
      is_barrier_node onto_edge in
  (* unpack first node of second segment if packed *)
  let first_coordinate :=
    getRepresentativeCoordinate from_node turn_node via_eid INVERT
      (m_compressed_edge_container this) (m_node_info_list this) in
  let third_coordinate :=
    getRepresentativeCoordinate turn_node to_node onto_edge (negb INVERT)
      (m_compressed_edge_container this) (m_node_info_list this) in
  let angle :=
    computeAngle first_coordinate
      (QueryNode_coordinate (m_node_info_list this !!! Z.to_nat turn_node))
      third_coordinate in
  let turn :=
    AnalyzeTurn this from_node via_eid turn_node onto_edge to_node angle in
  let has_non_roundabout' :=
    if turn_is_valid && negb (entersRoundabout turn) then true
    else has_non_roundabout st in
  let has_roundabout_entry' :=
    if turn_is_valid && negb (entersRoundabout turn)
    then has_roundabout_entry st
    else if turn_is_valid then true else has_roundabout_entry st in
  let confidence := getTurnConfidence angle turn in
  let confidence :=
    (* confidence *= 0.8: makes invalid turns more likely to be resolved in
       conflicts *)
    if negb turn_is_valid then (confidence * 0x1.999999999999ap-1)%float
    else confidence in
  {| loop_this := this';
     has_non_roundabout := has_non_roundabout';
     has_roundabout_entry := has_roundabout_entry';
     turn_candidates :=
       turn_candidates st
       ++ [ {| eid := onto_edge; valid := turn_is_valid; angle := angle;
               instruction := turn; confidence := confidence |} ] |}.

(** The reclassification of the roundabout entries. *)
Definition reclassify_roundabout_entry (candidate : TurnCandidate)
    : TurnCandidate :=
  if entersRoundabout (instruction candidate) then
    let candidate :=
      if bool_decide (type (instruction candidate) = TurnType.EnterRotary)
      then set_instruction candidate
             (set_type (instruction candidate) TurnType.EnterRotaryAtExit)
      else candidate in
    if bool_decide (type (instruction candidate) = TurnType.EnterRoundabout)
    then set_instruction candidate
           (set_type (instruction candidate) TurnType.EnterRoundaboutAtExit)
    else candidate
  else candidate.

(** [std::sort] by [ByAngle], as an insertion sort.  The order in which
    [std::sort] leaves candidates of equal angle is unspecified; the insertion
    puts a candidate in front of those that are not smaller, so that
    candidates of equal angle keep the order they had, which is one of the
    admissible results. *)
Fixpoint insert_ByAngle (c : TurnCandidate) (sorted : list TurnCandidate)
    : list TurnCandidate :=
  match sorted with
  | [] => [c]
  | d :: rest =>
      if (angle d <? angle c)%float then d :: insert_ByAngle c rest
      else c :: d :: rest
  end.

Definition sort_ByAngle (l : list TurnCandidate) : list TurnCandidate :=
  foldr insert_ByAngle [] l.

Definition isInvalidEquivalent (turn_candidates : list TurnCandidate)
    (this_turn valid_turn : nat) : bool :=
  if negb (valid (turn_candidates !!! valid_turn))
     || valid (turn_candidates !!! this_turn)
  then false
  else
    (angularDeviation (angle (turn_candidates !!! this_turn))
                      (angle (turn_candidates !!! valid_turn))
     <? NARROW_TURN_ANGLE)%float.

(** The closing loop of [getTurnCandidates].  Every iteration either erases
    a candidate or advances [index], so [size - index] iterations end it:
    [fuel] counts them. *)
Fixpoint erase_invalid_equivalents (fuel : nat) (index : nat)
    (turn_candidates : list TurnCandidate) : list TurnCandidate :=
  match fuel with
  | O => turn_candidates
  | S fuel =>
      let n := length turn_candidates in
      if bool_decide (index < n)%nat then
        if isInvalidEquivalent turn_candidates index (getRight n index)
           || isInvalidEquivalent turn_candidates index (getLeft n index)
        then
          (* erase, and --index followed by ++index *)
          erase_invalid_equivalents fuel index (delete index turn_candidates)
        else erase_invalid_equivalents fuel (S index) turn_candidates
      else turn_candidates
  end.

(** [indeterminate] is the value that the read of [has_roundabout_entry]
    finds when no iteration has assigned it: the declaration
    [bool has_non_roundabout = false, has_roundabout_entry;] leaves it
    without an initializer. *)
Definition getTurnCandidates (this : EdgeBasedGraphFactory)
    (indeterminate : bool) (from_node : NodeID) (via_eid : EdgeID)
    : list TurnCandidate * EdgeBasedGraphFactory :=
  let g := m_node_based_graph this in
  let turn_node := GetTarget g via_eid in
  let only_restriction_to_node :=
    CheckForEmanatingIsOnlyTurn (m_restriction_map this) from_node turn_node in
  let is_barrier_node := bool_decide (turn_node ∈ m_barrier_nodes this) in
  let st :=
    foldl
      (getTurnCandidates_edge from_node via_eid turn_node
         only_restriction_to_node is_barrier_node)
      {| loop_this := this; has_non_roundabout := false;
         has_roundabout_entry := indeterminate; turn_candidates := [] |}
      (GetAdjacentEdgeRange g turn_node) in
  let candidates :=
    if has_non_roundabout st && has_roundabout_entry st
    then map reclassify_roundabout_entry (turn_candidates st)
    else turn_candidates st in
  let candidates := sort_ByAngle candidates in
  (erase_invalid_equivalents (length candidates) 0 candidates, loop_this st).

(** ** GetTurnPenalty *)

Definition GetTurnPenalty (this : EdgeBasedGraphFactory) (angle : float)
    (lua : lua_State) : Z :=
  if has_turn_penalty_function (speed_profile this) then
    (* call lua profile to compute turn penalty *)
    match turn_function lua (180 - angle)%float with
    | Some penalty => static_cast_int penalty
    | None => 0
    end
  else 0.

(** ** Post-processing of the candidates: forks, ends of road and ramps *)

(** The first loop of [optimizeRamps]: the first candidate that is no
    U-turn and keeps the name of the incoming edge. *)
Fixpoint optimizeRamps_continue (g : NodeBasedDynamicGraph)
    (in_edge_data : EdgeData) (turn_candidates : list TurnCandidate)
    : EdgeID * list TurnCandidate :=
  match turn_candidates with
  | [] => (SPECIAL_EDGEID, [])
  | candidate :: rest =>
      if bool_decide (direction_modifier (instruction candidate)
                      = DirectionModifier.UTurn)
      then
        let '(continue_eid, rest) := optimizeRamps_continue g in_edge_data rest in
        (continue_eid, candidate :: rest)
      else
        let out_edge_data := GetEdgeData g (eid candidate) in
        if bool_decide (name_id out_edge_data = name_id in_edge_data) then
          (eid candidate,
           (if (angularDeviation (angle candidate) STRAIGHT_ANGLE
                <? NARROW_TURN_ANGLE)%float
               && isRampClass (road_class in_edge_data)
            then set_instruction candidate
                   (TurnInstruction_of_type TurnType.Suppressed)
            else candidate) :: rest)
        else
          let '(continue_eid, rest) :=
            optimizeRamps_continue g in_edge_data rest in
          (continue_eid, candidate :: rest)
  end.

(** The second loop of [optimizeRamps]. *)
Fixpoint optimizeRamps_sides (continue_eid : EdgeID) (to_the_right : bool)
    (turn_candidates : list TurnCandidate) : list TurnCandidate :=
  match turn_candidates with
  | [] => []
  | candidate :: rest =>
      if bool_decide (eid candidate = continue_eid) then
        candidate :: optimizeRamps_sides continue_eid false rest
      else if bool_decide (type (instruction candidate) <> TurnType.Ramp) then
        candidate :: optimizeRamps_sides continue_eid to_the_right rest
      else
        (if isSlightModifier (direction_modifier (instruction candidate))
         then set_instruction candidate
                (set_direction_modifier (instruction candidate)
                   (if to_the_right then DirectionModifier.SlightRight
                    else DirectionModifier.SlightLeft))
         else candidate)
        :: optimizeRamps_sides continue_eid to_the_right rest
  end.

Definition optimizeRamps (this : EdgeBasedGraphFactory) (via_edge : EdgeID)
    (turn_candidates : list TurnCandidate) : list TurnCandidate :=
  let g := m_node_based_graph this in
  let in_edge_data := GetEdgeData g via_edge in
  let '(continue_eid, turn_candidates) :=
    optimizeRamps_continue g in_edge_data turn_candidates in
  if bool_decide (continue_eid <> SPECIAL_EDGEID)
  then optimizeRamps_sides continue_eid true turn_candidates
  else turn_candidates.

Definition checkForkAndEnd (this : EdgeBasedGraphFactory) (via_eid : EdgeID)
    (turn_candidates : list TurnCandidate) : TurnType.t :=
  let g := m_node_based_graph this in
  if bool_decide (length turn_candidates <> 3%nat)
     || bool_decide (modifier_at turn_candidates 0 <> DirectionModifier.UTurn)
  then TurnType.Invalid
  else if isOnRoundabout (instruction (turn_candidates !!! 1%nat))
  then TurnType.Invalid
  else
    let road_classes_0 := road_class (GetEdgeData g via_eid) in
    let road_classes_1 :=
      road_class (GetEdgeData g (eid (turn_candidates !!! 1%nat))) in
    let road_classes_2 :=
      road_class (GetEdgeData g (eid (turn_candidates !!! 2%nat))) in
    if (angularDeviation (angle (turn_candidates !!! 1%nat)) STRAIGHT_ANGLE
        <? NARROW_TURN_ANGLE)%float
       && (angularDeviation (angle (turn_candidates !!! 2%nat)) STRAIGHT_ANGLE
           <? NARROW_TURN_ANGLE)%float
    then
      if bool_decide (road_classes_0 <> road_classes_1)
         || bool_decide (road_classes_1 <> road_classes_2)
      then TurnType.Invalid
      else if valid (turn_candidates !!! 1%nat)
              && valid (turn_candidates !!! 2%nat)
      then TurnType.Fork
      else TurnType.Invalid
    else if (angularDeviation (angle (turn_candidates !!! 1%nat)) 90
             <? NARROW_TURN_ANGLE)%float
            && (angularDeviation (angle (turn_candidates !!! 2%nat)) 270
                <? NARROW_TURN_ANGLE)%float
    then TurnType.EndOfRoad
    else TurnType.Invalid.

Definition handleForkAndEnd (ty : TurnType.t)
    (turn_candidates : list TurnCandidate) : list TurnCandidate :=
  let turn_candidates :=
    assign_instruction 1
      {| type := ty;
         direction_modifier :=
           if bool_decide (ty = TurnType.Fork)
           then DirectionModifier.SlightRight else DirectionModifier.Right |}
      turn_candidates in
  assign_instruction 2
    {| type := ty;
       direction_modifier :=
         if bool_decide (ty = TurnType.Fork)
         then DirectionModifier.SlightLeft else DirectionModifier.Left |}
    turn_candidates.

(** ** Post-processing of the candidates: conflicting instructions *)

Definition keepStraight (angle : float) : bool :=
  (abs (angle - 180) <? 5)%float.

(** [resolve(turn_candidates[i].instruction,
             turn_candidates[neighbor].instruction, direction)]. *)
Definition resolve_at (turn_candidates : list TurnCandidate)
    (i neighbor : nat) (direction : bool) : bool * list TurnCandidate :=
  let '(resolved, ins) :=
    resolve (instruction (turn_candidates !!! i))
            (instruction (turn_candidates !!! neighbor)) direction in
  (resolved, assign_instruction i ins turn_candidates).

(** [resolveTransitive] on the instructions at [i], [j] and [k]. *)
Definition resolveTransitive_at (turn_candidates : list TurnCandidate)
    (i j k : nat) (direction : bool) : bool * list TurnCandidate :=
  let '(resolved, (first, second)) :=
    resolveTransitive (instruction (turn_candidates !!! i))
                      (instruction (turn_candidates !!! j))
                      (instruction (turn_candidates !!! k)) direction in
  (resolved,
   assign_instruction j second (assign_instruction i first turn_candidates)).

(** The [while] loop that extends a conflicting region to the left; it
    stops at the latest when the region covers the vector, so [fuel] never
    needs to exceed the size. *)
Fixpoint extend_conflict (fuel : nat) (turn_candidates : list TurnCandidate)
    (turn_index conflict_end conflict_size : nat) : nat * nat :=
  match fuel with
  | O => (conflict_end, conflict_size)
  | S fuel =>
      let n := length turn_candidates in
      if isConflict
           (instruction (turn_candidates !!! getLeft n conflict_end))
           (instruction (turn_candidates !!! turn_index))
         && bool_decide (conflict_size < n)%nat
      then extend_conflict fuel turn_candidates turn_index
             (getLeft n conflict_end) (S conflict_size)
      else (conflict_end, conflict_size)
  end.

(** The branch [conflict_size == 2]. *)
Definition resolve_conflict_of_two (turn_candidates : list TurnCandidate)
    (conflict_begin conflict_end : nat) : list TurnCandidate :=
  let n := length turn_candidates in
  let left_of_end := getLeft n conflict_end in
  let right_of_begin := getRight n conflict_begin in
  let '(resolved, turn_candidates) :=
    if bool_decide (modifier_at turn_candidates conflict_begin
                    = DirectionModifier.Straight)
       && bool_decide (modifier_at turn_candidates left_of_end
                       <> DirectionModifier.SlightLeft)
       && bool_decide (modifier_at turn_candidates right_of_begin
                       <> DirectionModifier.SlightRight)
    then
      (* uses side-effects in resolve *)
      let '(failed_at_end, turn_candidates) :=
        if negb (keepStraight (angle (turn_candidates !!! conflict_end))) then
          let '(ok, turn_candidates) :=
            resolve_at turn_candidates conflict_end left_of_end
              RESOLVE_TO_LEFT in
          (negb ok, turn_candidates)
        else (false, turn_candidates) in
      let '(failed_at_begin, turn_candidates) :=
        if negb (keepStraight (angle (turn_candidates !!! conflict_begin)))
        then
          let '(ok, turn_candidates) :=
            resolve_at turn_candidates conflict_begin right_of_begin
              RESOLVE_TO_RIGHT in
          (negb ok, turn_candidates)
        else (false, turn_candidates) in
      let resolved_count :=
        (if failed_at_end then 0 else 1) + (if failed_at_begin then 0 else 1) in
      (bool_decide (resolved_count >= 1)
       && (negb (keepStraight (angle (turn_candidates !!! conflict_begin)))
           || negb (keepStraight (angle (turn_candidates !!! conflict_end)))),
       turn_candidates)
    else (false, turn_candidates) in
  if resolved then turn_candidates
  else
    let '(resolved, turn_candidates) :=
      if (confidence (turn_candidates !!! conflict_begin)
          <? confidence (turn_candidates !!! conflict_end))%float
      then
        (* if right shift is cheaper, or only option *)
        let '(ok, turn_candidates) :=
          resolve_at turn_candidates conflict_begin right_of_begin
            RESOLVE_TO_RIGHT in
        if ok then (true, turn_candidates)
        else resolve_at turn_candidates conflict_end left_of_end
               RESOLVE_TO_LEFT
      else
        let '(ok, turn_candidates) :=
          resolve_at turn_candidates conflict_end left_of_end
            RESOLVE_TO_LEFT in
        if ok then (true, turn_candidates)
        else resolve_at turn_candidates conflict_begin right_of_begin
               RESOLVE_TO_RIGHT in
    if resolved then turn_candidates
    else
      let turn := instruction (turn_candidates !!! conflict_begin) in
      if isSlightTurn turn || isSharpTurn turn then
        let resolve_direction :=
          if bool_decide (direction_modifier turn
                          = DirectionModifier.SlightRight)
             || bool_decide (direction_modifier turn
                             = DirectionModifier.SharpLeft)
          then RESOLVE_TO_RIGHT else RESOLVE_TO_LEFT in
        if resolve_direction then
          (resolveTransitive_at turn_candidates conflict_begin right_of_begin
             (getRight n (getRight n conflict_begin)) RESOLVE_TO_RIGHT).2
        else
          (resolveTransitive_at turn_candidates conflict_end left_of_end
             (getLeft n (getLeft n conflict_end)) RESOLVE_TO_LEFT).2
      else turn_candidates.

(** The branch [conflict_size >= 3]: a conflict of size larger than three
    cannot be handled with the current model; handle it as best as possible
    and keep the rest of the conflicting turns. *)
Definition resolve_conflict_of_many (turn_candidates : list TurnCandidate)
    (conflict_begin conflict_end : nat) : list TurnCandidate :=
  let n := length turn_candidates in
  let left_of_end := getLeft n conflict_end in
  let right_of_begin := getRight n conflict_begin in
  let '(ok, turn_candidates) :=
    resolve_at turn_candidates conflict_begin right_of_begin
      RESOLVE_TO_RIGHT in
  let turn_candidates :=
    if ok then turn_candidates
    else
      let turn := instruction (turn_candidates !!! conflict_begin) in
      if isSlightTurn turn then
        (resolveTransitive_at turn_candidates conflict_begin right_of_begin
           (getRight n (getRight n conflict_begin)) RESOLVE_TO_RIGHT).2
      else if isSharpTurn turn then
        (resolveTransitive_at turn_candidates conflict_end left_of_end
           (getLeft n (getLeft n conflict_end)) RESOLVE_TO_LEFT).2
      else turn_candidates in
  let '(ok, turn_candidates) :=
    resolve_at turn_candidates conflict_end left_of_end RESOLVE_TO_LEFT in
  if ok then turn_candidates
  else
    let turn := instruction (turn_candidates !!! conflict_begin) in
    if isSlightTurn turn then
      (resolveTransitive_at turn_candidates conflict_end left_of_end
         (getLeft n (getLeft n conflict_end)) RESOLVE_TO_LEFT).2
    else if isSharpTurn turn then
      (resolveTransitive_at turn_candidates conflict_begin right_of_begin
         (getRight n (getRight n conflict_begin)) RESOLVE_TO_RIGHT).2
    else turn_candidates.

(** One iteration of the [for] loop of [optimizeCandidates]: the value of
    [turn_index] at the end of the body and the vector. *)
Definition optimizeCandidates_turn (turn_candidates : list TurnCandidate)
    (turn_index : nat) : nat * list TurnCandidate :=
  let n := length turn_candidates in
  let turn := turn_candidates !!! turn_index in
  if negb (isBasic (type (instruction turn)))
     || isUturn (instruction turn) || isOnRoundabout (instruction turn)
  then (turn_index, turn_candidates)
  else
    let left := turn_candidates !!! getLeft n turn_index in
    if isConflict (instruction turn) (instruction left) then
      (* begin of a conflicting region *)
      let conflict_begin := turn_index in
      let '(conflict_end, conflict_size) :=
        extend_conflict n turn_candidates turn_index
          (getLeft n turn_index) 2 in
      (if bool_decide (conflict_end < conflict_begin)%nat then n
       else conflict_end,
       if bool_decide (conflict_size = 2%nat)
       then resolve_conflict_of_two turn_candidates conflict_begin conflict_end
       else resolve_conflict_of_many turn_candidates conflict_begin
              conflict_end)
    else (turn_index, turn_candidates).

(** The [for] loop: [turn_index] grows in every iteration, so at most
    [size] iterations run. *)
Fixpoint optimizeCandidates_loop (fuel : nat) (turn_index : nat)
    (turn_candidates : list TurnCandidate) : list TurnCandidate :=
  match fuel with
  | O => turn_candidates
  | S fuel =>
      if bool_decide (turn_index < length turn_candidates)%nat then
        let '(turn_index, turn_candidates) :=
          optimizeCandidates_turn turn_candidates turn_index in
        optimizeCandidates_loop fuel (S turn_index) turn_candidates
      else turn_candidates
  end.

(** handle availability of multiple u-turns (e.g. street with separated
    small parking roads) *)
Definition relabel_multiple_uturns (turn_candidates : list TurnCandidate)
    : list TurnCandidate :=
  let n := length turn_candidates in
  if isUturn (instruction (turn_candidates !!! 0%nat))
     && (angle (turn_candidates !!! 0%nat) =? 0)%float
  then
    let turn_candidates :=
      if isUturn (instruction (turn_candidates !!! getLeft n 0))
      then assign_modifier (getLeft n 0) DirectionModifier.SharpLeft
             turn_candidates
      else turn_candidates in
    if isUturn (instruction (turn_candidates !!! getRight n 0))
    then assign_modifier (getRight n 0) DirectionModifier.SharpRight
           turn_candidates
    else turn_candidates
  else turn_candidates.

(** requires sorted candidates *)
Definition optimizeCandidates (this : EdgeBasedGraphFactory)
    (via_eid : EdgeID) (turn_candidates : list TurnCandidate)
    : list TurnCandidate :=
  if bool_decide (length turn_candidates <= 1)%nat then turn_candidates
  else
    let ty := checkForkAndEnd this via_eid turn_candidates in
    if bool_decide (ty <> TurnType.Invalid)
    then handleForkAndEnd ty turn_candidates
    else
      let turn_candidates := optimizeRamps this via_eid turn_candidates in
      let turn_candidates := relabel_multiple_uturns turn_candidates in
      optimizeCandidates_loop (length turn_candidates) 0 turn_candidates.

(** ** Post-processing of the candidates: suppression *)

Definition hasValidRatio (left center right : TurnCandidate) : bool :=
  let angle_left :=
    if (180 <? angle left)%float
    then angularDeviation (angle left) STRAIGHT_ANGLE else 180%float in
  let angle_right :=
    if (angle right <? 180)%float
    then angularDeviation (angle right) STRAIGHT_ANGLE else 180%float in
  let self_angle := angularDeviation (angle center) STRAIGHT_ANGLE in
  (angularDeviation (angle center) STRAIGHT_ANGLE <? NARROW_TURN_ANGLE)%float
  && (if (angle center <? STRAIGHT_ANGLE)%float
      then (self_angle <? angle_right)%float
           && (DISTINCTION_RATIO <? angle_left / self_angle)%float
      else (self_angle <? angle_left)%float
           && (DISTINCTION_RATIO <? angle_right / self_angle)%float).

(** The [BOOST_ASSERT] of [isObviousChoice]: the first candidate is the
    U-turn. *)
Definition first_is_uturn (turn_candidates : list TurnCandidate) : bool :=
  bool_decide (type (instruction (turn_candidates !!! 0%nat)) = TurnType.Turn)
  && bool_decide (modifier_at turn_candidates 0 = DirectionModifier.UTurn).

(** [isObviousChoice] returns its result; the second component records
    whether the [BOOST_ASSERT] held when the call reached it ([true] also
    when the call did not reach it).  A build with [NDEBUG] computes the
    first component only. *)
Definition isObviousChoice (this : EdgeBasedGraphFactory) (via_eid : EdgeID)
    (turn_index : nat) (turn_candidates : list TurnCandidate) : bool * bool :=
  let g := m_node_based_graph this in
  let n := length turn_candidates in
  let candidate := turn_candidates !!! turn_index in
  let in_data := GetEdgeData g via_eid in
  let out_data := GetEdgeData g (eid candidate) in
  let candidate_to_the_left := turn_candidates !!! getLeft n turn_index in
  let candidate_to_the_right := turn_candidates !!! getRight n turn_index in
  let is_normal_road :=
    negb (isLowPriorityRoadClass
            (road_class (GetEdgeData g (eid candidate)))) in
  let is_only_normal_road :=
    forallb
      (fun i =>
         (* skip self and u-turn *)
         bool_decide (i = turn_index)
         || (angle (turn_candidates !!! i) =? 0)%float
         || isLowPriorityRoadClass
              (road_class (GetEdgeData g (eid (turn_candidates !!! i)))))
      (seq 0 n) in
  (* only valid turn *)
  if is_normal_road && is_only_normal_road
  then (true, first_is_uturn turn_candidates)
  else
    (bool_decide (n = 1%nat)
     (* only non u-turn *)
     || (bool_decide (n = 2%nat)
         && isUturn (instruction candidate_to_the_left))
     (* nearly straight turn *)
     || (angularDeviation (angle candidate) STRAIGHT_ANGLE
         <? MAXIMAL_ALLOWED_NO_TURN_DEVIATION)%float
     || hasValidRatio candidate_to_the_left candidate candidate_to_the_right
     || (bool_decide (name_id in_data <> 0)
         && bool_decide (name_id in_data = name_id out_data)
         && (angularDeviation (angle candidate) STRAIGHT_ANGLE
             <? NARROW_TURN_ANGLE / 2)%float),
     if is_normal_road then first_is_uturn turn_candidates else true).

(** The special case of three candidates at the head of [suppressTurns]:
    [Some] is the early [return]. *)
Definition suppressTurns_of_three (this : EdgeBasedGraphFactory)
    (via_eid : EdgeID) (turn_candidates : list TurnCandidate)
    : option (list TurnCandidate) :=
  let g := m_node_based_graph this in
  let class_of i := road_class (GetEdgeData g (eid (turn_candidates !!! i))) in
  let name_of i := name_id (GetEdgeData g (eid (turn_candidates !!! i))) in
  let near_straight i :=
    (angularDeviation (angle (turn_candidates !!! i)) STRAIGHT_ANGLE
     <? NARROW_TURN_ANGLE)%float in
  let collapse i :=
    if bool_decide (name_of i = name_id (GetEdgeData g via_eid))
    then assign_instruction i NO_TURN turn_candidates
    else assign_type i TurnType.NewName turn_candidates in
  if isLowPriorityRoadClass (class_of 1%nat)
     && negb (isLowPriorityRoadClass (class_of 2%nat))
  then if near_straight 2%nat then Some (collapse 2%nat) else None
  else if isLowPriorityRoadClass (class_of 2%nat)
          && negb (isLowPriorityRoadClass (class_of 1%nat))
  then if near_straight 1%nat then Some (collapse 1%nat) else None
  else None.

(** The first loop of [suppressTurns]: the first candidate that keeps the
    name and is an obvious choice, from [turn_index] on.  The result is
    [has_obvious_with_same_name], [obvious_with_same_name_angle] and the
    record of the assertions of the calls made. *)
Fixpoint find_obvious_with_same_name (this : EdgeBasedGraphFactory)
    (via_eid : EdgeID) (turn_candidates : list TurnCandidate)
    (indices : list nat) : bool * float * bool :=
  match indices with
  | [] => (false, 0%float, true)
  | turn_index :: rest =>
      let g := m_node_based_graph this in
      if bool_decide
           (name_id (GetEdgeData g (eid (turn_candidates !!! turn_index)))
            = name_id (GetEdgeData g via_eid))
      then
        let '(obvious, asserted) :=
          isObviousChoice this via_eid turn_index turn_candidates in
        if obvious
        then (true, angle (turn_candidates !!! turn_index), asserted)
        else
          let '(found, found_angle, asserted_rest) :=
            find_obvious_with_same_name this via_eid turn_candidates rest in
          (found, found_angle, asserted && asserted_rest)
      else find_obvious_with_same_name this via_eid turn_candidates rest
  end.

(** The body of the second loop of [suppressTurns], for [turn_index]. *)
Definition suppressTurns_turn (this : EdgeBasedGraphFactory)
    (via_eid : EdgeID) (has_obvious_with_same_name : bool)
    (obvious_with_same_name_angle : float)
    (turn_candidates : list TurnCandidate) (turn_index : nat)
    : list TurnCandidate * bool :=
  let g := m_node_based_graph this in
  let n := length turn_candidates in
  let in_data := GetEdgeData g via_eid in
  let candidate := turn_candidates !!! turn_index in
  if negb (isBasic (type (instruction candidate)))
  then (turn_candidates, true)
  else
    let out_data := GetEdgeData g (eid candidate) in
    let turn_candidates :=
      if bool_decide (name_id out_data = name_id in_data)
         && bool_decide (name_id in_data <> 0)
         && bool_decide (direction_modifier (instruction candidate)
                         <> DirectionModifier.UTurn)
         && negb has_obvious_with_same_name
      then assign_type turn_index TurnType.Continue turn_candidates
      else turn_candidates in
    let candidate := turn_candidates !!! turn_index in
    if valid candidate && negb (isUturn (instruction candidate)) then
      (* check if turn can be omitted or at least changed *)
      let left := turn_candidates !!! getLeft n turn_index in
      let right := turn_candidates !!! getRight n turn_index in
      (* make very slight instructions straight, if they are the only valid
         choice going with at most a slight turn *)
      let turn_candidates :=
        if (negb (isSlightModifier (getTurnDirection (angle left)))
            || negb (valid left))
           && (negb (isSlightModifier (getTurnDirection (angle right)))
               || negb (valid right))
           && (angularDeviation (angle candidate) STRAIGHT_ANGLE
               <? FUZZY_STRAIGHT_ANGLE)%float
        then assign_modifier turn_index DirectionModifier.Straight
               turn_candidates
        else turn_candidates in
      let candidate := turn_candidates !!! turn_index in
      let slight_side :=
        if (angle candidate <? obvious_with_same_name_angle)%float
        then DirectionModifier.SlightRight else DirectionModifier.SlightLeft in
      (* make sure to always announce mode changes *)
      if bool_decide (travel_mode in_data = travel_mode out_data) then
        let '(obvious, asserted) :=
          isObviousChoice this via_eid turn_index turn_candidates in
        if obvious then
          if bool_decide (name_id in_data = name_id out_data) then
            (* same road *)
            (assign_type turn_index TurnType.Suppressed turn_candidates,
             asserted)
          else if negb has_obvious_with_same_name then
            if isRampClass (road_class in_data)
               && negb (isRampClass (road_class out_data))
            then
              (assign_instruction turn_index
                 {| type := TurnType.Merge;
                    direction_modifier :=
                      mirrorDirectionModifier
                        (direction_modifier (instruction candidate)) |}
                 turn_candidates,
               asserted)
            else if canBeSuppressed (type (instruction candidate)) then
              (assign_type turn_index TurnType.NewName turn_candidates,
               asserted)
            else (turn_candidates, asserted)
          else (assign_modifier turn_index slight_side turn_candidates,
                asserted)
        else if bool_decide (direction_modifier (instruction candidate)
                             = DirectionModifier.Straight)
                && has_obvious_with_same_name
        then (assign_modifier turn_index slight_side turn_candidates, asserted)
        else (turn_candidates, asserted)
      else (turn_candidates, true)
    else (turn_candidates, true).

(** The second loop of [suppressTurns]. *)
Fixpoint suppressTurns_loop (this : EdgeBasedGraphFactory) (via_eid : EdgeID)
    (has_obvious_with_same_name : bool) (obvious_with_same_name_angle : float)
    (turn_candidates : list TurnCandidate) (indices : list nat)
    : list TurnCandidate * bool :=
  match indices with
  | [] => (turn_candidates, true)
  | turn_index :: rest =>
      let '(turn_candidates, asserted) :=
        suppressTurns_turn this via_eid has_obvious_with_same_name
          obvious_with_same_name_angle turn_candidates turn_index in
      let '(turn_candidates, asserted_rest) :=
        suppressTurns_loop this via_eid has_obvious_with_same_name
          obvious_with_same_name_angle turn_candidates rest in
      (turn_candidates, asserted && asserted_rest)
  end.

(** [suppressTurns] with the record of its assertions on the position of
    the U-turn: the [BOOST_ASSERT] at the head of the branch for three
    candidates, and the one of every call of [isObviousChoice]. *)
Definition suppressTurns_asserting (this : EdgeBasedGraphFactory)
    (via_eid : EdgeID) (turn_candidates : list TurnCandidate)
    : list TurnCandidate * bool :=
  let n := length turn_candidates in
  let asserted_of_three :=
    if bool_decide (n = 3%nat)
    then bool_decide (modifier_at turn_candidates 0 = DirectionModifier.UTurn)
    else true in
  match
    (if bool_decide (n = 3%nat)
     then suppressTurns_of_three this via_eid turn_candidates else None)
  with
  | Some result => (result, asserted_of_three)
  | None =>
      let '(has_obvious_with_same_name, obvious_with_same_name_angle,
            asserted_first) :=
        find_obvious_with_same_name this via_eid turn_candidates (seq 0 n) in
      let '(result, asserted_second) :=
        suppressTurns_loop this via_eid has_obvious_with_same_name
          obvious_with_same_name_angle turn_candidates (seq 0 n) in
      (result, asserted_of_three && asserted_first && asserted_second)
  end.

(** [suppressTurns] as a build without assertions runs it. *)
Definition suppressTurns (this : EdgeBasedGraphFactory) (via_eid : EdgeID)
    (turn_candidates : list TurnCandidate) : list TurnCandidate :=
  (suppressTurns_asserting this via_eid turn_candidates).1.

End Guidance.

(** ** GenerateEdgeExpandedEdges *)

(** The original-edge-data file: the [unsigned] at offset 0 and the records
    that follow it.  The byte layout of a record is not modelled. *)
Record EdgeDataFile := {
  length_prefix : Z;
  file_records : list OriginalEdgeData
}.

(** The object and the locals of [GenerateEdgeExpandedEdges]. *)
Record EdgeExpansion := {
  factory : EdgeBasedGraphFactory;
  node_based_edge_counter : Z;
  original_edges_counter : Z;
  edge_data_file : EdgeDataFile;
  original_edge_data_vector : list OriginalEdgeData
}.

Definition FlushVectorToStream (edge_data_file : EdgeDataFile)
    (original_edge_data_vector : list OriginalEdgeData)
    : EdgeDataFile * list OriginalEdgeData :=
  match original_edge_data_vector with
  | [] => (edge_data_file, original_edge_data_vector)
  | _ =>
      ({| length_prefix := length_prefix edge_data_file;
          file_records :=
            file_records edge_data_file ++ original_edge_data_vector |},
       [])
  end.

(** [boost::numeric_cast<unsigned>] of a [std::size_t]: it throws when the
    value does not fit ([None]). *)
Definition numeric_cast_unsigned (x : Z) : option Z :=
  if bool_decide (x < 2 ^ 32) then Some x else None.

Section Expansion.
Context `{toolkit : GuidanceToolkit}.

(** The weight of the expanded edge of a turn: the core of the loop. *)
Definition turn_distance (this : EdgeBasedGraphFactory) (lua : lua_State)
    (edge_data1 : EdgeData) (node_v : NodeID) (turn : TurnCandidate) : Z :=
  let distance := wrap32 (distance edge_data1) in
  let distance :=
    if bool_decide (node_v ∈ m_traffic_lights this)
    then wrap32 (distance + traffic_signal_penalty (speed_profile this))
    else distance in
  let turn_penalty := GetTurnPenalty this (angle turn) lua in
  let distance :=
    if isUturn (instruction turn)
    then wrap32 (distance + u_turn_penalty (speed_profile this))
    else distance in
  wrap32 (distance + turn_penalty).

(** The body of the loop over the candidates of [edge_form_u].  The weight
    of the expanded edge is the [unsigned distance] handed to
    [emplace_back]; the streams of the edge lookup are not modelled. *)
Definition GenerateEdgeExpandedEdges_turn (lua : lua_State)
    (edge_form_u : EdgeID) (node_v : NodeID)
    (st : EdgeExpansion) (turn : TurnCandidate) : EdgeExpansion :=
  if negb (valid turn) then st
  else
    let this := factory st in
    let g := m_node_based_graph this in
    (* only add an edge if turn is not prohibited *)
    let edge_data1 := GetEdgeData g edge_form_u in
    let edge_data2 := GetEdgeData g (eid turn) in
    let distance := turn_distance this lua edge_data1 node_v turn in
    let original_edge_data_vector :=
      original_edge_data_vector st
      ++ [ {| via_node :=
                GetPositionForID (m_compressed_edge_container this)
                  edge_form_u;
              oed_name_id := name_id edge_data1;
              turn_instruction := instruction turn;
              oed_travel_mode := travel_mode edge_data1 |} ] in
    let '(edge_data_file, original_edge_data_vector) :=
      if bool_decide (Z.of_nat (length original_edge_data_vector)
                      > 1024 * 1024 * 10)
      then FlushVectorToStream (edge_data_file st) original_edge_data_vector
      else (edge_data_file st, original_edge_data_vector) in
    {| factory :=
         set_m_edge_based_edge_list this
           (m_edge_based_edge_list this
            ++ [ {| source := edge_id edge_data1;
                    ebe_target := edge_id edge_data2;
                    ebe_edge_id :=
                      wrap32 (Z.of_nat (length (m_edge_based_edge_list this)));
                    weight := distance;
                    forward := true;
                    backward := false |} ]);
       node_based_edge_counter := node_based_edge_counter st;
       original_edges_counter := original_edges_counter st + 1;
       edge_data_file := edge_data_file;
       original_edge_data_vector := original_edge_data_vector |}.

(** The candidates of [edge_form_u] after the three passes, and the object
    with the counters that [getTurnCandidates] has incremented. *)
Definition processed_turn_candidates (this : EdgeBasedGraphFactory)
    (indeterminate : bool) (node_u : NodeID) (edge_form_u : EdgeID)
    : list TurnCandidate * EdgeBasedGraphFactory :=
  let '(turn_candidates, this) :=
    getTurnCandidates this indeterminate node_u edge_form_u in
  let turn_candidates := optimizeCandidates this edge_form_u turn_candidates in
  (suppressTurns this edge_form_u turn_candidates, this).

(** The body of the loop over the edges out of [node_u].  [stack] gives,
    for every call of [getTurnCandidates], the value its uninitialised
    local holds. *)
Definition GenerateEdgeExpandedEdges_edge (lua : lua_State)
    (stack : NodeID -> EdgeID -> bool) (node_u : NodeID)
    (st : EdgeExpansion) (edge_form_u : EdgeID) : EdgeExpansion :=
  if reversed (GetEdgeData (m_node_based_graph (factory st)) edge_form_u)
  then st
  else
    let '(turn_candidates, this) :=
      processed_turn_candidates (factory st) (stack node_u edge_form_u)
        node_u edge_form_u in
    let node_v := GetTarget (m_node_based_graph this) edge_form_u in
    foldl (GenerateEdgeExpandedEdges_turn lua edge_form_u node_v)
      {| factory := this;
         node_based_edge_counter := node_based_edge_counter st + 1;
         original_edges_counter := original_edges_counter st;
         edge_data_file := edge_data_file st;
         original_edge_data_vector := original_edge_data_vector st |}
      turn_candidates.

(** The loops over the nodes and their edges. *)
Definition GenerateEdgeExpandedEdges_nodes (lua : lua_State)
    (stack : NodeID -> EdgeID -> bool) (st : EdgeExpansion) : EdgeExpansion :=
  foldl
    (fun st node_u =>
       foldl (GenerateEdgeExpandedEdges_edge lua stack node_u) st
         (GetAdjacentEdgeRange (m_node_based_graph (factory st)) node_u))
    st
    (seqZ 0 (GetNumberOfNodes (m_node_based_graph (factory st)))).

(** Actually it also generates OriginalEdgeData and serializes them...
    [None] when the closing [numeric_cast] throws. *)
Definition GenerateEdgeExpandedEdges (this : EdgeBasedGraphFactory)
    (lua : lua_State) (stack : NodeID -> EdgeID -> bool)
    : option (EdgeBasedGraphFactory * EdgeDataFile) :=
  let st :=
    GenerateEdgeExpandedEdges_nodes lua stack
      {| factory := set_counters this 0 0 0;
         node_based_edge_counter := 0;
         original_edges_counter := 0;
         (* Writes a dummy value at the front that is updated later with the
            total length *)
         edge_data_file := {| length_prefix := 0; file_records := [] |};
         original_edge_data_vector := [] |} in
  let '(edge_data_file, _) :=
    FlushVectorToStream (edge_data_file st) (original_edge_data_vector st) in
  (* Finally jump back to the empty space at the beginning and write length
     prefix *)
  match numeric_cast_unsigned (original_edges_counter st) with
  | Some length_prefix =>
      Some (factory st,
            {| length_prefix := length_prefix;
               file_records := file_records edge_data_file |})
  | None => None
  end.

(** ** Run *)

Definition Run (this : EdgeBasedGraphFactory) (lua : lua_State)
    (stack : NodeID -> EdgeID -> bool)
    : option (EdgeBasedGraphFactory * EdgeDataFile) :=
  let this := Run_renumber this in
  let this := GenerateEdgeExpandedNodes this in
  GenerateEdgeExpandedEdges this lua stack.

End Expansion.

(** ** The accessors of the results

    Each accessor swaps a member with the vector of the caller: the caller
    receives the member, and the object is left with what the caller
    passed. *)

Definition set_m_edge_based_node_list (this : EdgeBasedGraphFactory)
    (nodes : list EdgeBasedNode) : EdgeBasedGraphFactory :=
  {| m_max_edge_id := m_max_edge_id this;
     m_edge_based_node_weights := m_edge_based_node_weights this;
     m_edge_based_node_list := nodes;
     m_edge_based_node_is_startpoint := m_edge_based_node_is_startpoint this;
     m_edge_based_edge_list := m_edge_based_edge_list this;
     m_node_info_list := m_node_info_list this;
     m_node_based_graph := m_node_based_graph this;
     m_restriction_map := m_restriction_map this;
     m_barrier_nodes := m_barrier_nodes this;
     m_traffic_lights := m_traffic_lights this;
     m_compressed_edge_container := m_compressed_edge_container this;
     speed_profile := speed_profile this;
     restricted_turns_counter := restricted_turns_counter this;
     skipped_uturns_counter := skipped_uturns_counter this;
     skipped_barrier_turns_counter := skipped_barrier_turns_counter this |}.

Definition set_m_edge_based_node_is_startpoint (this : EdgeBasedGraphFactory)
    (markers : list bool) : EdgeBasedGraphFactory :=
  {| m_max_edge_id := m_max_edge_id this;
     m_edge_based_node_weights := m_edge_based_node_weights this;
     m_edge_based_node_list := m_edge_based_node_list this;
     m_edge_based_node_is_startpoint := markers;
     m_edge_based_edge_list := m_edge_based_edge_list this;
     m_node_info_list := m_node_info_list this;
     m_node_based_graph := m_node_based_graph this;
     m_restriction_map := m_restriction_map this;
     m_barrier_nodes := m_barrier_nodes this;
     m_traffic_lights := m_traffic_lights this;
     m_compressed_edge_container := m_compressed_edge_container this;
     speed_profile := speed_profile this;
     restricted_turns_counter := restricted_turns_counter this;
     skipped_uturns_counter := skipped_uturns_counter this;
     skipped_barrier_turns_counter := skipped_barrier_turns_counter this |}.

Definition GetEdgeBasedEdges (this : EdgeBasedGraphFactory)
    (output_edge_list : list EdgeBasedEdge)
    : EdgeBasedGraphFactory * list EdgeBasedEdge :=
  (set_m_edge_based_edge_list this output_edge_list,
   m_edge_based_edge_list this).

Definition GetEdgeBasedNodes (this : EdgeBasedGraphFactory)
    (nodes : list EdgeBasedNode)
    : EdgeBasedGraphFactory * list EdgeBasedNode :=
  (set_m_edge_based_node_list this nodes, m_edge_based_node_list this).

Definition GetStartPointMarkers (this : EdgeBasedGraphFactory)
    (node_is_startpoint : list bool) : EdgeBasedGraphFactory * list bool :=
  (set_m_edge_based_node_is_startpoint this node_is_startpoint,
   m_edge_based_node_is_startpoint this).

Definition GetEdgeBasedNodeWeights (this : EdgeBasedGraphFactory)
    (output_node_weights : list EdgeWeight)
    : EdgeBasedGraphFactory * list EdgeWeight :=
  (set_m_edge_based_node_weights this output_node_weights,
   m_edge_based_node_weights this).

Definition GetHighestEdgeID (this : EdgeBasedGraphFactory) : Z :=
  m_max_edge_id this.

(** ** A reference instance of the guidance helpers

    The closed examples below need the helpers of engine/guidance.  Their
    sources are not part of this file; this instance follows what the
    specification says of them. *)

Module Reference.

Definition float_min (x y : float) : float := if (x <? y)%float then x else y.

(** Modelled from the spec: [angular_deviation(a,b) = min(|a−b|, 360−|a−b|)]
    (engine/guidance/guidance_toolkit.hpp is not part of this file). *)
Definition angularDeviation (angle from : float) : float :=
  let deviation := abs (angle - from)%float in
  float_min (360 - deviation)%float deviation.

(** Modelled from the spec: [get_turn_direction(angle)] partitions [0,360)
    into the eight modifiers by fixed thresholds, UTurn at 0/360 and the other
    seven symmetric around 180 (guidance_toolkit.hpp is not part of this
    file; the thresholds are 60, 140, 170, 190, 220 and 300 degrees). *)
Definition getTurnDirection (angle : float) : DirectionModifier.t :=
  if ((0 <? angle) && (angle <? 60))%float then DirectionModifier.SharpRight
  else if ((60 <=? angle) && (angle <? 140))%float
  then DirectionModifier.Right
  else if ((140 <=? angle) && (angle <? 170))%float
  then DirectionModifier.SlightRight
  else if ((170 <=? angle) && (angle <=? 190))%float
  then DirectionModifier.Straight
  else if ((190 <? angle) && (angle <=? 220))%float
  then DirectionModifier.SlightLeft
  else if ((220 <? angle) && (angle <=? 300))%float
  then DirectionModifier.Left
  else if ((300 <? angle) && (angle <? 360))%float
  then DirectionModifier.SharpLeft
  else DirectionModifier.UTurn.

(** Modelled from the spec: the functional road classes
    (classification_data.hpp is not part of this file), an enum of 16
    classes; the low-priority classes are the service roads and the
    low-priority roads, the ramp classes the motorway and trunk links. *)
Definition MOTORWAY_LINK : FunctionalRoadClass := 2.
Definition TRUNK_LINK : FunctionalRoadClass := 4.
Definition RESIDENTIAL : FunctionalRoadClass := 12.
Definition SERVICE : FunctionalRoadClass := 13.
Definition LOW_PRIORITY_ROAD : FunctionalRoadClass := 15.

Definition isLowPriorityRoadClass (road_class : FunctionalRoadClass) : bool :=
  bool_decide (road_class = LOW_PRIORITY_ROAD)
  || bool_decide (road_class = SERVICE).

Definition isRampClass (road_class : FunctionalRoadClass) : bool :=
  bool_decide (road_class = MOTORWAY_LINK)
  || bool_decide (road_class = TRUNK_LINK).

(** Modelled from the spec: the predicates on the tagged instruction
    (guidance_toolkit.hpp is not part of this file). *)
Definition isBasic (ty : TurnType.t) : bool :=
  bool_decide (ty = TurnType.Turn) || bool_decide (ty = TurnType.EndOfRoad).

Definition canBeSuppressed (ty : TurnType.t) : bool :=
  bool_decide (ty = TurnType.Turn).

Definition isUturn (i : TurnInstruction) : bool :=
  isBasic (type i)
  && bool_decide (direction_modifier i = DirectionModifier.UTurn).

Definition isOnRoundabout (i : TurnInstruction) : bool :=
  bool_decide (type i = TurnType.RemainRoundabout)
  || bool_decide (type i = TurnType.ExitRoundabout).

Definition entersRoundabout (i : TurnInstruction) : bool :=
  bool_decide (type i = TurnType.EnterRoundabout)
  || bool_decide (type i = TurnType.EnterRotary)
  || bool_decide (type i = TurnType.EnterRoundaboutAtExit)
  || bool_decide (type i = TurnType.EnterRotaryAtExit).

Definition isConflict (first second : TurnInstruction) : bool :=
  bool_decide (first = second).

Definition isSlightModifier (m : DirectionModifier.t) : bool :=
  bool_decide (m = DirectionModifier.Straight)
  || bool_decide (m = DirectionModifier.SlightRight)
  || bool_decide (m = DirectionModifier.SlightLeft).

Definition isSlightTurn (i : TurnInstruction) : bool :=
  isSlightModifier (direction_modifier i).

Definition isSharpTurn (i : TurnInstruction) : bool :=
  bool_decide (direction_modifier i = DirectionModifier.SharpLeft)
  || bool_decide (direction_modifier i = DirectionModifier.SharpRight).

Definition mirrorDirectionModifier (m : DirectionModifier.t)
    : DirectionModifier.t :=
  match m with
  | DirectionModifier.UTurn => DirectionModifier.UTurn
  | DirectionModifier.SharpRight => DirectionModifier.SharpLeft
  | DirectionModifier.Right => DirectionModifier.Left
  | DirectionModifier.SlightRight => DirectionModifier.SlightLeft
  | DirectionModifier.Straight => DirectionModifier.Straight
  | DirectionModifier.SlightLeft => DirectionModifier.SlightRight
  | DirectionModifier.Left => DirectionModifier.Right
  | DirectionModifier.SharpLeft => DirectionModifier.SharpRight
  end.

Definition shiftTurn (toward_right : bool) (m : DirectionModifier.t)
    : DirectionModifier.t :=
  match m, toward_right with
  | DirectionModifier.UTurn, _ => DirectionModifier.UTurn
  | DirectionModifier.SharpRight, true => DirectionModifier.SharpRight
  | DirectionModifier.SharpRight, false => DirectionModifier.Right
  | DirectionModifier.Right, true => DirectionModifier.SharpRight
  | DirectionModifier.Right, false => DirectionModifier.SlightRight
  | DirectionModifier.SlightRight, true => DirectionModifier.Right
  | DirectionModifier.SlightRight, false => DirectionModifier.Straight
  | DirectionModifier.Straight, true => DirectionModifier.SlightRight
  | DirectionModifier.Straight, false => DirectionModifier.SlightLeft
  | DirectionModifier.SlightLeft, true => DirectionModifier.Straight
  | DirectionModifier.SlightLeft, false => DirectionModifier.Left
  | DirectionModifier.Left, true => DirectionModifier.SlightLeft
  | DirectionModifier.Left, false => DirectionModifier.SharpLeft
  | DirectionModifier.SharpLeft, true => DirectionModifier.Left
  | DirectionModifier.SharpLeft, false => DirectionModifier.SharpLeft
  end.

(** Modelled from the spec: [resolve(self, neighbor, toward)]: if
    [self.modifier] can be rotated one step in [toward] direction without
    colliding with [neighbor.modifier], do so and return true; else false. *)
Definition resolve (to_resolve neighbor : TurnInstruction)
    (resolve_to_right : bool) : bool * TurnInstruction :=
  let shifted := shiftTurn resolve_to_right (direction_modifier to_resolve) in
  if bool_decide (shifted = direction_modifier neighbor)
     || bool_decide (shifted = direction_modifier to_resolve)
  then (false, to_resolve)
  else (true, set_direction_modifier to_resolve shifted).

(** Modelled from the spec: [resolveTransitive(self, neighbor, neighbor2,
    toward)]: if rotating self AND neighbor one step outward is
    non-colliding, apply both; else false. *)
Definition resolveTransitive (first second third : TurnInstruction)
    (resolve_to_right : bool)
    : bool * (TurnInstruction * TurnInstruction) :=
  let '(resolved, second') := resolve second third resolve_to_right in
  if resolved
  then (true,
        (set_direction_modifier first
           (shiftTurn resolve_to_right (direction_modifier first)),
         second'))
  else (false, (first, second)).

(** Modelled from the spec: [representative_coordinate]: if the compressed
    geometry of the edge has intermediate points, the one nearest the
    junction endpoint (first when not inverted, last when inverted);
    otherwise the opposite endpoint's coordinate. *)
Definition getRepresentativeCoordinate (from to : NodeID) (via_eid : EdgeID)
    (invert : bool) (container : CompressedEdgeContainer)
    (nodes : list QueryNode) : Coordinate :=
  let geometry := GetBucketReference container via_eid in
  let coordinate_of n := QueryNode_coordinate (nodes !!! Z.to_nat n) in
  match geometry with
  | first :: _ :: _ =>
      if invert
      then coordinate_of
             (geometry_node_id (geometry !!! (length geometry - 2)%nat))
      else coordinate_of (geometry_node_id first)
  | _ => if invert then coordinate_of from else coordinate_of to
  end.

#[global] Instance Coordinate_eq_dec : EqDecision Coordinate.
Proof. solve_decision. Defined.

(** The interior angle at [second], looked up in the table of the angles
    of the example at hand: the angle at which the road to [third] leaves,
    measured against the road from [first]; 0 when the two coincide. *)
Definition computeAngle (angles : list (Coordinate * float))
    (first second third : Coordinate) : float :=
  if bool_decide (first = third) then 0%float
  else
    match filter (fun entry => entry.1 = third) angles with
    | entry :: _ => entry.2
    | [] => 180%float
    end.

(** Modelled from the spec: the confidence of a turn lies in [0,1]. *)
Definition getTurnConfidence (angle : float) (i : TurnInstruction) : float :=
  1%float.

Definition toolkit (angles : list (Coordinate * float)) : GuidanceToolkit :=
  Build_GuidanceToolkit
    getTurnDirection angularDeviation getTurnConfidence
    isLowPriorityRoadClass isRampClass isBasic canBeSuppressed
    isUturn isOnRoundabout entersRoundabout isConflict
    isSlightTurn isSharpTurn isSlightModifier mirrorDirectionModifier
    resolve resolveTransitive
    (* TurnInstruction_of_type, NO_TURN, REMAIN_ROUNDABOUT, ENTER_ROUNDABOUT
       and EXIT_ROUNDABOUT *)
    (fun ty => {| type := ty; direction_modifier := DirectionModifier.UTurn |})
    {| type := TurnType.NoTurn; direction_modifier := DirectionModifier.UTurn |}
    (fun m => {| type := TurnType.RemainRoundabout; direction_modifier := m |})
    (fun m => {| type := TurnType.EnterRoundabout; direction_modifier := m |})
    (fun m => {| type := TurnType.ExitRoundabout; direction_modifier := m |})
    getRepresentativeCoordinate (computeAngle angles).

End Reference.

(** * Vocabulary of the properties *)

(** The definitions below belong to the statements and proofs that follow,
    not to the program. *)

(** The edges that [RenumberEdges] numbers. *)
Definition forward_edge (e : NodeBasedEdge) : Prop := reversed (data e) = false.

#[global] Instance forward_edge_dec (e : NodeBasedEdge) : Decision (forward_edge e).
Proof. unfold forward_edge. apply _. Defined.

(** The number of forward edges of a list: the rank of what follows it. *)
Definition forward_count (edges : list NodeBasedEdge) : Z :=
  Z.of_nat (length (filter forward_edge edges)).

(** What [RenumberEdges] makes of an edge array when it starts counting at
    [count]. *)
Fixpoint renumbered (count : Z) (edges : list NodeBasedEdge)
    : list NodeBasedEdge :=
  match edges with
  | [] => []
  | e :: rest =>
      if reversed (data e) then e :: renumbered count rest
      else {| target := target e; data := set_edge_id (data e) count |}
           :: renumbered (count + 1) rest
  end.

(** The members that no function after [RenumberEdges] writes. *)
Definition same_inputs (a b : EdgeBasedGraphFactory) : Prop :=
  m_node_based_graph a = m_node_based_graph b
  /\ m_node_info_list a = m_node_info_list b
  /\ m_restriction_map a = m_restriction_map b
  /\ m_barrier_nodes a = m_barrier_nodes b
  /\ m_traffic_lights a = m_traffic_lights b
  /\ m_compressed_edge_container a = m_compressed_edge_container b
  /\ speed_profile a = speed_profile b.

(** Equality up to the three skip counters. *)
Definition same_but_counters (a b : EdgeBasedGraphFactory) : Prop :=
  same_inputs a b
  /\ m_max_edge_id a = m_max_edge_id b
  /\ m_edge_based_node_weights a = m_edge_based_node_weights b
  /\ m_edge_based_node_list a = m_edge_based_node_list b
  /\ m_edge_based_node_is_startpoint a = m_edge_based_node_is_startpoint b
  /\ m_edge_based_edge_list a = m_edge_based_edge_list b.

Section Vocabulary.
Context `{toolkit : GuidanceToolkit}.

(** The valid candidates that survive the three passes for the edge
    [edge_form_u] out of [node_u], each with the edge it comes from. *)
Definition surviving_turns_of_edge (this : EdgeBasedGraphFactory)
    (stack : NodeID -> EdgeID -> bool) (node_u : NodeID)
    (edge_form_u : EdgeID) : list (EdgeID * TurnCandidate) :=
  if reversed (GetEdgeData (m_node_based_graph this) edge_form_u) then []
  else
    map (fun turn => (edge_form_u, turn))
      (filter (fun turn => valid turn = true)
         (processed_turn_candidates this (stack node_u edge_form_u)
            node_u edge_form_u).1).

(** The same for all edges out of [node_u]. *)
Definition surviving_turns_of_node (this : EdgeBasedGraphFactory)
    (stack : NodeID -> EdgeID -> bool) (node_u : NodeID)
    : list (EdgeID * TurnCandidate) :=
  flat_map (surviving_turns_of_edge this stack node_u)
    (GetAdjacentEdgeRange (m_node_based_graph this) node_u).

(** All surviving valid turn candidates of a run, in the order of the
    loops. *)
Definition surviving_turns (this : EdgeBasedGraphFactory)
    (stack : NodeID -> EdgeID -> bool) : list (EdgeID * TurnCandidate) :=
  flat_map (surviving_turns_of_node this stack)
    (seqZ 0 (GetNumberOfNodes (m_node_based_graph this))).

(** The expanded edge of the [k]-th surviving turn. *)
Definition expanded_edge (this : EdgeBasedGraphFactory) (lua : lua_State)
    (k : nat) (t : EdgeID * TurnCandidate) : EdgeBasedEdge :=
  let g := m_node_based_graph this in
  {| source := edge_id (GetEdgeData g t.1);
     ebe_target := edge_id (GetEdgeData g (eid t.2));
     ebe_edge_id := wrap32 (Z.of_nat k);
     weight := turn_distance this lua (GetEdgeData g t.1) (GetTarget g t.1) t.2;
     forward := true;
     backward := false |}.

(** The record of a surviving turn in the original-edge-data file. *)
Definition original_edge_data (this : EdgeBasedGraphFactory)
    (t : EdgeID * TurnCandidate) : OriginalEdgeData :=
  let g := m_node_based_graph this in
  {| via_node := GetPositionForID (m_compressed_edge_container this) t.1;
     oed_name_id := name_id (GetEdgeData g t.1);
     turn_instruction := instruction t.2;
     oed_travel_mode := travel_mode (GetEdgeData g t.1) |}.

(** The state of [GenerateEdgeExpandedEdges] after it has emitted the
    turns [turns], started on the object [this]. *)
Definition emitted (this : EdgeBasedGraphFactory) (lua : lua_State)
    (turns : list (EdgeID * TurnCandidate)) (st : EdgeExpansion) : Prop :=
  same_inputs (factory st) this
  /\ m_edge_based_edge_list (factory st)
     = m_edge_based_edge_list this
       ++ imap (fun k => expanded_edge this lua
                           (length (m_edge_based_edge_list this) + k))
               turns
  /\ file_records (edge_data_file st) ++ original_edge_data_vector st
     = map (original_edge_data this) turns
  /\ original_edges_counter st = Z.of_nat (length turns)
  /\ m_max_edge_id (factory st) = m_max_edge_id this
  /\ m_edge_based_node_weights (factory st) = m_edge_based_node_weights this
  /\ m_edge_based_node_list (factory st) = m_edge_based_node_list this
  /\ m_edge_based_node_is_startpoint (factory st)
     = m_edge_based_node_is_startpoint this.

(** The penalty that the profile's hook contributes to a turn of angle
    [angle]: nothing when the profile has no turn function or the call
    fails. *)
Definition hook_penalty (this : EdgeBasedGraphFactory) (lua : lua_State)
    (angle : float) : Z :=
  if has_turn_penalty_function (speed_profile this) then
    match turn_function lua (180 - angle)%float with
    | Some penalty => static_cast_int penalty
    | None => 0
    end
  else 0.

(** The value of a [double] that is no NaN and no infinity, as the fraction
    [n / 2 ^ k]. *)
Definition exact_value (x : float) : option (Z * Z) :=
  match Prim2SF x with
  | S754_zero _ => Some (0, 0)
  | S754_finite s m e =>
      let n := if s then Z.neg m else Z.pos m in
      Some (if 0 <=? e then (n * 2 ^ e, 0) else (n, - e))
  | _ => None
  end.

(** The integer next to the value of [x] in the direction of zero. *)
Definition toward_zero (x : float) : option Z :=
  match exact_value x with
  | Some (n, k) => Some (Z.quot n (2 ^ k))
  | None => None
  end.

(** The penalty of the profile's hook for a turn of angle [angle], in the
    words of the properties: the number that the hook returns for
    [180 - angle], cut to the integer next to it in the direction of zero;
    0 when the profile has no turn function or the call fails.  There is none
    where the hook returns a NaN, an infinity, or a number whose integer is
    no [int]: the conversion of the source is undefined there. *)
Definition hook_as_int (this : EdgeBasedGraphFactory) (lua : lua_State)
    (angle : float) : option Z :=
  if has_turn_penalty_function (speed_profile this) then
    match turn_function lua (180 - angle)%float with
    | Some x =>
        match toward_zero x with
        | Some p =>
            if bool_decide (- 2 ^ 31 <= p <= 2 ^ 31 - 1) then Some p else None
        | None => None
        end
    | None => Some 0
    end
  else Some 0.

(** What is added to the distance of the via edge [via] for the candidate
    [turn]. *)
Definition added_penalties (this : EdgeBasedGraphFactory) (lua : lua_State)
    (via : EdgeID) (turn : TurnCandidate) : Z :=
  (if bool_decide (GetTarget (m_node_based_graph this) via
                   ∈ m_traffic_lights this)
   then traffic_signal_penalty (speed_profile this) else 0)
  + (if isUturn (instruction turn)
     then u_turn_penalty (speed_profile this) else 0)
  + hook_penalty this lua (angle turn).

(** The object with another answer to [CheckIfTurnIsRestricted]. *)
Definition with_restriction_check (this : EdgeBasedGraphFactory)
    (check : NodeID -> NodeID -> NodeID -> bool) : EdgeBasedGraphFactory :=
  {| m_max_edge_id := m_max_edge_id this;
     m_edge_based_node_weights := m_edge_based_node_weights this;
     m_edge_based_node_list := m_edge_based_node_list this;
     m_edge_based_node_is_startpoint := m_edge_based_node_is_startpoint this;
     m_edge_based_edge_list := m_edge_based_edge_list this;
     m_node_info_list := m_node_info_list this;
     m_node_based_graph := m_node_based_graph this;
     m_restriction_map :=
       {| CheckForEmanatingIsOnlyTurn :=
            CheckForEmanatingIsOnlyTurn (m_restriction_map this);
          CheckIfTurnIsRestricted := check |};
     m_barrier_nodes := m_barrier_nodes this;
     m_traffic_lights := m_traffic_lights this;
     m_compressed_edge_container := m_compressed_edge_container this;
     speed_profile := speed_profile this;
     restricted_turns_counter := restricted_turns_counter this;
     skipped_uturns_counter := skipped_uturns_counter this;
     skipped_barrier_turns_counter := skipped_barrier_turns_counter this |}.

(** Equality of what [getTurnCandidates] reads and counts, the answers to
    [CheckIfTurnIsRestricted] apart. *)
Definition same_but_restriction_check (a b : EdgeBasedGraphFactory) : Prop :=
  m_node_based_graph a = m_node_based_graph b
  /\ m_node_info_list a = m_node_info_list b
  /\ m_barrier_nodes a = m_barrier_nodes b
  /\ m_compressed_edge_container a = m_compressed_edge_container b
  /\ CheckForEmanatingIsOnlyTurn (m_restriction_map a)
     = CheckForEmanatingIsOnlyTurn (m_restriction_map b)
  /\ restricted_turns_counter a = restricted_turns_counter b
  /\ skipped_uturns_counter a = skipped_uturns_counter b
  /\ skipped_barrier_turns_counter a = skipped_barrier_turns_counter b.

(** What matters of a candidate in the examples below. *)
Definition brief (candidates : list TurnCandidate)
    : list (EdgeID * bool * TurnInstruction) :=
  map (fun c => (eid c, valid c, instruction c)) candidates.

(** A candidate without its instruction. *)
Definition outline (c : TurnCandidate) : EdgeID * bool * float * float :=
  (eid c, valid c, angle c, confidence c).

(** A candidate comes from an edge out of the turn node, and a valid
    candidate from an edge that is not reversed. *)
Definition from_turn_node (g : NodeBasedDynamicGraph) (turn_node : NodeID)
    (c : EdgeID * bool * float * float) : Prop :=
  c.1.1.1 ∈ GetAdjacentEdgeRange g turn_node
  /\ (c.1.1.2 = true -> reversed (GetEdgeData g c.1.1.1) = false).

(** Equality of what [GenerateEdgeExpandedNodes] leaves alone. *)
Definition nodes_only (a b : EdgeBasedGraphFactory) : Prop :=
  same_inputs a b
  /\ m_max_edge_id a = m_max_edge_id b
  /\ m_edge_based_edge_list a = m_edge_based_edge_list b.

(** Every edge joins two different nodes of the graph: the loop of
    [GenerateEdgeExpandedNodes] asserts [node_u < node_v] for the edges it
    does not skip. *)
Definition edges_join_distinct_nodes (g : NodeBasedDynamicGraph) : Prop :=
  Forall
    (fun node_u =>
       Forall (fun e => 0 <= GetTarget g e < GetNumberOfNodes g
                        /\ GetTarget g e <> node_u)
         (GetAdjacentEdgeRange g node_u))
    (seqZ 0 (GetNumberOfNodes g)).

#[global] Instance edges_join_distinct_nodes_dec g :
  Decision (edges_join_distinct_nodes g).
Proof. unfold edges_join_distinct_nodes. apply _. Defined.

(** A valid candidate that enters a roundabout, and a valid one that does
    not. *)
Definition valid_roundabout_entry (c : TurnCandidate) : bool :=
  valid c && entersRoundabout (instruction c).

Definition valid_other_turn (c : TurnCandidate) : bool :=
  valid c && negb (entersRoundabout (instruction c)).

(** The loop state with the flag for roundabout entries raised. *)
Definition with_roundabout_entry (st : CandidateLoop) : CandidateLoop :=
  {| loop_this := loop_this st;
     has_non_roundabout := has_non_roundabout st;
     has_roundabout_entry := true;
     turn_candidates := turn_candidates st |}.

(** The candidates before the reclassification, and the flags had the flag
    been initialised to false. *)
Definition candidate_loop (this : EdgeBasedGraphFactory)
    (from_node : NodeID) (via_eid : EdgeID) : CandidateLoop :=
  let g := m_node_based_graph this in
  let turn_node := GetTarget g via_eid in
  foldl
    (getTurnCandidates_edge from_node via_eid turn_node
       (CheckForEmanatingIsOnlyTurn (m_restriction_map this) from_node
          turn_node)
       (bool_decide (turn_node ∈ m_barrier_nodes this)))
    {| loop_this := this; has_non_roundabout := false;
       has_roundabout_entry := false; turn_candidates := [] |}
    (GetAdjacentEdgeRange g turn_node).

End Vocabulary.

(** The node list and the start-point markers of [a] have grown by the
    same number of entries since [b], and the weight vector has kept its
    size. *)
Definition lists_in_step (a b : EdgeBasedGraphFactory) : Prop :=
  (length (m_edge_based_node_list a)
   + length (m_edge_based_node_is_startpoint b)
   = length (m_edge_based_node_list b)
     + length (m_edge_based_node_is_startpoint a))%nat
  /\ length (m_edge_based_node_weights a)
     = length (m_edge_based_node_weights b).

(** The edge of a candidate and whether the candidate is valid. *)
Definition edge_and_validity (c : TurnCandidate) : EdgeID * bool :=
  (eid c, valid c).

(** A candidate as the loop of [getTurnCandidates] has left it, or after
    the reclassification of the roundabout entries. *)
Definition as_left_or_reclassified `{toolkit : GuidanceToolkit}
    (c' c : TurnCandidate) : Prop :=
  c' = c \/ c' = reclassify_roundabout_entry c.

(** The place of a binary64 value that is no NaN in the order of
    [SFcompare]: the class of its sign, then the exponent, then the
    mantissa. *)
Definition spec_rank (f : spec_float) : option (Z * Z * Z) :=
  match f with
  | S754_nan => None
  | S754_infinity true => Some (-2, 0, 0)
  | S754_infinity false => Some (2, 0, 0)
  | S754_zero _ => Some (0, 0, 0)
  | S754_finite true m e => Some (-1, - e, - Z.pos m)
  | S754_finite false m e => Some (1, e, Z.pos m)
  end.

Definition rank_lt (p q : Z * Z * Z) : Prop :=
  p.1.1 < q.1.1
  \/ (p.1.1 = q.1.1 /\ (p.1.2 < q.1.2 \/ (p.1.2 = q.1.2 /\ p.2 < q.2))).

(** [std::is_sorted] with the comparison of the assertions of
    [optimizeCandidates] and [suppressTurns], [left.angle < right.angle]: no
    candidate has an angle smaller than the one before it. *)
Definition is_sorted_ByAngle (l : list TurnCandidate) : Prop :=
  forall i a b,
    l !! i = Some a -> l !! S i = Some b -> (angle b <? angle a)%float = false.

(** No candidate has an angle smaller than any candidate before it. *)
Fixpoint sorted_ByAngle (l : list TurnCandidate) : Prop :=
  match l with
  | [] => True
  | a :: rest =>
      Forall (fun b => (angle b <? angle a)%float = false) rest
      /\ sorted_ByAngle rest
  end.

(** What a call has added to the three skip counters of [b] to give those
    of [a]: nothing is taken away, at most [bound] restricted turns are
    counted, and at most [bound] skipped U-turns and barrier turns
    together. *)
Definition counted_at_most (bound : Z) (a b : EdgeBasedGraphFactory) : Prop :=
  0 <= restricted_turns_counter a - restricted_turns_counter b <= bound
  /\ 0 <= skipped_uturns_counter a - skipped_uturns_counter b
  /\ 0 <= skipped_barrier_turns_counter a - skipped_barrier_turns_counter b
  /\ (skipped_uturns_counter a - skipped_uturns_counter b)
     + (skipped_barrier_turns_counter a - skipped_barrier_turns_counter b)
     <= bound.

(** The weight vector of [a] is the one of [b] but for entries overwritten
    with INVALID_EDGE_WEIGHT. *)
Definition weights_marked (a b : EdgeBasedGraphFactory) : Prop :=
  length (m_edge_based_node_weights a) = length (m_edge_based_node_weights b)
  /\ forall i w,
       m_edge_based_node_weights a !! i = Some w ->
       w = INVALID_EDGE_WEIGHT \/ m_edge_based_node_weights b !! i = Some w.

(** The iteration of the [for] loop of [optimizeCandidates] for
    [turn_index] finds nothing to resolve: the instruction is skipped (not
    basic, a U-turn, or on a roundabout) or does not conflict with the one
    to its left. *)
Definition nothing_to_resolve `{toolkit : GuidanceToolkit}
    (turn_candidates : list TurnCandidate) (turn_index : nat) : bool :=
  let turn := turn_candidates !!! turn_index in
  let left :=
    turn_candidates !!! getLeft (length turn_candidates) turn_index in
  negb (isBasic (type (instruction turn)))
  || isUturn (instruction turn) || isOnRoundabout (instruction turn)
  || negb (isConflict (instruction turn) (instruction left)).

(** ** Example inputs *)

Module Examples.

Definition road (to : NodeID) (d name : Z) (is_reversed on_roundabout : bool)
    : NodeBasedEdge :=
  {| target := to;
     data := {| distance := d; edge_id := SPECIAL_NODEID; name_id := name;
                reversed := is_reversed; roundabout := on_roundabout;
                startpoint := true; travel_mode := 1;
                road_class := Reference.RESIDENTIAL |} |}.

(** A container for a graph without compressed geometry: every edge is one
    segment that ends at its target. *)
Definition uncompressed (g : NodeBasedDynamicGraph) : CompressedEdgeContainer :=
  {| HasEntryForID := fun _ => true;
     GetPositionForID := fun e => e;
     GetBucketReference := fun e =>
       [ {| geometry_node_id := GetTarget g e;
            geometry_weight := distance (GetEdgeData g e) |} ] |}.

Definition no_restrictions : RestrictionMap :=
  {| CheckForEmanatingIsOnlyTurn := fun _ _ => SPECIAL_NODEID;
     CheckIfTurnIsRestricted := fun _ _ _ => false |}.

Definition profile : SpeedProfileProperties :=
  {| traffic_signal_penalty := 2; u_turn_penalty := 20;
     has_turn_penalty_function := true |}.

Definition at_position (id x y : Z) : QueryNode :=
  {| node_id := id; node_lon := x; node_lat := y |}.

(** The state in which [Run] calls [GenerateEdgeExpandedEdges]. *)
Definition prepared (this : EdgeBasedGraphFactory) : EdgeBasedGraphFactory :=
  GenerateEdgeExpandedNodes (Run_renumber this).

(** A graph without nodes. *)
Definition empty_factory : EdgeBasedGraphFactory :=
  EdgeBasedGraphFactory_new {| adjacency := [] |}
    (uncompressed {| adjacency := [] |}) ∅ ∅ no_restrictions [] profile.

(** A plain through-road: the nodes 0, 1 and 2 on a line, two roads in both
    directions, a traffic light at node 1.  The edges are
    0: 0->1, 1: 1->0, 2: 1->2, 3: 2->1. *)
Definition through_graph : NodeBasedDynamicGraph :=
  {| adjacency :=
       [ [road 1 10 7 false false];
         [road 0 10 7 false false; road 2 20 7 false false];
         [road 1 20 7 false false] ] |}.

Definition through_nodes : list QueryNode :=
  [at_position 100 0 0; at_position 101 0 1000; at_position 102 0 2000].

Definition through_factory : EdgeBasedGraphFactory :=
  EdgeBasedGraphFactory_new through_graph (uncompressed through_graph)
    ∅ {[ 1 ]} no_restrictions through_nodes profile.

(** On a line the road ahead leaves at 180 degrees. *)
Definition through_toolkit : GuidanceToolkit := Reference.toolkit [].

(** A profile function that charges a sixtieth of the angle, and one that
    grants a bonus of five. *)
Definition charging_profile : lua_State :=
  {| turn_function := fun a => Some (a / 60)%float |}.

Definition rewarding_profile : lua_State :=
  {| turn_function := fun _ => Some (-5)%float |}.

Definition initialised : NodeID -> EdgeID -> bool := fun _ _ => false.

(** A one-way street from node 0 into the junction 1, from which the roads
    to the nodes 2 and 3 leave in both directions.  The edges are
    0: 0->1, 1: 1->0 (reversed), 2: 1->2, 3: 1->3, 4: 2->1, 5: 3->1. *)
Definition oneway_graph : NodeBasedDynamicGraph :=
  {| adjacency :=
       [ [road 1 10 7 false false];
         [road 0 10 7 true false; road 2 20 8 false false;
          road 3 30 9 false false];
         [road 1 20 8 false false];
         [road 1 30 9 false false] ] |}.

Definition oneway_nodes : list QueryNode :=
  [at_position 100 0 (-1000); at_position 101 0 0; at_position 102 1000 0;
   at_position 103 (-1000) 0].

Definition oneway_factory : EdgeBasedGraphFactory :=
  EdgeBasedGraphFactory_new oneway_graph (uncompressed oneway_graph)
    ∅ ∅ no_restrictions oneway_nodes profile.

(** A junction 1 on the rim of a roundabout, reached from node 0: the road
    to node 2 leaves to the right, and the roundabout arrives from node 3 on
    the left, one-way towards the junction.  The edges are
    0: 0->1, 1: 1->0, 2: 1->2, 3: 1->3 (roundabout, reversed), 4: 2->1,
    5: 3->1 (roundabout). *)
Definition roundabout_graph : NodeBasedDynamicGraph :=
  {| adjacency :=
       [ [road 1 10 7 false false];
         [road 0 10 7 false false; road 2 20 8 false false;
          road 3 30 9 true true];
         [road 1 20 8 false false];
         [road 1 30 9 false true] ] |}.

Definition roundabout_nodes : list QueryNode :=
  [at_position 100 0 (-1000); at_position 101 0 0; at_position 102 1000 0;
   at_position 103 (-1000) 0].

Definition roundabout_factory : EdgeBasedGraphFactory :=
  EdgeBasedGraphFactory_new roundabout_graph (uncompressed roundabout_graph)
    ∅ ∅ no_restrictions roundabout_nodes profile.

(** Seen from the road that arrives from the south, the road to the east
    leaves at 90 degrees and the road to the west at 270 degrees. *)
Definition crossing_toolkit : GuidanceToolkit :=
  Reference.toolkit
    [ ({| lon := 1000; lat := 0 |}, 90%float);
      ({| lon := -1000; lat := 0 |}, 270%float) ].

(** A one-way street from node 0 over node 1 to node 2 that changes its
    name at node 1, where it bends back in a hairpin: the road to node 2
    leaves 20 degrees off the road that arrives from node 0.  The edges are
    0: 0->1, 1: 1->0 (reversed), 2: 1->2, 3: 2->1 (reversed). *)
Definition hairpin_graph : NodeBasedDynamicGraph :=
  {| adjacency :=
       [ [road 1 10 7 false false];
         [road 0 10 7 true false; road 2 20 8 false false];
         [road 1 20 8 true false] ] |}.

Definition hairpin_nodes : list QueryNode :=
  [at_position 100 0 0; at_position 101 0 1000; at_position 102 342 60].

Definition hairpin_factory : EdgeBasedGraphFactory :=
  EdgeBasedGraphFactory_new hairpin_graph (uncompressed hairpin_graph)
    ∅ ∅ no_restrictions hairpin_nodes profile.

Definition hairpin_toolkit : GuidanceToolkit :=
  Reference.toolkit [ ({| lon := 342; lat := 60 |}, 20%float) ].

(** The same one-way street, with two more roads that leave node 1: the
    roads to the nodes 2, 3 and 4 leave at 20, 150 and 260 degrees.  The edges
    are 0: 0->1, 1: 1->0 (reversed), 2: 1->2, 3: 1->3, 4: 1->4, 5: 2->1,
    6: 3->1, 7: 4->1. *)
Definition fan_graph : NodeBasedDynamicGraph :=
  {| adjacency :=
       [ [road 1 10 7 false false];
         [road 0 10 7 true false; road 2 20 8 false false;
          road 3 30 9 false false; road 4 40 10 false false];
         [road 1 20 8 false false];
         [road 1 30 9 false false];
         [road 1 40 10 false false] ] |}.

Definition fan_nodes : list QueryNode :=
  [at_position 100 0 0; at_position 101 0 1000; at_position 102 342 60;
   at_position 103 500 1866; at_position 104 (-985) 1174].

Definition fan_factory : EdgeBasedGraphFactory :=
  EdgeBasedGraphFactory_new fan_graph (uncompressed fan_graph)
    ∅ ∅ no_restrictions fan_nodes profile.

Definition fan_toolkit : GuidanceToolkit :=
  Reference.toolkit
    [ ({| lon := 342; lat := 60 |}, 20%float);
      ({| lon := 500; lat := 1866 |}, 150%float);
      ({| lon := -985; lat := 1174 |}, 260%float) ].

End Examples.

(** ** Further example inputs *)

Module Junctions.

(** The through-road with a barrier at node 1. *)
Definition barrier_factory : EdgeBasedGraphFactory :=
  EdgeBasedGraphFactory_new Examples.through_graph
    (Examples.uncompressed Examples.through_graph)
    {[ 1 ]} ∅ Examples.no_restrictions Examples.through_nodes
    Examples.profile.

(** The through-road with an only_-restriction: from node 0 over node 1 the
    only permitted continuation is node 2. *)
Definition only_turn_map : RestrictionMap :=
  {| CheckForEmanatingIsOnlyTurn :=
       fun from via =>
         if bool_decide (from = 0) && bool_decide (via = 1) then 2
         else SPECIAL_NODEID;
     CheckIfTurnIsRestricted := fun _ _ _ => false |}.

Definition only_turn_factory : EdgeBasedGraphFactory :=
  EdgeBasedGraphFactory_new Examples.through_graph
    (Examples.uncompressed Examples.through_graph)
    ∅ ∅ only_turn_map Examples.through_nodes Examples.profile.

(** A road between the nodes 0 and 1 that ends at the traffic light of
    node 1.  The edges are 0: 0->1 and 1: 1->0; whoever arrives at an end can
    only turn round. *)
Definition dead_end_graph : NodeBasedDynamicGraph :=
  {| adjacency :=
       [ [Examples.road 1 10 7 false false];
         [Examples.road 0 10 7 false false] ] |}.

Definition dead_end_nodes : list QueryNode :=
  [Examples.at_position 100 0 0; Examples.at_position 101 0 1000].

Definition dead_end_factory : EdgeBasedGraphFactory :=
  EdgeBasedGraphFactory_new dead_end_graph
    (Examples.uncompressed dead_end_graph)
    ∅ {[ 1 ]} Examples.no_restrictions dead_end_nodes Examples.profile.

(** A profile function that refunds twenty for every turn. *)
Definition refunding_profile : lua_State :=
  {| turn_function := fun _ => Some (-20)%float |}.

End Junctions.

(** * Properties *)

(** ** Arithmetic of the 32-bit wrap-around *)

Lemma wrap32_small (x : Z) : 0 <= x < 2 ^ 32 -> wrap32 x = x.
Proof. intros Hx. unfold wrap32. apply Z.mod_small. exact Hx. Qed.

Lemma wrap32_range (x : Z) : 0 <= wrap32 x < 2 ^ 32.
Proof. unfold wrap32. apply Z.mod_pos_bound. lia. Qed.

Lemma wrap32_add_l (x y : Z) : wrap32 (wrap32 x + y) = wrap32 (x + y).
Proof. unfold wrap32. apply Zplus_mod_idemp_l. Qed.

(** ** The renumbering of the forward edges *)

Lemma forward_count_nonneg edges : 0 <= forward_count edges.
Proof. unfold forward_count. lia. Qed.

Lemma forward_count_cons e edges :
  forward_count (e :: edges)
  = (if reversed (data e) then 0 else 1) + forward_count edges.
Proof.
  unfold forward_count. rewrite filter_cons.
  destruct (decide (forward_edge e)) as [Hf|Hf]; unfold forward_edge in Hf.
  - rewrite Hf. simpl length. lia.
  - destruct (reversed (data e)); [lia|done].
Qed.

Lemma forward_count_app l1 l2 :
  forward_count (l1 ++ l2) = forward_count l1 + forward_count l2.
Proof. unfold forward_count. rewrite filter_app, length_app. lia. Qed.

Lemma renumbered_app count l1 l2 :
  renumbered count (l1 ++ l2)
  = renumbered count l1 ++ renumbered (count + forward_count l1) l2.
Proof.
  revert count. induction l1 as [|e l1 IH]; intros count; simpl.
  - unfold forward_count. simpl. f_equal. lia.
  - rewrite forward_count_cons. destruct (reversed (data e)); simpl.
    + rewrite IH. do 2 f_equal.
    + rewrite IH. do 3 f_equal. lia.
Qed.

Lemma renumbered_length count edges :
  length (renumbered count edges) = length edges.
Proof.
  revert count. induction edges as [|e edges IH]; intros count; simpl; [done|].
  destruct (reversed (data e)); simpl; by rewrite IH.
Qed.

Lemma RenumberEdges_node_spec penalty count weights edges :
  0 <= count -> count + forward_count edges < 2 ^ 32 ->
  RenumberEdges_node penalty count weights edges
  = (count + forward_count edges,
     weights ++ map (fun e => distance (data e) + penalty)
                    (filter forward_edge edges),
     renumbered count edges).
Proof.
  revert count weights. induction edges as [|e edges IH]; intros count weights H0 Hlt.
  - simpl. unfold forward_count. simpl. rewrite app_nil_r. do 2 f_equal. lia.
  - rewrite forward_count_cons in Hlt.
    pose proof (forward_count_nonneg edges) as Hn.
    simpl. unfold RenumberEdges_edge. rewrite forward_count_cons.
    rewrite filter_cons.
    destruct (decide (forward_edge e)) as [Hf|Hf]; unfold forward_edge in Hf;
      destruct (reversed (data e)) eqn:Hr; try done.
    + rewrite wrap32_small by lia.
      rewrite IH by lia. simpl. rewrite <- app_assoc. simpl.
      do 2 f_equal. lia.
    + rewrite IH by lia. do 2 f_equal.
Qed.

Lemma RenumberEdges_nodes_spec penalty count weights nodes :
  0 <= count -> count + forward_count (concat nodes) < 2 ^ 32 ->
  exists nodes',
    RenumberEdges_nodes penalty count weights nodes
    = (count + forward_count (concat nodes),
       weights ++ map (fun e => distance (data e) + penalty)
                      (filter forward_edge (concat nodes)),
       nodes')
    /\ concat nodes' = renumbered count (concat nodes)
    /\ map length nodes' = map length nodes.
Proof.
  revert count weights.
  induction nodes as [|edges nodes IH]; intros count weights H0 Hlt.
  - exists []. simpl. unfold forward_count. simpl. rewrite app_nil_r.
    split; [|done]. do 2 f_equal. lia.
  - simpl in Hlt. rewrite forward_count_app in Hlt.
    pose proof (forward_count_nonneg edges) as Hn1.
    pose proof (forward_count_nonneg (concat nodes)) as Hn2.
    simpl. rewrite RenumberEdges_node_spec by lia.
    destruct (IH (count + forward_count edges)
                (weights ++ map (fun e => distance (data e) + penalty)
                                (filter forward_edge edges)))
      as (nodes' & Heq & Hcat & Hlen); [lia|lia|].
    rewrite Heq. exists (renumbered count edges :: nodes').
    split; [|split].
    + rewrite forward_count_app, filter_app, map_app, <- app_assoc.
      do 2 f_equal. lia.
    + simpl. rewrite Hcat, renumbered_app. done.
    + simpl. rewrite renumbered_length, Hlen. done.
Qed.

Lemma renumbered_forward_ids count edges :
  map (fun e => edge_id (data e)) (filter forward_edge (renumbered count edges))
  = seqZ count (forward_count edges).
Proof.
  revert count. induction edges as [|e edges IH]; intros count.
  - reflexivity.
  - rewrite forward_count_cons. simpl.
    pose proof (forward_count_nonneg edges) as Hn.
    destruct (reversed (data e)) eqn:Hr.
    + rewrite filter_cons_False by (unfold forward_edge; rewrite Hr; done).
      rewrite IH. f_equal.
    + rewrite filter_cons_True by (unfold forward_edge; simpl; exact Hr).
      simpl. rewrite IH.
      rewrite (seqZ_cons count) by lia. f_equal. f_equal; lia.
Qed.

Lemma renumbered_shape count edges :
  map target (renumbered count edges) = map target edges
  /\ map (fun e => reversed (data e)) (renumbered count edges)
     = map (fun e => reversed (data e)) edges
  /\ map (fun e => distance (data e)) (renumbered count edges)
     = map (fun e => distance (data e)) edges.
Proof.
  revert count. induction edges as [|e edges IH]; intros count; [done|].
  simpl. destruct (IH count) as (H1 & H2 & H3).
  destruct (IH (count + 1)) as (H1' & H2' & H3').
  destruct (reversed (data e)) eqn:Hr; simpl; rewrite ?Hr;
    repeat split; congruence.
Qed.

(** The edge at position [i] after the renumbering: a reversed edge is
    untouched, a forward edge has the number of forward edges before it as
    its id. *)
Lemma renumbered_lookup count edges i e :
  edges !! i = Some e ->
  renumbered count edges !! i
  = Some (if reversed (data e) then e
          else {| target := target e;
                  data := set_edge_id (data e)
                            (count + forward_count (take i edges)) |}).
Proof.
  revert count i. induction edges as [|e0 edges IH]; intros count i Hi; [done|].
  destruct i as [|i]; simpl in *.
  - injection Hi as ->. unfold forward_count. simpl.
    destruct (reversed (data e)); simpl; [done|].
    do 3 f_equal. lia.
  - rewrite forward_count_cons.
    destruct (reversed (data e0)) eqn:Hr0; simpl.
    + rewrite (IH count i Hi). destruct (reversed (data e)); [done|].
      do 3 f_equal.
    + rewrite (IH (count + 1) i Hi). destruct (reversed (data e)); [done|].
      do 3 f_equal. lia.
Qed.

Lemma renumbered_weight penalty count edges e' :
  e' ∈ renumbered count edges -> forward_edge e' ->
  count <= edge_id (data e') < count + forward_count edges
  /\ map (fun e => distance (data e) + penalty) (filter forward_edge edges)
       !! Z.to_nat (edge_id (data e') - count)
     = Some (distance (data e') + penalty).
Proof.
  revert count. induction edges as [|e edges IH]; intros count Hin Hf.
  - simpl in Hin. by apply elem_of_nil in Hin.
  - rewrite forward_count_cons.
    pose proof (forward_count_nonneg edges) as Hn.
    simpl in Hin. destruct (reversed (data e)) eqn:Hr.
    + rewrite filter_cons_False by (unfold forward_edge; rewrite Hr; done).
      apply elem_of_cons in Hin as [->|Hin].
      * unfold forward_edge in Hf. congruence.
      * destruct (IH count Hin Hf) as [Hrange Hlook]. split; [lia|done].
    + rewrite filter_cons_True by (unfold forward_edge; exact Hr).
      apply elem_of_cons in Hin as [->|Hin].
      * simpl. split; [lia|]. replace (count - count) with 0 by lia.
        reflexivity.
      * destruct (IH (count + 1) Hin Hf) as [Hrange Hlook]. split; [lia|].
        replace (Z.to_nat (edge_id (data e') - count))
          with (S (Z.to_nat (edge_id (data e') - (count + 1)))) by lia.
        simpl. exact Hlook.
Qed.

(** [RenumberEdges] on a fresh factory, in closed form. *)
Lemma RenumberEdges_spec (this : EdgeBasedGraphFactory) :
  let edges := edge_array (m_node_based_graph this) in
  forward_count edges < 2 ^ 32 ->
  exists nodes',
    RenumberEdges this
    = (set_m_node_based_graph
         (set_m_edge_based_node_weights this
            (m_edge_based_node_weights this
             ++ map (fun e => distance (data e)
                              + u_turn_penalty (speed_profile this))
                    (filter forward_edge edges)))
         {| adjacency := nodes' |},
       forward_count edges)
    /\ concat nodes' = renumbered 0 edges
    /\ map length nodes' = map length (adjacency (m_node_based_graph this)).
Proof.
  intros edges Hlt. unfold RenumberEdges.
  destruct (RenumberEdges_nodes_spec (u_turn_penalty (speed_profile this)) 0
              (m_edge_based_node_weights this)
              (adjacency (m_node_based_graph this)))
    as (nodes' & Heq & Hcat & Hlen); [lia| |].
  { fold (edge_array (m_node_based_graph this)). fold edges. lia. }
  exists nodes'. rewrite Heq. split; [|split]; try done.
Qed.

Lemma forward_count_le_length edges :
  forward_count edges <= Z.of_nat (length edges).
Proof.
  unfold forward_count. pose proof (length_filter forward_edge edges). lia.
Qed.

(** [Run_renumber] on a fresh factory, in closed form. *)
Lemma Run_renumber_new g container barriers lights restrictions nodes profile :
  GetNumberOfEdges g < 2 ^ 32 ->
  exists nodes',
    Run_renumber
      (EdgeBasedGraphFactory_new g container barriers lights restrictions
         nodes profile)
    = set_m_max_edge_id
        (set_m_node_based_graph
           (set_m_edge_based_node_weights
              (EdgeBasedGraphFactory_new g container barriers lights
                 restrictions nodes profile)
              (map (fun e => distance (data e) + u_turn_penalty profile)
                   (filter forward_edge (edge_array g))))
           {| adjacency := nodes' |})
        (wrap32 (forward_count (edge_array g) - 1))
    /\ concat nodes' = renumbered 0 (edge_array g)
    /\ map length nodes' = map length (adjacency g).
Proof.
  intros Hlt. unfold GetNumberOfEdges in Hlt.
  pose proof (forward_count_le_length (edge_array g)) as Hle.
  destruct (RenumberEdges_spec
              (EdgeBasedGraphFactory_new g container barriers lights
                 restrictions nodes profile))
    as (nodes' & Heq & Hcat & Hlen); [simpl; lia|].
  exists nodes'. unfold Run_renumber. rewrite Heq. simpl in *. done.
Qed.

(** C3 (as amended).  On a graph with at least one edge that is not
    reversed, after [m_max_edge_id = RenumberEdges() - 1] the ids of the
    edges that are not reversed, read in the order of the nodes, are
    0, 1, ..., m_max_edge_id (so each edge has an id of its own and the ids
    fill the range), the weight vector has m_max_edge_id + 1 entries, and
    the entry at the id of an edge is its distance plus the U-turn penalty.
    The renumbering leaves the adjacency, the targets, the reversed flags and
    the distances as they were. *)
Theorem C3_renumbered_ids_fill_the_range
    g container barriers lights restrictions nodes profile :
  let this :=
    Run_renumber
      (EdgeBasedGraphFactory_new g container barriers lights restrictions
         nodes profile) in
  let edges := edge_array (m_node_based_graph this) in
  GetNumberOfEdges g < 2 ^ 32 ->
  0 < forward_count (edge_array g) ->
  map (fun e => edge_id (data e)) (filter forward_edge edges)
  = seqZ 0 (m_max_edge_id this + 1)
  /\ NoDup (map (fun e => edge_id (data e)) (filter forward_edge edges))
  /\ Z.of_nat (length (m_edge_based_node_weights this))
     = m_max_edge_id this + 1
  /\ (forall e, e ∈ edges -> forward_edge e ->
        0 <= edge_id (data e) <= m_max_edge_id this
        /\ m_edge_based_node_weights this !! Z.to_nat (edge_id (data e))
           = Some (distance (data e) + u_turn_penalty profile))
  /\ map length (adjacency (m_node_based_graph this))
     = map length (adjacency g)
  /\ map target edges = map target (edge_array g)
  /\ map (fun e => reversed (data e)) edges
     = map (fun e => reversed (data e)) (edge_array g)
  /\ map (fun e => distance (data e)) edges
     = map (fun e => distance (data e)) (edge_array g).
Proof.
  intros this edges Hlt Hpos.
  destruct (Run_renumber_new g container barriers lights restrictions nodes
              profile Hlt) as (nodes' & Heq & Hcat & Hlen).
  pose proof (forward_count_le_length (edge_array g)) as Hle.
  unfold GetNumberOfEdges in Hlt.
  assert (Hmax : m_max_edge_id this = forward_count (edge_array g) - 1).
  { subst this. rewrite Heq. simpl. apply wrap32_small. lia. }
  assert (Hedges : edges = renumbered 0 (edge_array g)).
  { subst edges this. rewrite Heq. simpl. unfold edge_array. simpl. done. }
  assert (Hweights : m_edge_based_node_weights this
                     = map (fun e => distance (data e) + u_turn_penalty profile)
                           (filter forward_edge (edge_array g))).
  { subst this. rewrite Heq. reflexivity. }
  assert (Hids : map (fun e => edge_id (data e)) (filter forward_edge edges)
                 = seqZ 0 (m_max_edge_id this + 1)).
  { rewrite Hedges, renumbered_forward_ids, Hmax. f_equal. lia. }
  destruct (renumbered_shape 0 (edge_array g)) as (Ht & Hr & Hd).
  repeat split.
  - exact Hids.
  - rewrite Hids. apply NoDup_seqZ.
  - rewrite Hweights, length_map, Hmax. unfold forward_count. lia.
  - rewrite Hedges in H.
    destruct (renumbered_weight (u_turn_penalty profile) 0 _ _ H H0). lia.
  - rewrite Hedges in H.
    destruct (renumbered_weight (u_turn_penalty profile) 0 _ _ H H0). lia.
  - rewrite Hedges in H.
    destruct (renumbered_weight (u_turn_penalty profile) 0 _ _ H H0)
      as [_ Hlook].
    rewrite Hweights. rewrite Z.sub_0_r in Hlook. exact Hlook.
  - subst this. rewrite Heq. simpl. exact Hlen.
  - rewrite Hedges. exact Ht.
  - rewrite Hedges. exact Hr.
  - rewrite Hedges. exact Hd.
Qed.

(** C3 at the through-road: four edges, none reversed. *)
Lemma C3_renumbered_ids_fill_the_range_witness :
  let this := Run_renumber Examples.through_factory in
  map (fun e => edge_id (data e))
      (filter forward_edge (edge_array (m_node_based_graph this)))
  = seqZ 0 (m_max_edge_id this + 1)
  /\ Z.of_nat (length (m_edge_based_node_weights this))
     = m_max_edge_id this + 1.
Proof.
  pose proof (C3_renumbered_ids_fill_the_range Examples.through_graph
                (Examples.uncompressed Examples.through_graph) ∅ {[ 1 ]}
                Examples.no_restrictions Examples.through_nodes
                Examples.profile) as H.
  destruct H as (H1 & _ & H2 & _).
  - vm_compute. reflexivity.
  - vm_compute. reflexivity.
  - split; [exact H1 | exact H2].
Defined.

(** C3 as stated fails on a graph without edges: no id is assigned and the
    weight vector is empty, but [m_max_edge_id] is [0u - 1], so the range
    [0, m_max_edge_id] holds 2^32 ids, none of which an edge has. *)
Lemma C3_counterexample_graph_without_edges :
  let this := Run_renumber Examples.empty_factory in
  m_max_edge_id this = 4294967295
  /\ m_edge_based_node_weights this = []
  /\ ~ (forall id, 0 <= id <= m_max_edge_id this ->
          exists e, e ∈ edge_array (m_node_based_graph this)
                    /\ forward_edge e /\ edge_id (data e) = id).
Proof.
  split; [reflexivity|]. split; [reflexivity|].
  intros H. destruct (H 0) as (e & Hin & _).
  - split; [lia|]. vm_compute. discriminate.
  - vm_compute in Hin. by apply elem_of_nil in Hin.
Qed.

(** ** The expanded nodes *)

(** The loop over the geometry appends one node and one start-point flag per
    segment and writes nothing else. *)
Lemma InsertEdgeBasedNode_segments_frame this forward_data reverse_data
    position_1 position_2 geometry i source_id :
  let this' :=
    InsertEdgeBasedNode_segments this forward_data reverse_data
      position_1 position_2 geometry i source_id in
  m_edge_based_node_weights this' = m_edge_based_node_weights this
  /\ m_node_based_graph this' = m_node_based_graph this
  /\ m_max_edge_id this' = m_max_edge_id this
  /\ m_edge_based_edge_list this' = m_edge_based_edge_list this
  /\ length (m_edge_based_node_list this')
     = (length (m_edge_based_node_list this) + length geometry)%nat
  /\ length (m_edge_based_node_is_startpoint this')
     = (length (m_edge_based_node_is_startpoint this) + length geometry)%nat.
Proof.
  revert this i source_id.
  induction geometry as [|segment rest IH]; intros this i source_id; simpl.
  - repeat split; lia.
  - specialize (IH (push_edge_based_node this
      {| forward_edge_based_node_id := edge_id forward_data;
         reverse_edge_based_node_id := edge_id reverse_data;
         u := source_id;
         v := geometry_node_id segment;
         ebn_name_id := name_id forward_data;
         forward_packed_geometry_id := position_1;
         reverse_packed_geometry_id := position_2;
         is_tiny_component := false;
         component_id := INVALID_COMPONENTID;
         fwd_segment_position := i;
         forward_travel_mode := travel_mode forward_data;
         backward_travel_mode := travel_mode reverse_data |}
      (startpoint forward_data || startpoint reverse_data))
      (i + 1) (geometry_node_id segment)).
    simpl in IH. destruct IH as (H1 & H2 & H3 & H4 & H5 & H6).
    rewrite H1, H2, H3, H4, H5, H6. rewrite !length_app. simpl.
    repeat split; lia.
Qed.

(** What [InsertEdgeBasedNode] does to the weight vector and how many nodes
    it emits, by the routability of the two sides. *)
Lemma InsertEdgeBasedNode_weights this node_u node_v :
  let g := m_node_based_graph this in
  let forward_id := edge_id (GetEdgeData g (FindEdge g node_u node_v)) in
  let reverse_id := edge_id (GetEdgeData g (FindEdge g node_v node_u)) in
  let this' := InsertEdgeBasedNode this node_u node_v in
  (forward_id = SPECIAL_NODEID -> reverse_id = SPECIAL_NODEID -> this' = this)
  /\ (forward_id <> SPECIAL_NODEID -> reverse_id = SPECIAL_NODEID ->
        m_edge_based_node_weights this'
        = <[Z.to_nat forward_id := INVALID_EDGE_WEIGHT]>
            (m_edge_based_node_weights this))
  /\ (reverse_id <> SPECIAL_NODEID ->
        m_edge_based_node_weights this' = m_edge_based_node_weights this)
  /\ (forward_id <> SPECIAL_NODEID \/ reverse_id <> SPECIAL_NODEID ->
        length (m_edge_based_node_list this')
        = (length (m_edge_based_node_list this)
           + length (GetBucketReference (m_compressed_edge_container this)
                       (FindEdge g node_u node_v)))%nat).
Proof.
  intros g forward_id reverse_id this'. subst this'.
  unfold InsertEdgeBasedNode. fold g. fold forward_id. fold reverse_id.
  repeat split.
  - intros -> ->. rewrite !bool_decide_eq_true_2 by done. done.
  - intros Hf Hr. rewrite (bool_decide_eq_false_2 _ Hf). simpl.
    rewrite (bool_decide_eq_true_2 _ Hf), (bool_decide_eq_true_2 _ Hr). simpl.
    match goal with
    | |- context [InsertEdgeBasedNode_segments ?t ?f ?r ?p1 ?p2 ?geo ?i ?s] =>
        destruct (InsertEdgeBasedNode_segments_frame t f r p1 p2 geo i s)
          as (H1 & _)
    end.
    rewrite H1. reflexivity.
  - intros Hr. rewrite (bool_decide_eq_false_2 _ Hr), !andb_false_r.
    match goal with
    | |- context [InsertEdgeBasedNode_segments ?t ?f ?r ?p1 ?p2 ?geo ?i ?s] =>
        destruct (InsertEdgeBasedNode_segments_frame t f r p1 p2 geo i s)
          as (H1 & _)
    end.
    rewrite H1. reflexivity.
  - intros Hor.
    assert (Hnot : bool_decide (forward_id = SPECIAL_NODEID)
                   && bool_decide (reverse_id = SPECIAL_NODEID) = false).
    { destruct Hor as [H|H]; rewrite (bool_decide_eq_false_2 _ H);
        [done | by rewrite andb_false_r]. }
    rewrite Hnot.
    match goal with
    | |- context [InsertEdgeBasedNode_segments ?t ?f ?r ?p1 ?p2 ?geo ?i ?s] =>
        destruct (InsertEdgeBasedNode_segments_frame t f r p1 p2 geo i s)
          as (_ & _ & _ & _ & H5 & _)
    end.
    rewrite H5.
    destruct (bool_decide (forward_id ≠ SPECIAL_NODEID)
              && bool_decide (reverse_id = SPECIAL_NODEID)); reflexivity.
Qed.

(** C8 (as amended).  In the loop of [GenerateEdgeExpandedNodes], for the
    edge [e1] from [node_u] to a node [node_v] that is not smaller, with
    [e2] the edge back: when both sides are unroutable (their edge_id is
    SPECIAL) the pair is skipped and the object is left as it was; when
    exactly one side is unroutable, the routable side is made the forward
    side and the slot of the weight vector at the id of the routable side
    is set to INVALID_EDGE_WEIGHT (the unroutable side has no id and no
    slot), and one node per segment of the geometry of the routable side is
    emitted; when both sides are routable the weight vector is left as it
    was. *)
Theorem C8_weight_slot_of_the_routable_side this node_u e1 :
  let g := m_node_based_graph this in
  let node_v := GetTarget g e1 in
  let e2 := FindEdge g node_v node_u in
  let id1 := edge_id (GetEdgeData g e1) in
  let id2 := edge_id (GetEdgeData g e2) in
  let this' := GenerateEdgeExpandedNodes_edge node_u this e1 in
  let geometry := GetBucketReference (m_compressed_edge_container this) in
  node_u <= node_v ->
  FindEdge g node_u node_v = e1 ->
  (id1 = SPECIAL_NODEID -> id2 = SPECIAL_NODEID -> this' = this)
  /\ (id1 <> SPECIAL_NODEID -> id2 = SPECIAL_NODEID ->
        m_edge_based_node_weights this'
        = <[Z.to_nat id1 := INVALID_EDGE_WEIGHT]>
            (m_edge_based_node_weights this)
        /\ length (m_edge_based_node_list this')
           = (length (m_edge_based_node_list this)
              + length (geometry e1))%nat)
  /\ (id1 = SPECIAL_NODEID -> id2 <> SPECIAL_NODEID ->
        m_edge_based_node_weights this'
        = <[Z.to_nat id2 := INVALID_EDGE_WEIGHT]>
            (m_edge_based_node_weights this)
        /\ length (m_edge_based_node_list this')
           = (length (m_edge_based_node_list this)
              + length (geometry e2))%nat)
  /\ (id1 <> SPECIAL_NODEID -> id2 <> SPECIAL_NODEID ->
        m_edge_based_node_weights this' = m_edge_based_node_weights this).
Proof.
  intros g node_v e2 id1 id2 this' geometry Hle Hfind.
  subst this'. unfold GenerateEdgeExpandedNodes_edge.
  fold g. fold node_v. fold id1.
  rewrite bool_decide_eq_false_2 by lia.
  destruct (InsertEdgeBasedNode_weights this node_u node_v)
    as (Hskip & Hone & Hnone & Hlen).
  destruct (InsertEdgeBasedNode_weights this node_v node_u)
    as (Hskip' & Hone' & Hnone' & Hlen').
  fold g in Hskip, Hone, Hnone, Hlen, Hskip', Hone', Hnone', Hlen'.
  rewrite ?Hfind in Hskip; rewrite ?Hfind in Hone; rewrite ?Hfind in Hnone;
    rewrite ?Hfind in Hlen; rewrite ?Hfind in Hskip';
    rewrite ?Hfind in Hone'; rewrite ?Hfind in Hnone';
    rewrite ?Hfind in Hlen'.
  fold e2 in Hskip, Hone, Hnone, Hlen, Hskip', Hone', Hnone', Hlen'.
  fold id1 id2 in Hskip, Hone, Hnone, Hlen, Hskip', Hone', Hnone', Hlen'.
  split; [|split; [|split]].
  - intros H1 H2. rewrite (bool_decide_eq_true_2 _ H1). auto.
  - intros H1 H2. rewrite (bool_decide_eq_false_2 _ H1). unfold geometry.
    split; auto.
  - intros H1 H2. rewrite (bool_decide_eq_true_2 _ H1). unfold geometry.
    split; auto.
  - intros H1 H2. rewrite (bool_decide_eq_false_2 _ H1). auto.
Qed.

(** C8 at the one-way street of the junction example: the edge 0 from node
    0 to node 1 is routable, the edge 1 back is not. *)
Lemma C8_weight_slot_of_the_routable_side_witness :
  let this := Run_renumber Examples.oneway_factory in
  m_edge_based_node_weights (GenerateEdgeExpandedNodes_edge 0 this 0)
  = <[0%nat := INVALID_EDGE_WEIGHT]> (m_edge_based_node_weights this).
Proof.
  intros this.
  destruct (C8_weight_slot_of_the_routable_side this 0 0)
    as (_ & Hone & _).
  - vm_compute. discriminate.
  - vm_compute. reflexivity.
  - destruct Hone as [Hw _].
    + vm_compute. discriminate.
    + vm_compute. reflexivity.
    + exact Hw.
Defined.

(** C8 as stated fails at a one-way street: after the expanded nodes are
    generated for the junction example, the side 1->0 of the first road is
    the unroutable one; its edge_id is SPECIAL, which is no position of the
    weight vector, and the slot that holds INVALID_EDGE_WEIGHT is the one of
    the routable side 0->1. *)
Lemma C8_counterexample_one_way_street :
  let this := Examples.prepared Examples.oneway_factory in
  let g := m_node_based_graph this in
  edge_id (GetEdgeData g 0) = 0
  /\ edge_id (GetEdgeData g 1) = SPECIAL_NODEID
  /\ m_edge_based_node_weights this
     = [INVALID_EDGE_WEIGHT; 40; 50; 40; 50]
  /\ m_edge_based_node_weights this !! Z.to_nat (edge_id (GetEdgeData g 1))
     <> Some INVALID_EDGE_WEIGHT.
Proof.
  intros this g.
  assert (H1 : edge_id (GetEdgeData g 1) = SPECIAL_NODEID)
    by (vm_compute; reflexivity).
  assert (Hw : m_edge_based_node_weights this
               = [INVALID_EDGE_WEIGHT; 40; 50; 40; 50])
    by (vm_compute; reflexivity).
  split; [vm_compute; reflexivity|]. split; [exact H1|]. split; [exact Hw|].
  rewrite H1, Hw. rewrite lookup_ge_None_2; [discriminate|].
  simpl length. unfold SPECIAL_NODEID. lia.
Qed.

(** ** What the turn analysis reads and what it writes *)

Lemma same_inputs_refl a : same_inputs a a.
Proof. by repeat split. Qed.

Lemma same_inputs_sym a b : same_inputs a b -> same_inputs b a.
Proof. unfold same_inputs. intuition congruence. Qed.

Lemma same_inputs_trans a b c :
  same_inputs a b -> same_inputs b c -> same_inputs a c.
Proof. unfold same_inputs. intuition congruence. Qed.

Lemma same_but_counters_refl a : same_but_counters a a.
Proof. by repeat split. Qed.

Lemma same_but_counters_trans a b c :
  same_but_counters a b -> same_but_counters b c -> same_but_counters a c.
Proof. unfold same_but_counters, same_inputs. intuition congruence. Qed.

Lemma same_but_counters_set_counters a r k b :
  same_but_counters (set_counters a r k b) a.
Proof. by repeat split. Qed.

Lemma same_but_counters_inputs a b : same_but_counters a b -> same_inputs a b.
Proof. by intros [H _]. Qed.

Section TurnAnalysis.
Context `{toolkit : GuidanceToolkit}.

Lemma turn_validity_writes_counters this from_node turn_node only barrier onto :
  same_but_counters
    (turn_validity this from_node turn_node only barrier onto).2 this.
Proof.
  unfold turn_validity, check_only_restriction, check_barrier_and_uturn,
    check_turn_restricted, increment_restricted_turns_counter,
    increment_skipped_uturns_counter, increment_skipped_barrier_turns_counter.
  repeat (case_match; simplify_eq/=);
    repeat (first [apply same_but_counters_refl
                  | eapply same_but_counters_trans;
                    [apply same_but_counters_set_counters|] ]).
Qed.

Lemma turn_validity_reads_inputs a b from_node turn_node only barrier onto :
  same_inputs a b ->
  (turn_validity a from_node turn_node only barrier onto).1
  = (turn_validity b from_node turn_node only barrier onto).1.
Proof.
  intros (Hg & _ & Hr & _).
  unfold turn_validity, check_only_restriction, check_barrier_and_uturn,
    check_turn_restricted, increment_restricted_turns_counter,
    increment_skipped_uturns_counter, increment_skipped_barrier_turns_counter.
  rewrite Hg.
  repeat (case_match; simplify_eq/=); rewrite ?Hg, ?Hr in *;
    simpl in *; congruence.
Qed.

End TurnAnalysis.

Section LoopAgreement.
Context `{toolkit : GuidanceToolkit}.

Lemma AnalyzeTurn_reads_graph a b node_u edge1 node_v edge2 node_w angle :
  m_node_based_graph a = m_node_based_graph b ->
  AnalyzeTurn a node_u edge1 node_v edge2 node_w angle
  = AnalyzeTurn b node_u edge1 node_v edge2 node_w angle.
Proof. intros H. unfold AnalyzeTurn. rewrite H. reflexivity. Qed.

Lemma getTurnCandidates_edge_writes_counters
    from_node via_eid turn_node only barrier st onto :
  same_but_counters
    (loop_this (getTurnCandidates_edge from_node via_eid turn_node only
                  barrier st onto))
    (loop_this st).
Proof.
  unfold getTurnCandidates_edge.
  pose proof (turn_validity_writes_counters (loop_this st) from_node turn_node
                only barrier onto) as H.
  destruct (turn_validity (loop_this st) from_node turn_node only barrier onto)
    as [v this']. exact H.
Qed.

Lemma getTurnCandidates_loop_writes_counters
    from_node via_eid turn_node only barrier st edges :
  same_but_counters
    (loop_this (foldl (getTurnCandidates_edge from_node via_eid turn_node
                         only barrier) st edges))
    (loop_this st).
Proof.
  revert st. induction edges as [|onto edges IH]; intros st; simpl.
  - apply same_but_counters_refl.
  - eapply same_but_counters_trans; [apply IH|].
    apply getTurnCandidates_edge_writes_counters.
Qed.

(** [getTurnCandidates] writes the skip counters only. *)
Lemma getTurnCandidates_writes_counters this indeterminate from_node via_eid :
  same_but_counters
    (getTurnCandidates this indeterminate from_node via_eid).2 this.
Proof.
  unfold getTurnCandidates. simpl.
  apply (getTurnCandidates_loop_writes_counters _ _ _ _ _
           {| loop_this := this; has_non_roundabout := false;
              has_roundabout_entry := indeterminate;
              turn_candidates := [] |}).
Qed.

(** Two runs of the loop of [getTurnCandidates] stay in step when their
    objects are related by a relation [related] that keeps what the loop
    reads and that the validity checks respect. *)
Variable related : EdgeBasedGraphFactory -> EdgeBasedGraphFactory -> Prop.
Variables from_node turn_node only : NodeID.
Variable via_eid : EdgeID.
Variable barrier : bool.

Hypothesis related_graph :
  forall a b, related a b -> m_node_based_graph a = m_node_based_graph b.
Hypothesis related_nodes :
  forall a b, related a b -> m_node_info_list a = m_node_info_list b.
Hypothesis related_container :
  forall a b, related a b ->
    m_compressed_edge_container a = m_compressed_edge_container b.
Hypothesis related_validity :
  forall a b onto, related a b ->
    (turn_validity a from_node turn_node only barrier onto).1
    = (turn_validity b from_node turn_node only barrier onto).1
    /\ related (turn_validity a from_node turn_node only barrier onto).2
               (turn_validity b from_node turn_node only barrier onto).2.

Definition loops_agree (s t : CandidateLoop) : Prop :=
  related (loop_this s) (loop_this t)
  /\ has_non_roundabout s = has_non_roundabout t
  /\ has_roundabout_entry s = has_roundabout_entry t
  /\ turn_candidates s = turn_candidates t.

Lemma getTurnCandidates_edge_agree s t onto :
  loops_agree s t ->
  loops_agree
    (getTurnCandidates_edge from_node via_eid turn_node only barrier s onto)
    (getTurnCandidates_edge from_node via_eid turn_node only barrier t onto).
Proof.
  intros (Hrel & Hn & Hr & Hc).
  destruct (related_validity _ _ onto Hrel) as [Hv Hrel'].
  pose proof (related_graph _ _ Hrel) as Hg.
  pose proof (related_nodes _ _ Hrel) as Hnodes.
  pose proof (related_container _ _ Hrel) as Hcont.
  pose proof (AnalyzeTurn_reads_graph (loop_this s) (loop_this t)) as Ha.
  specialize (Ha from_node via_eid turn_node onto
                (GetTarget (m_node_based_graph (loop_this s)) onto)).
  unfold getTurnCandidates_edge.
  destruct (turn_validity (loop_this s) from_node turn_node only barrier onto)
    as [v1 this1].
  destruct (turn_validity (loop_this t) from_node turn_node only barrier onto)
    as [v2 this2].
  simpl in Hv, Hrel'. subst v2.
  split; [exact Hrel'|]. simpl.
  rewrite <- Hg, <- Hnodes, <- Hcont, <- Hn, <- Hr, <- Hc.
  rewrite <- (Ha _ Hg). done.
Qed.

Lemma getTurnCandidates_loop_agree s t edges :
  loops_agree s t ->
  loops_agree
    (foldl (getTurnCandidates_edge from_node via_eid turn_node only barrier)
       s edges)
    (foldl (getTurnCandidates_edge from_node via_eid turn_node only barrier)
       t edges).
Proof.
  revert s t. induction edges as [|onto edges IH]; intros s t H; [done|].
  simpl. apply IH. by apply getTurnCandidates_edge_agree.
Qed.

End LoopAgreement.

Section CandidateFrames.
Context `{toolkit : GuidanceToolkit}.

(** The candidates of [getTurnCandidates] depend on the inputs only. *)
Lemma getTurnCandidates_reads_inputs a b indeterminate from_node via_eid :
  same_inputs a b ->
  (getTurnCandidates a indeterminate from_node via_eid).1
  = (getTurnCandidates b indeterminate from_node via_eid).1.
Proof.
  intros Hin. pose proof Hin as (Hg & _ & Hr & Hb & _).
  unfold getTurnCandidates. simpl. rewrite <- Hg, <- Hr, <- Hb.
  match goal with
  | |- context [foldl (getTurnCandidates_edge _ _ ?t ?o ?k)
                  {| loop_this := a; has_non_roundabout := ?n;
                     has_roundabout_entry := ?r;
                     turn_candidates := ?c |} ?l] =>
      pose proof (getTurnCandidates_loop_agree same_inputs from_node t o
                    via_eid k) as H;
      specialize (fun H1 H2 H3 H4 => H H1 H2 H3 H4
                    {| loop_this := a; has_non_roundabout := n;
                       has_roundabout_entry := r; turn_candidates := c |}
                    {| loop_this := b; has_non_roundabout := n;
                       has_roundabout_entry := r; turn_candidates := c |}
                    l)
  end.
  destruct H as (_ & Hn & Hre & Hc).
  - by intros ? ? (? & _).
  - by intros ? ? (_ & ? & _).
  - by intros ? ? (_ & _ & _ & _ & _ & ? & _).
  - intros x y onto Hxy. split.
    + by apply turn_validity_reads_inputs.
    + eapply same_inputs_trans;
        [apply same_but_counters_inputs, turn_validity_writes_counters|].
      eapply same_inputs_trans; [exact Hxy|].
      apply same_inputs_sym, same_but_counters_inputs,
        turn_validity_writes_counters.
  - split; [exact Hin | done].
  - rewrite Hn, Hre, Hc. reflexivity.
Qed.

Lemma isObviousChoice_reads_graph a b via_eid turn_index candidates :
  m_node_based_graph a = m_node_based_graph b ->
  isObviousChoice a via_eid turn_index candidates
  = isObviousChoice b via_eid turn_index candidates.
Proof. intros H. unfold isObviousChoice. rewrite H. reflexivity. Qed.

Lemma find_obvious_with_same_name_reads_graph a b via_eid candidates indices :
  m_node_based_graph a = m_node_based_graph b ->
  find_obvious_with_same_name a via_eid candidates indices
  = find_obvious_with_same_name b via_eid candidates indices.
Proof.
  intros H. induction indices as [|i indices IH]; [done|].
  simpl. rewrite H, IH, (isObviousChoice_reads_graph a b _ _ _ H). done.
Qed.

Lemma suppressTurns_turn_reads_graph a b via_eid has_obvious obvious_angle
    candidates turn_index :
  m_node_based_graph a = m_node_based_graph b ->
  suppressTurns_turn a via_eid has_obvious obvious_angle candidates turn_index
  = suppressTurns_turn b via_eid has_obvious obvious_angle candidates
      turn_index.
Proof.
  intros H. unfold suppressTurns_turn. rewrite H.
  repeat (case_match; simplify_eq/=);
    rewrite ?(isObviousChoice_reads_graph a b _ _ _ H) in *; congruence.
Qed.

Lemma suppressTurns_loop_reads_graph a b via_eid has_obvious obvious_angle
    candidates indices :
  m_node_based_graph a = m_node_based_graph b ->
  suppressTurns_loop a via_eid has_obvious obvious_angle candidates indices
  = suppressTurns_loop b via_eid has_obvious obvious_angle candidates indices.
Proof.
  intros H. revert candidates.
  induction indices as [|i indices IH]; intros candidates; [done|].
  simpl. rewrite (suppressTurns_turn_reads_graph a b _ _ _ _ _ H).
  destruct (suppressTurns_turn b via_eid has_obvious obvious_angle candidates i).
  rewrite IH. done.
Qed.

Lemma suppressTurns_reads_graph a b via_eid candidates :
  m_node_based_graph a = m_node_based_graph b ->
  suppressTurns a via_eid candidates = suppressTurns b via_eid candidates.
Proof.
  intros H. unfold suppressTurns, suppressTurns_asserting,
    suppressTurns_of_three.
  rewrite H, (find_obvious_with_same_name_reads_graph a b _ _ _ H).
  destruct (find_obvious_with_same_name b via_eid candidates
              (seq 0 (length candidates))) as [[x y] z].
  rewrite (suppressTurns_loop_reads_graph a b _ _ _ _ _ H). done.
Qed.

Lemma optimizeCandidates_reads_graph a b via_eid candidates :
  m_node_based_graph a = m_node_based_graph b ->
  optimizeCandidates a via_eid candidates
  = optimizeCandidates b via_eid candidates.
Proof.
  intros H. unfold optimizeCandidates, checkForkAndEnd, optimizeRamps.
  rewrite H. reflexivity.
Qed.

(** The three passes read the inputs and write the skip counters. *)
Lemma processed_turn_candidates_reads_inputs a b indeterminate node_u edge :
  same_inputs a b ->
  (processed_turn_candidates a indeterminate node_u edge).1
  = (processed_turn_candidates b indeterminate node_u edge).1.
Proof.
  intros Hin. unfold processed_turn_candidates.
  pose proof (getTurnCandidates_reads_inputs a b indeterminate node_u edge Hin)
    as Hc.
  pose proof (getTurnCandidates_writes_counters a indeterminate node_u edge)
    as Ha.
  pose proof (getTurnCandidates_writes_counters b indeterminate node_u edge)
    as Hb.
  destruct (getTurnCandidates a indeterminate node_u edge) as [c1 a'].
  destruct (getTurnCandidates b indeterminate node_u edge) as [c2 b'].
  simpl in *. subst c2.
  assert (Hg : m_node_based_graph a' = m_node_based_graph b').
  { destruct Ha as [(Ha & _) _], Hb as [(Hb & _) _], Hin as (Hin & _).
    congruence. }
  rewrite (optimizeCandidates_reads_graph a' b' _ _ Hg).
  apply suppressTurns_reads_graph, Hg.
Qed.

Lemma processed_turn_candidates_writes_counters this indeterminate node_u edge :
  same_but_counters
    (processed_turn_candidates this indeterminate node_u edge).2 this.
Proof.
  unfold processed_turn_candidates.
  pose proof (getTurnCandidates_writes_counters this indeterminate node_u edge)
    as H.
  destruct (getTurnCandidates this indeterminate node_u edge) as [c this'].
  exact H.
Qed.

End CandidateFrames.

(** ** The expanded edges, in closed form *)

Section EdgeTrace.
Context `{toolkit : GuidanceToolkit}.

Lemma FlushVectorToStream_records file buffer :
  file_records (FlushVectorToStream file buffer).1
  ++ (FlushVectorToStream file buffer).2
  = file_records file ++ buffer.
Proof.
  unfold FlushVectorToStream. destruct buffer; simpl; [done|].
  by rewrite app_nil_r.
Qed.

Lemma turn_distance_reads_inputs a b lua edge_data node_v turn :
  same_inputs a b ->
  turn_distance a lua edge_data node_v turn
  = turn_distance b lua edge_data node_v turn.
Proof.
  intros (_ & _ & _ & _ & Hl & _ & Hp).
  unfold turn_distance, GetTurnPenalty. rewrite Hl, Hp. reflexivity.
Qed.

Lemma emitted_turn this lua turns st edge_form_u turn :
  emitted this lua turns st ->
  emitted this lua
    (turns ++ (if valid turn then [(edge_form_u, turn)] else []))
    (GenerateEdgeExpandedEdges_turn lua edge_form_u
       (GetTarget (m_node_based_graph this) edge_form_u) st turn).
Proof.
  intros (Hin & He & Hf & Hc & Hm & Hw & Hn & Hs).
  unfold GenerateEdgeExpandedEdges_turn.
  destruct (valid turn) eqn:Hv; simpl.
  2:{ rewrite app_nil_r. split; [exact Hin|]. by repeat split. }
  pose proof Hin as (Hg & _ & _ & _ & _ & Hcont & _).
  match goal with
  | |- context [FlushVectorToStream ?f ?b] =>
      pose proof (FlushVectorToStream_records f b) as Hflush;
      destruct (FlushVectorToStream f b) as [file' buffer']
  end.
  simpl in Hflush.
  assert (Hrec :
    file_records (edge_data_file st)
    ++ original_edge_data_vector st
       ++ [ {| via_node :=
                 GetPositionForID (m_compressed_edge_container (factory st))
                   edge_form_u;
               oed_name_id :=
                 name_id (GetEdgeData (m_node_based_graph (factory st))
                            edge_form_u);
               turn_instruction := instruction turn;
               oed_travel_mode :=
                 travel_mode (GetEdgeData (m_node_based_graph (factory st))
                                edge_form_u) |} ]
    = map (original_edge_data this) (turns ++ [(edge_form_u, turn)])).
  { rewrite app_assoc, Hf, map_app. simpl. unfold original_edge_data. simpl.
    rewrite Hg, Hcont. done. }
  case_bool_decide; unfold emitted; simpl.
  all: split; [exact Hin|].
  all: split;
    [ rewrite He, imap_app, <- app_assoc; simpl; do 2 f_equal;
      unfold expanded_edge; simpl;
      rewrite length_app, length_imap, Nat.add_0_r, Hg;
      by rewrite (turn_distance_reads_inputs _ _ _ _ _ _ Hin) |].
  all: split; [first [rewrite Hflush; exact Hrec | exact Hrec]|].
  all: split; [rewrite Hc, length_app; simpl; lia|].
  all: by repeat split.
Qed.

Lemma emitted_turns this lua turns st edge_form_u candidates :
  emitted this lua turns st ->
  emitted this lua
    (turns ++ map (fun turn => (edge_form_u, turn))
                  (filter (fun turn => valid turn = true) candidates))
    (foldl (GenerateEdgeExpandedEdges_turn lua edge_form_u
              (GetTarget (m_node_based_graph this) edge_form_u))
       st candidates).
Proof.
  revert turns st.
  induction candidates as [|turn candidates IH]; intros turns st H; simpl.
  - by rewrite app_nil_r.
  - pose proof (emitted_turn this lua turns st edge_form_u turn H) as H'.
    apply IH in H'. rewrite filter_cons.
    destruct (valid turn) eqn:Hv.
    + rewrite decide_True by done. simpl.
      by rewrite <- app_assoc in H'.
    + rewrite decide_False by done. by rewrite app_nil_r in H'.
Qed.

Lemma emitted_edge this lua stack turns st node_u edge_form_u :
  emitted this lua turns st ->
  emitted this lua
    (turns ++ surviving_turns_of_edge this stack node_u edge_form_u)
    (GenerateEdgeExpandedEdges_edge lua stack node_u st edge_form_u).
Proof.
  intros H. pose proof H as (Hin & He & Hf & Hc & Hm & Hw & Hn & Hs).
  pose proof Hin as (Hg & _).
  unfold GenerateEdgeExpandedEdges_edge, surviving_turns_of_edge.
  rewrite Hg.
  destruct (reversed (GetEdgeData (m_node_based_graph this) edge_form_u)).
  { by rewrite app_nil_r. }
  pose proof (processed_turn_candidates_reads_inputs (factory st) this
                (stack node_u edge_form_u) node_u edge_form_u Hin) as Hcand.
  pose proof (processed_turn_candidates_writes_counters (factory st)
                (stack node_u edge_form_u) node_u edge_form_u) as Hwr.
  destruct (processed_turn_candidates (factory st)
              (stack node_u edge_form_u) node_u edge_form_u)
    as [candidates this'].
  cbn [fst snd] in Hcand, Hwr. cbn [fst]. rewrite <- Hcand.
  destruct Hwr as (Hin' & Hm' & Hw' & Hn' & Hs' & He').
  replace (GetTarget (m_node_based_graph this') edge_form_u)
    with (GetTarget (m_node_based_graph this) edge_form_u).
  2:{ destruct Hin' as (Hg' & _). by rewrite Hg', Hg. }
  apply emitted_turns. simpl.
  split; [eapply same_inputs_trans; [exact Hin'|exact Hin]|].
  repeat split; simpl; congruence.
Qed.

Lemma emitted_node this lua stack turns st node_u :
  emitted this lua turns st ->
  emitted this lua (turns ++ surviving_turns_of_node this stack node_u)
    (foldl (GenerateEdgeExpandedEdges_edge lua stack node_u) st
       (GetAdjacentEdgeRange (m_node_based_graph (factory st)) node_u)).
Proof.
  intros H. pose proof H as ((Hg & _) & _). rewrite Hg. clear Hg.
  unfold surviving_turns_of_node.
  generalize (GetAdjacentEdgeRange (m_node_based_graph this) node_u).
  intros edges. revert turns st H.
  induction edges as [|e edges IH]; intros turns st H; simpl.
  - by rewrite app_nil_r.
  - rewrite app_assoc. apply IH. by apply emitted_edge.
Qed.

Lemma emitted_nodes this lua stack turns st nodes :
  emitted this lua turns st ->
  emitted this lua
    (turns ++ flat_map (surviving_turns_of_node this stack) nodes)
    (foldl
       (fun st node_u =>
          foldl (GenerateEdgeExpandedEdges_edge lua stack node_u) st
            (GetAdjacentEdgeRange (m_node_based_graph (factory st)) node_u))
       st nodes).
Proof.
  revert turns st.
  induction nodes as [|node_u nodes IH]; intros turns st H; simpl.
  - by rewrite app_nil_r.
  - rewrite app_assoc. apply IH. by apply emitted_node.
Qed.

(** [GenerateEdgeExpandedEdges] in closed form: it fails exactly when the
    surviving turns do not fit the length prefix; otherwise the edge list has
    grown by the expanded edge of every surviving turn, the file holds one
    record per surviving turn, and the length prefix is their number. *)
Lemma GenerateEdgeExpandedEdges_spec this lua stack :
  let turns := surviving_turns this stack in
  if bool_decide (Z.of_nat (length turns) < 2 ^ 32) then
    exists this',
      GenerateEdgeExpandedEdges this lua stack
      = Some (this',
              {| length_prefix := Z.of_nat (length turns);
                 file_records := map (original_edge_data this) turns |})
      /\ same_inputs this' this
      /\ m_edge_based_edge_list this'
         = m_edge_based_edge_list this
           ++ imap (fun k => expanded_edge this lua
                               (length (m_edge_based_edge_list this) + k))
                   turns
      /\ m_max_edge_id this' = m_max_edge_id this
      /\ m_edge_based_node_weights this' = m_edge_based_node_weights this
      /\ m_edge_based_node_list this' = m_edge_based_node_list this
      /\ m_edge_based_node_is_startpoint this'
         = m_edge_based_node_is_startpoint this
  else GenerateEdgeExpandedEdges this lua stack = None.
Proof.
  intros turns.
  pose (st0 :=
    {| factory := set_counters this 0 0 0;
       node_based_edge_counter := 0;
       original_edges_counter := 0;
       edge_data_file := {| length_prefix := 0; file_records := [] |};
       original_edge_data_vector := [] |}).
  assert (H0 : emitted this lua [] st0).
  { split; [by repeat split|]. repeat split; simpl; try done.
    by rewrite app_nil_r. }
  pose proof (emitted_nodes this lua stack [] st0
                (seqZ 0 (GetNumberOfNodes (m_node_based_graph this))) H0) as H.
  simpl in H. fold (surviving_turns this stack) in H. fold turns in H.
  unfold GenerateEdgeExpandedEdges, GenerateEdgeExpandedEdges_nodes.
  fold st0. change (m_node_based_graph (factory st0))
    with (m_node_based_graph this).
  destruct H as (Hin & He & Hf & Hc & Hm & Hw & Hn & Hs).
  match goal with
  | |- context [FlushVectorToStream ?f ?b] =>
      pose proof (FlushVectorToStream_records f b) as Hflush;
      destruct (FlushVectorToStream f b) as [file' buffer'] eqn:Hfl
  end.
  assert (Hb : buffer' = []).
  { unfold FlushVectorToStream in Hfl. case_match; by simplify_eq. }
  subst buffer'. simpl in Hflush. rewrite app_nil_r in Hflush.
  rewrite Hc. unfold numeric_cast_unsigned.
  case_bool_decide; [|done].
  eexists. split; [rewrite Hflush, Hf; reflexivity|].
  split; [exact Hin|]. by repeat split.
Qed.

End EdgeTrace.

(** ** The conversion of the penalty *)

Lemma static_cast_int_toward_zero x p :
  toward_zero x = Some p -> - 2 ^ 31 <= p <= 2 ^ 31 - 1 ->
  static_cast_int x = p.
Proof.
  unfold toward_zero, exact_value, static_cast_int, INT_MIN, INT_MAX.
  destruct (Prim2SF x) as [s|s| |s m e]; try done.
  - intros [= <-] _. done.
  - cbv zeta. destruct (Z.leb_spec 0 e) as [He|He].
    + intros [= <-]. change (2 ^ 0) with 1. rewrite Z.quot_1_r.
      rewrite Z.shiftl_mul_pow2 by done. intros Hrange.
      destruct s.
      * change (Z.neg m) with (- Z.pos m) in *.
        rewrite bool_decide_eq_true_2 by lia. lia.
      * by rewrite bool_decide_eq_true_2 by lia.
    + intros [= <-]. rewrite Z.shiftr_div_pow2 by lia.
      assert (Hpow : 0 < 2 ^ (- e)) by (apply Z.pow_pos_nonneg; lia).
      intros Hrange. destruct s.
      * change (Z.neg m) with (- Z.pos m) in *.
        rewrite Z.quot_opp_l, Z.quot_div_nonneg in * by lia.
        by rewrite bool_decide_eq_true_2 by lia.
      * rewrite Z.quot_div_nonneg in * by lia.
        by rewrite bool_decide_eq_true_2 by lia.
Qed.

Lemma hook_as_int_penalty this lua angle p :
  hook_as_int this lua angle = Some p -> hook_penalty this lua angle = p.
Proof.
  unfold hook_as_int, hook_penalty.
  destruct (has_turn_penalty_function (speed_profile this)); [|congruence].
  destruct (turn_function lua (180 - angle)%float) as [x|]; [|congruence].
  destruct (toward_zero x) as [q|] eqn:Hq; [|done].
  case_bool_decide; [|done]. intros [= <-].
  by apply static_cast_int_toward_zero.
Qed.

Section EdgeWeights.
Context `{toolkit : GuidanceToolkit}.

Lemma turn_distance_sum this lua via turn :
  let g := m_node_based_graph this in
  turn_distance this lua (GetEdgeData g via) (GetTarget g via) turn
  = wrap32 (distance (GetEdgeData g via) + added_penalties this lua via turn).
Proof.
  intros g. unfold turn_distance, added_penalties, hook_penalty, GetTurnPenalty.
  fold g.
  destruct (bool_decide (GetTarget g via ∈ m_traffic_lights this));
    destruct (isUturn (instruction turn));
    repeat (rewrite <- ?Z.add_assoc; rewrite wrap32_add_l);
    f_equal; lia.
Qed.


(** C4.  When [GenerateEdgeExpandedEdges] returns, the count at offset 0 of
    the original-edge-data file is the number of records in the file, and
    the records are those of the surviving valid turn candidates, one each
    and in the order of the loops.  It returns whenever the surviving
    candidates are fewer than 2^32; otherwise the closing [numeric_cast]
    throws. *)
Theorem C4_length_prefix_counts_the_records this lua stack :
  let turns := surviving_turns this stack in
  match GenerateEdgeExpandedEdges this lua stack with
  | Some (_, file) =>
      length_prefix file = Z.of_nat (length (file_records file))
      /\ file_records file = map (original_edge_data this) turns
      /\ length (file_records file) = length turns
  | None => 2 ^ 32 <= Z.of_nat (length turns)
  end.
Proof.
  intros turns.
  pose proof (GenerateEdgeExpandedEdges_spec this lua stack) as Hspec.
  cbv zeta in Hspec. fold turns in Hspec.
  case_bool_decide.
  - destruct Hspec as (this' & -> & _). simpl.
    rewrite length_map. done.
  - rewrite Hspec. lia.
Qed.

End EdgeWeights.


(** C1 as stated fails where the sum leaves the range of the weight: on the
    through-road, with a turn function that returns -20, the first expanded
    edge is the one of the turn from the edge 0->1, of distance 10, at the
    traffic light of node 1 onto the edge 1->2.  The turn is no U-turn, so
    the sum of the claim is 10 + 2 - 20 = -8, and the weight is
    2^32 - 8. *)
Lemma C1_counterexample_negative_sum :
  let this := Examples.prepared Examples.through_factory in
  let g := m_node_based_graph this in
  exists this' file edge turn,
    @GenerateEdgeExpandedEdges Examples.through_toolkit this
      Junctions.refunding_profile Examples.initialised
    = Some (this', file)
    /\ @surviving_turns Examples.through_toolkit this Examples.initialised
         !! 0%nat = Some (0, turn)
    /\ m_edge_based_edge_list this' !! 0%nat = Some edge
    /\ distance (GetEdgeData g 0) = 10
    /\ bool_decide (GetTarget g 0 ∈ m_traffic_lights this) = true
    /\ traffic_signal_penalty (speed_profile this) = 2
    /\ @isUturn Examples.through_toolkit (instruction turn) = false
    /\ turn_function Junctions.refunding_profile (180 - angle turn)%float
       = Some (-20)%float
    /\ weight edge = 4294967288
    /\ weight edge <> 10 + 2 + 0 + -20.
Proof.
  eexists _, _, _, _.
  split; [vm_compute; reflexivity|].
  split; [vm_compute; reflexivity|].
  split; [vm_compute; reflexivity|].
  split; [vm_compute; reflexivity|].
  split; [vm_compute; reflexivity|].
  split; [vm_compute; reflexivity|].
  split; [vm_compute; reflexivity|].
  split; [vm_compute; reflexivity|].
  split; [vm_compute; reflexivity|].
  vm_compute. discriminate.
Qed.

(** ** Restrictions *)

Section Restrictions.
Context `{toolkit : GuidanceToolkit}.

Lemma check_only_restriction_agree a b only to_node turn_is_valid :
  same_but_restriction_check a b ->
  (check_only_restriction a only to_node turn_is_valid).1
  = (check_only_restriction b only to_node turn_is_valid).1
  /\ same_but_restriction_check
       (check_only_restriction a only to_node turn_is_valid).2
       (check_only_restriction b only to_node turn_is_valid).2.
Proof.
  intros H. pose proof H as (Hg & Hn & Hb & Hc & Hrm & Hr & Hu & Hk).
  unfold check_only_restriction. case_match; simpl; [|done].
  split; [done|]. repeat split; simpl; congruence.
Qed.

Lemma check_barrier_and_uturn_agree a b from_node turn_node to_node barrier
    turn_is_valid :
  same_but_restriction_check a b ->
  (check_barrier_and_uturn a from_node turn_node to_node barrier
     turn_is_valid).1
  = (check_barrier_and_uturn b from_node turn_node to_node barrier
       turn_is_valid).1
  /\ same_but_restriction_check
       (check_barrier_and_uturn a from_node turn_node to_node barrier
          turn_is_valid).2
       (check_barrier_and_uturn b from_node turn_node to_node barrier
          turn_is_valid).2.
Proof.
  intros H. pose proof H as (Hg & Hn & Hb & Hc & Hrm & Hr & Hu & Hk).
  unfold check_barrier_and_uturn. rewrite Hg.
  repeat case_match; simpl; (split; [done|]); try done;
    repeat split; simpl; congruence.
Qed.

Lemma check_turn_restricted_with_only_turn this from_node turn_node to_node
    only turn_is_valid :
  only <> SPECIAL_NODEID ->
  check_turn_restricted this from_node turn_node to_node only turn_is_valid
  = (turn_is_valid, this).
Proof.
  intros Honly. unfold check_turn_restricted.
  by rewrite (bool_decide_eq_false_2 _ Honly), andb_false_r.
Qed.

Lemma turn_validity_with_only_turn a b from_node turn_node only barrier onto :
  only <> SPECIAL_NODEID ->
  same_but_restriction_check a b ->
  (turn_validity a from_node turn_node only barrier onto).1
  = (turn_validity b from_node turn_node only barrier onto).1
  /\ same_but_restriction_check
       (turn_validity a from_node turn_node only barrier onto).2
       (turn_validity b from_node turn_node only barrier onto).2.
Proof.
  intros Honly H. pose proof H as (Hg & _).
  unfold turn_validity. rewrite Hg.
  match goal with
  | |- context [check_only_restriction a ?o ?t ?v] =>
      destruct (check_only_restriction_agree a b o t v H) as [H1 H1'];
      destruct (check_only_restriction a o t v) as [v1 a1];
      destruct (check_only_restriction b o t v) as [v1' b1]
  end.
  cbn [fst snd] in H1, H1'. subst v1'.
  match goal with
  | |- context [check_barrier_and_uturn a1 ?f ?t ?to ?k ?v] =>
      destruct (check_barrier_and_uturn_agree a1 b1 f t to k v H1')
        as [H2 H2'];
      destruct (check_barrier_and_uturn a1 f t to k v) as [v2 a2];
      destruct (check_barrier_and_uturn b1 f t to k v) as [v2' b2]
  end.
  cbn [fst snd] in H2, H2'. subst v2'.
  rewrite !check_turn_restricted_with_only_turn by done. done.
Qed.

(** C5.  In [getTurnCandidates] the query
    [CheckIfTurnIsRestricted(from, turn_node, to)] has an effect only
    without an only-turn restriction from [(from, turn_node)]: when
    [only_restriction_to_node] differs from SPECIAL_NODEID, the candidates
    and the counters are the same whatever the query answers, so that the
    restriction acts through the branch [to != only_restriction_to_node]
    alone; and whenever the closing check of the loop body changes the
    validity or the object, [only_restriction_to_node] is SPECIAL_NODEID,
    the query has answered true, and the check has marked the candidate
    invalid and incremented [restricted_turns_counter]. *)
Theorem C5_restriction_query_needs_no_only_turn
    this indeterminate from_node via_eid :
  let turn_node := GetTarget (m_node_based_graph this) via_eid in
  let only_restriction_to_node :=
    CheckForEmanatingIsOnlyTurn (m_restriction_map this) from_node turn_node in
  (only_restriction_to_node <> SPECIAL_NODEID ->
   forall check,
     let plain := getTurnCandidates this indeterminate from_node via_eid in
     let other :=
       getTurnCandidates (with_restriction_check this check) indeterminate
         from_node via_eid in
     other.1 = plain.1
     /\ restricted_turns_counter other.2 = restricted_turns_counter plain.2
     /\ skipped_uturns_counter other.2 = skipped_uturns_counter plain.2
     /\ skipped_barrier_turns_counter other.2
        = skipped_barrier_turns_counter plain.2)
  /\ (forall this0 to_node turn_is_valid,
        check_turn_restricted this0 from_node turn_node to_node
          only_restriction_to_node turn_is_valid
        <> (turn_is_valid, this0) ->
        only_restriction_to_node = SPECIAL_NODEID
        /\ CheckIfTurnIsRestricted (m_restriction_map this0)
             from_node turn_node to_node = true
        /\ check_turn_restricted this0 from_node turn_node to_node
             only_restriction_to_node turn_is_valid
           = (false, increment_restricted_turns_counter this0)).
Proof.
  intros turn_node only. split.
  - intros Honly check plain other. subst plain other.
    unfold getTurnCandidates. cbn [fst snd].
    change (m_node_based_graph (with_restriction_check this check))
      with (m_node_based_graph this).
    change (m_barrier_nodes (with_restriction_check this check))
      with (m_barrier_nodes this).
    change (CheckForEmanatingIsOnlyTurn
              (m_restriction_map (with_restriction_check this check)))
      with (CheckForEmanatingIsOnlyTurn (m_restriction_map this)).
    fold turn_node. fold only.
    match goal with
    | |- context [foldl (getTurnCandidates_edge _ _ _ _ ?k)
                    {| loop_this := this; has_non_roundabout := ?n;
                       has_roundabout_entry := ?r;
                       turn_candidates := ?c |} ?l] =>
        pose proof (getTurnCandidates_loop_agree same_but_restriction_check
                      from_node turn_node only via_eid k) as H;
        specialize (fun H1 H2 H3 H4 => H H1 H2 H3 H4
                      {| loop_this := with_restriction_check this check;
                         has_non_roundabout := n;
                         has_roundabout_entry := r; turn_candidates := c |}
                      {| loop_this := this; has_non_roundabout := n;
                         has_roundabout_entry := r; turn_candidates := c |}
                      l)
    end.
    destruct H as (Hrel & Hn & Hre & Hc).
    + by intros ? ? (? & _).
    + by intros ? ? (_ & ? & _).
    + by intros ? ? (_ & _ & _ & ? & _).
    + intros x y onto Hxy. by apply turn_validity_with_only_turn.
    + split; [by repeat split | done].
    + rewrite Hn, Hre, Hc.
      destruct Hrel as (_ & _ & _ & _ & _ & Hr & Hu & Hk). done.
  - intros this0 to_node v Hchanged.
    unfold check_turn_restricted in *.
    destruct (CheckIfTurnIsRestricted (m_restriction_map this0) from_node
                turn_node to_node); [|done].
    destruct (decide (only = SPECIAL_NODEID)) as [Heq|Hne].
    + rewrite (bool_decide_eq_true_2 _ Heq) in *. simpl in *.
      case_bool_decide; done.
    + rewrite (bool_decide_eq_false_2 _ Hne) in *. done.
Qed.

End Restrictions.

(** C5 at an only-turn restriction on the through-road: from node 0 over
    node 1 the only permitted continuation is node 2. *)
Lemma C5_restriction_query_needs_no_only_turn_witness :
  let this :=
    with_restriction_check
      (EdgeBasedGraphFactory_new Examples.through_graph
         (Examples.uncompressed Examples.through_graph) ∅ ∅
         {| CheckForEmanatingIsOnlyTurn := fun _ _ => 2;
            CheckIfTurnIsRestricted := fun _ _ _ => false |}
         Examples.through_nodes Examples.profile)
      (fun _ _ _ => false) in
  (@getTurnCandidates Examples.through_toolkit
     (with_restriction_check this (fun _ _ _ => true)) false 0 0).1
  = (@getTurnCandidates Examples.through_toolkit this false 0 0).1.
Proof.
  intros this.
  destruct (@C5_restriction_query_needs_no_only_turn Examples.through_toolkit
              this false 0 0) as [H _].
  destruct (H ltac:(vm_compute; discriminate) (fun _ _ _ => true))
    as [Hcandidates _].
  exact Hcandidates.
Defined.

(** ** U-turns *)

Lemma GetAdjacentEdgeRange_out_degree g n e :
  e ∈ GetAdjacentEdgeRange g n -> 1 <= GetOutDegree g n.
Proof.
  unfold GetAdjacentEdgeRange. intros H. apply elem_of_seqZ in H. lia.
Qed.

(** C6 (as amended).  For a U-turn candidate (the target of [onto_edge] is
    [from_node]) among the edges out of the turn node: it is valid after the
    checks only if the turn node is a barrier, or has out-degree 1, or at
    most one of its edges has a reverse edge that is not reversed; otherwise
    it is invalid, and [skipped_uturns_counter] is incremented exactly when
    the candidate reaches the U-turn check still valid, that is, when its
    edge is not reversed and no only-turn restriction excludes it. *)
Theorem C6_uturn_is_kept_only_where_it_is_needed
    this from_node turn_node only is_barrier_node onto_edge :
  let g := m_node_based_graph this in
  let result :=
    turn_validity this from_node turn_node only is_barrier_node onto_edge in
  let reaches_the_check :=
    negb (reversed (GetEdgeData g onto_edge))
    && negb (bool_decide (only <> SPECIAL_NODEID)
             && bool_decide (from_node <> only)) in
  GetTarget g onto_edge = from_node ->
  onto_edge ∈ GetAdjacentEdgeRange g turn_node ->
  (result.1 = true ->
     is_barrier_node = true
     \/ GetOutDegree g turn_node = 1
     \/ number_of_emmiting_bidirectional_edges g turn_node <= 1)
  /\ (is_barrier_node = false ->
      GetOutDegree g turn_node > 1 ->
      number_of_emmiting_bidirectional_edges g turn_node > 1 ->
      result.1 = false
      /\ skipped_uturns_counter result.2
         = skipped_uturns_counter this
           + (if reaches_the_check then 1 else 0)).
Proof.
  intros g result reaches Hto Hin.
  pose proof (GetAdjacentEdgeRange_out_degree g turn_node onto_edge Hin) as Hd.
  subst result reaches.
  unfold turn_validity, check_only_restriction, check_barrier_and_uturn,
    check_turn_restricted, increment_restricted_turns_counter,
    increment_skipped_uturns_counter, increment_skipped_barrier_turns_counter.
  fold g. rewrite Hto.
  destruct (reversed (GetEdgeData g onto_edge)); simpl.
  - split; [|intros _ _ _].
    + case_match; simpl; [done|]. intros [=].
    + case_match; simpl; split; try done; lia.
  - destruct (bool_decide (only ≠ SPECIAL_NODEID)
              && bool_decide (from_node ≠ only)) eqn:Honly; simpl.
    + split; [|intros _ _ _].
      * case_match; simpl; [done|]. intros [=].
      * case_match; simpl; split; try done; lia.
    + destruct is_barrier_node; simpl.
      * split; [by left|done].
      * rewrite (bool_decide_eq_true_2 (from_node = from_node)) by done.
        simpl.
        destruct (decide (GetOutDegree g turn_node > 1)) as [Hdeg|Hdeg].
        -- rewrite (bool_decide_eq_true_2 _ Hdeg).
           destruct (decide (number_of_emmiting_bidirectional_edges g turn_node
                             > 1)) as [Hbi|Hbi].
           ++ rewrite (bool_decide_eq_true_2 _ Hbi). simpl.
              split; [|intros _ _ _].
              ** case_match; simpl; [done|]. intros [=].
              ** case_match; simpl; split; done.
           ++ rewrite (bool_decide_eq_false_2 _ Hbi). simpl.
              split; [intros _; right; right; lia | intros _ _ ?; lia].
        -- rewrite (bool_decide_eq_false_2 _ Hdeg). simpl.
           split; [intros _; right; left; lia | intros _ ?; lia].
Qed.

(** C6 at the through-road: the U-turn at node 1 for the edge 0->1, where
    two roads meet in both directions, is skipped and counted. *)
Lemma C6_uturn_is_kept_only_where_it_is_needed_witness :
  let this := Examples.prepared Examples.through_factory in
  let result := turn_validity this 0 1 SPECIAL_NODEID false 1 in
  result.1 = false
  /\ skipped_uturns_counter result.2 = skipped_uturns_counter this + 1.
Proof.
  intros this result.
  destruct (C6_uturn_is_kept_only_where_it_is_needed this 0 1 SPECIAL_NODEID
              false 1) as [_ H].
  - vm_compute. reflexivity.
  - vm_compute. apply list_elem_of_In. simpl. tauto.
  - destruct H as [Hinvalid Hcounter].
    + reflexivity.
    + vm_compute. reflexivity.
    + vm_compute. reflexivity.
    + split; [exact Hinvalid|]. unfold result. rewrite Hcounter.
      vm_compute. reflexivity.
Defined.

(** C6 as stated fails for the U-turn onto a one-way street: at the
    junction 1 of the example, reached from node 0 by the one-way edge 0, the
    candidate onto the reversed edge 1 is a U-turn at a node that is no
    barrier, has three edges, all three with a reverse edge that is not
    reversed; it is invalid, but [skipped_uturns_counter] is not
    incremented, neither by the checks of the candidate nor by the whole of
    [getTurnCandidates]. *)
Lemma C6_counterexample_uturn_onto_one_way_street :
  let this := Examples.prepared Examples.oneway_factory in
  let g := m_node_based_graph this in
  let result := turn_validity this 0 1 SPECIAL_NODEID false 1 in
  GetTarget g 1 = 0
  /\ bool_decide (1 ∈ m_barrier_nodes this) = false
  /\ GetOutDegree g 1 = 3
  /\ number_of_emmiting_bidirectional_edges g 1 = 3
  /\ result.1 = false
  /\ skipped_uturns_counter result.2 = skipped_uturns_counter this
  /\ skipped_uturns_counter
       (@getTurnCandidates Examples.crossing_toolkit this false 0 0).2
     = skipped_uturns_counter this.
Proof. vm_compute. repeat split; reflexivity. Qed.

(** ** The roundabout flag and the position of the U-turn *)

(** C7.  At the junction on the rim of a roundabout, reached from node 0
    by the edge 0, the only valid candidate is the turn to the right, which
    enters no roundabout; the entry to the roundabout is invalid, its edge
    being reversed.  No iteration assigns [has_roundabout_entry].  When the
    read of the uninitialised flag yields false, no candidate is
    reclassified; when it yields true, the invalid entry is reclassified
    from EnterRoundabout to EnterRoundaboutAtExit, although no valid
    roundabout entry exists. *)
Theorem C7_uninitialised_flag_decides_the_reclassification :
  let this := Examples.prepared Examples.roundabout_factory in
  brief (@getTurnCandidates Examples.crossing_toolkit this false 0 0).1
  = [ (1, false, {| type := TurnType.Turn;
                    direction_modifier := DirectionModifier.UTurn |});
      (2, true, {| type := TurnType.Turn;
                   direction_modifier := DirectionModifier.Right |});
      (3, false, {| type := TurnType.EnterRoundabout;
                    direction_modifier := DirectionModifier.Left |}) ]
  /\ brief (@getTurnCandidates Examples.crossing_toolkit this true 0 0).1
     = [ (1, false, {| type := TurnType.Turn;
                       direction_modifier := DirectionModifier.UTurn |});
         (2, true, {| type := TurnType.Turn;
                      direction_modifier := DirectionModifier.Right |});
         (3, false, {| type := TurnType.EnterRoundaboutAtExit;
                       direction_modifier := DirectionModifier.Left |}) ].
Proof. split; vm_compute; reflexivity. Qed.

(** C10.  On the one-way street with the hairpin, for the edge 0 out of
    node 0: the U-turn candidate is invalid (its edge is reversed) and lies
    within 35 degrees of the valid turn onto the edge 2, so the closing loop
    of [getTurnCandidates] erases it and the turn onto the edge 2, a sharp
    right turn, is left as the first and only candidate;
    [optimizeCandidates] returns the vector as it is; and in
    [suppressTurns] the call of [isObviousChoice] for this candidate, a road
    that is not of low priority, reaches the assertion that the first
    candidate is the U-turn, which fails.  With two more roads at the node,
    three candidates are left after the U-turn is erased, and the assertion
    at the head of the branch for three candidates fails as well. *)
Theorem C10_first_candidate_is_not_the_uturn :
  let hairpin := Examples.prepared Examples.hairpin_factory in
  let candidates :=
    (@getTurnCandidates Examples.hairpin_toolkit hairpin false 0 0).1 in
  let fan := Examples.prepared Examples.fan_factory in
  let fan_candidates :=
    @optimizeCandidates Examples.fan_toolkit fan 0
      (@getTurnCandidates Examples.fan_toolkit fan false 0 0).1 in
  brief candidates
  = [ (2, true, {| type := TurnType.Turn;
                   direction_modifier := DirectionModifier.SharpRight |}) ]
  /\ @optimizeCandidates Examples.hairpin_toolkit hairpin 0 candidates
     = candidates
  /\ (@isObviousChoice Examples.hairpin_toolkit hairpin 0 0 candidates).2
     = false
  /\ (@suppressTurns_asserting Examples.hairpin_toolkit hairpin 0
        (@optimizeCandidates Examples.hairpin_toolkit hairpin 0 candidates)).2
     = false
  /\ brief fan_candidates
     = [ (2, true, {| type := TurnType.Turn;
                      direction_modifier := DirectionModifier.SharpRight |});
         (3, true, {| type := TurnType.Turn;
                      direction_modifier := DirectionModifier.SlightRight |});
         (4, true, {| type := TurnType.Turn;
                      direction_modifier := DirectionModifier.Left |}) ]
  /\ (@suppressTurns_asserting Examples.fan_toolkit fan 0 fan_candidates).2
     = false.
Proof. repeat split; vm_compute; reflexivity. Qed.

(** ** The passes over the candidates change instructions only *)

Lemma outline_set_instruction c i : outline (set_instruction c i) = outline c.
Proof. reflexivity. Qed.

Lemma outline_alter (f : TurnCandidate -> TurnCandidate) i candidates :
  (forall c, outline (f c) = outline c) ->
  map outline (alter f i candidates) = map outline candidates.
Proof.
  intros Hf. revert i. induction candidates as [|c candidates IH]; intros i.
  - done.
  - destruct i as [|i]; simpl.
    + by rewrite Hf.
    + f_equal. apply IH.
Qed.

Lemma outline_assign_instruction i ins candidates :
  map outline (assign_instruction i ins candidates) = map outline candidates.
Proof. by apply outline_alter. Qed.

Lemma outline_assign_modifier i m candidates :
  map outline (assign_modifier i m candidates) = map outline candidates.
Proof. by apply outline_alter. Qed.

Lemma outline_assign_type i ty candidates :
  map outline (assign_type i ty candidates) = map outline candidates.
Proof. by apply outline_alter. Qed.

Ltac outline_assignments :=
  repeat first
    [ rewrite outline_assign_type
    | rewrite outline_assign_modifier
    | rewrite outline_assign_instruction ].

Section Outline.
Context `{toolkit : GuidanceToolkit}.

Lemma outline_resolve_at candidates i neighbor direction :
  map outline (resolve_at candidates i neighbor direction).2
  = map outline candidates.
Proof.
  unfold resolve_at. destruct (resolve _ _ _) as [ok ins]. simpl.
  apply outline_assign_instruction.
Qed.

Lemma outline_resolveTransitive_at candidates i j k direction :
  map outline (resolveTransitive_at candidates i j k direction).2
  = map outline candidates.
Proof.
  unfold resolveTransitive_at.
  destruct (resolveTransitive _ _ _ _) as [ok [first second]]. simpl.
  by rewrite !outline_assign_instruction.
Qed.

(** Every step of the conflict resolution is one of the two calls above:
    the equations of the destructured calls give those of the outlines. *)
Ltac outline_steps :=
  repeat match goal with
  | H : resolve_at ?c ?i ?j ?d = (_, ?c') |- _ =>
      let E := fresh "E" in
      assert (E : map outline c' = map outline c)
        by (rewrite <- (outline_resolve_at c i j d), H; reflexivity);
      clear H
  | H : context [resolveTransitive_at ?c ?i ?j ?k ?d] |- _ =>
      rewrite (outline_resolveTransitive_at c i j k d) in H
  | |- context [map outline (resolveTransitive_at ?c ?i ?j ?k ?d).2] =>
      rewrite (outline_resolveTransitive_at c i j k d)
  end.

Lemma outline_resolve_conflict_of_two candidates conflict_begin conflict_end :
  map outline (resolve_conflict_of_two candidates conflict_begin conflict_end)
  = map outline candidates.
Proof.
  unfold resolve_conflict_of_two.
  repeat (case_match; simplify_eq/=); outline_steps; congruence.
Qed.

Lemma outline_resolve_conflict_of_many candidates conflict_begin conflict_end :
  map outline (resolve_conflict_of_many candidates conflict_begin conflict_end)
  = map outline candidates.
Proof.
  unfold resolve_conflict_of_many.
  repeat (case_match; simplify_eq/=); outline_steps; congruence.
Qed.

Lemma outline_optimizeCandidates_turn candidates turn_index :
  map outline (optimizeCandidates_turn candidates turn_index).2
  = map outline candidates.
Proof.
  unfold optimizeCandidates_turn.
  repeat (case_match; simplify_eq/=);
    rewrite ?outline_resolve_conflict_of_two,
      ?outline_resolve_conflict_of_many; done.
Qed.

Lemma outline_optimizeCandidates_loop fuel turn_index candidates :
  map outline (optimizeCandidates_loop fuel turn_index candidates)
  = map outline candidates.
Proof.
  revert turn_index candidates.
  induction fuel as [|fuel IH]; intros turn_index candidates; [done|].
  simpl. case_bool_decide; [|done].
  pose proof (outline_optimizeCandidates_turn candidates turn_index) as Hturn.
  destruct (optimizeCandidates_turn candidates turn_index) as [i c].
  simpl in Hturn. by rewrite IH.
Qed.

Lemma outline_relabel_multiple_uturns candidates :
  map outline (relabel_multiple_uturns candidates) = map outline candidates.
Proof.
  unfold relabel_multiple_uturns.
  repeat case_match; outline_assignments; done.
Qed.

Lemma outline_optimizeRamps_continue g in_edge_data candidates :
  map outline (optimizeRamps_continue g in_edge_data candidates).2
  = map outline candidates.
Proof.
  induction candidates as [|c candidates IH]; [done|].
  simpl. destruct (optimizeRamps_continue g in_edge_data candidates)
    as [e rest].
  simpl in IH. repeat case_match; simpl; by rewrite ?IH.
Qed.

Lemma outline_optimizeRamps_sides continue_eid to_the_right candidates :
  map outline (optimizeRamps_sides continue_eid to_the_right candidates)
  = map outline candidates.
Proof.
  revert to_the_right.
  induction candidates as [|c candidates IH]; intros to_the_right; [done|].
  simpl. repeat case_match; simpl; by rewrite IH.
Qed.

Lemma outline_optimizeRamps this via_edge candidates :
  map outline (optimizeRamps this via_edge candidates) = map outline candidates.
Proof.
  unfold optimizeRamps.
  pose proof (outline_optimizeRamps_continue (m_node_based_graph this)
                (GetEdgeData (m_node_based_graph this) via_edge) candidates)
    as H.
  destruct (optimizeRamps_continue _ _ candidates) as [e rest]. simpl in H.
  case_match; by rewrite ?outline_optimizeRamps_sides.
Qed.

Lemma outline_handleForkAndEnd ty candidates :
  map outline (handleForkAndEnd ty candidates) = map outline candidates.
Proof. unfold handleForkAndEnd. by rewrite !outline_assign_instruction. Qed.

(** [optimizeCandidates] keeps the candidates, their order, their validity
    and their angles. *)
Lemma outline_optimizeCandidates this via_eid candidates :
  map outline (optimizeCandidates this via_eid candidates)
  = map outline candidates.
Proof.
  unfold optimizeCandidates. repeat case_match; [done| |].
  - apply outline_handleForkAndEnd.
  - by rewrite outline_optimizeCandidates_loop,
      outline_relabel_multiple_uturns, outline_optimizeRamps.
Qed.

Lemma outline_suppressTurns_turn this via_eid has_obvious obvious_angle
    candidates turn_index :
  map outline
    (suppressTurns_turn this via_eid has_obvious obvious_angle candidates
       turn_index).1
  = map outline candidates.
Proof.
  unfold suppressTurns_turn.
  repeat (case_match; simplify_eq/=); outline_assignments; done.
Qed.

Lemma outline_suppressTurns_loop this via_eid has_obvious obvious_angle
    candidates indices :
  map outline
    (suppressTurns_loop this via_eid has_obvious obvious_angle candidates
       indices).1
  = map outline candidates.
Proof.
  revert candidates.
  induction indices as [|i indices IH]; intros candidates; [done|].
  simpl.
  pose proof (outline_suppressTurns_turn this via_eid has_obvious
                obvious_angle candidates i) as H.
  destruct (suppressTurns_turn this via_eid has_obvious obvious_angle
              candidates i) as [c a].
  specialize (IH c).
  destruct (suppressTurns_loop this via_eid has_obvious obvious_angle c
              indices) as [c' a'].
  simpl in *. congruence.
Qed.

(** [suppressTurns] keeps them as well. *)
Lemma outline_suppressTurns this via_eid candidates :
  map outline (suppressTurns this via_eid candidates) = map outline candidates.
Proof.
  unfold suppressTurns, suppressTurns_asserting, suppressTurns_of_three.
  repeat (case_match; simplify_eq/=); outline_assignments; try done.
  all: match goal with
       | H : suppressTurns_loop ?t ?v ?h ?a ?c ?i = (?r, _) |- _ =>
           pose proof (outline_suppressTurns_loop t v h a c i) as Hl;
           rewrite H in Hl; exact Hl
       end.
Qed.

End Outline.

(** ** Where the candidates come from *)

Lemma insert_ByAngle_Permutation c candidates :
  insert_ByAngle c candidates ≡ₚ c :: candidates.
Proof.
  induction candidates as [|d candidates IH]; simpl; [done|].
  case_match; [|done]. rewrite IH. apply Permutation_swap.
Qed.

Lemma sort_ByAngle_Permutation candidates :
  sort_ByAngle candidates ≡ₚ candidates.
Proof.
  induction candidates as [|c candidates IH]; simpl; [done|].
  rewrite insert_ByAngle_Permutation. by f_equiv.
Qed.

Lemma Forall_of_sublist {A} (P : A -> Prop) (l1 l2 : list A) :
  l1 `sublist_of` l2 -> Forall P l2 -> Forall P l1.
Proof.
  intros Hsub Hall. apply Forall_forall. intros x Hx.
  rewrite Forall_forall in Hall. apply Hall. by eapply elem_of_sublist.
Qed.

Section Erasure.
Context `{toolkit : GuidanceToolkit}.

Lemma erase_invalid_equivalents_sublist fuel index candidates :
  erase_invalid_equivalents fuel index candidates `sublist_of` candidates.
Proof.
  revert index candidates.
  induction fuel as [|fuel IH]; intros index candidates; simpl; [done|].
  repeat case_match; try done.
  etrans; [apply IH|]. apply sublist_delete.
Qed.

(** The loop ends by itself: with [size - index] iterations to go, more fuel
    changes nothing. *)
Lemma erase_invalid_equivalents_fuel fuel extra index candidates :
  (length candidates - index <= fuel)%nat ->
  erase_invalid_equivalents (fuel + extra) index candidates
  = erase_invalid_equivalents fuel index candidates.
Proof.
  revert index candidates.
  induction fuel as [|fuel IH]; intros index candidates Hfuel.
  - destruct extra as [|extra]; simpl; [done|].
    rewrite bool_decide_eq_false_2 by lia. done.
  - simpl. case_bool_decide as Hlt; [|done].
    case_match.
    + apply IH. rewrite length_delete; [lia|].
      by apply lookup_lt_is_Some_2.
    + apply IH. lia.
Qed.

(** Only invalid candidates are erased. *)
Lemma erase_invalid_equivalents_keeps_valid fuel index candidates :
  filter (fun c => valid c = true)
    (erase_invalid_equivalents fuel index candidates)
  = filter (fun c => valid c = true) candidates.
Proof.
  revert index candidates.
  induction fuel as [|fuel IH]; intros index candidates; simpl; [done|].
  case_bool_decide as Hlt; [|done].
  destruct (isInvalidEquivalent candidates index
              (getRight (length candidates) index)
            || isInvalidEquivalent candidates index
                 (getLeft (length candidates) index)) eqn:Herase; [|apply IH].
  rewrite IH.
  assert (Hinvalid : valid (candidates !!! index) = false).
  { unfold isInvalidEquivalent in Herase.
    destruct (valid (candidates !!! index)); [|done].
    rewrite !orb_true_r in Herase. done. }
  destruct (lookup_lt_is_Some_2 candidates index Hlt) as [c Hc].
  rewrite (list_lookup_total_correct _ _ _ Hc) in Hinvalid.
  rewrite <- (take_drop_middle candidates index c Hc) at 2.
  rewrite delete_take_drop, !filter_app, filter_cons_False; [done|].
  by rewrite Hinvalid.
Qed.

End Erasure.

Section Origin.
Context `{toolkit : GuidanceToolkit}.

Lemma turn_validity_valid_forward this from_node turn_node only barrier onto :
  (turn_validity this from_node turn_node only barrier onto).1 = true ->
  reversed (GetEdgeData (m_node_based_graph this) onto) = false.
Proof.
  unfold turn_validity, check_only_restriction, check_barrier_and_uturn,
    check_turn_restricted.
  destruct (reversed (GetEdgeData (m_node_based_graph this) onto)); [|done].
  simpl. by case_match.
Qed.

Lemma getTurnCandidates_loop_origin g from_node via_eid turn_node only barrier
    edges st :
  m_node_based_graph (loop_this st) = g ->
  Forall (fun e => e ∈ GetAdjacentEdgeRange g turn_node) edges ->
  Forall (from_turn_node g turn_node) (map outline (turn_candidates st)) ->
  Forall (from_turn_node g turn_node)
    (map outline
       (turn_candidates
          (foldl (getTurnCandidates_edge from_node via_eid turn_node only
                    barrier) st edges))).
Proof.
  revert st. induction edges as [|onto edges IH]; intros st Hg Hin Hst.
  - exact Hst.
  - simpl. apply Forall_cons in Hin as [Honto Hin]. apply IH; [|done|].
    + pose proof (getTurnCandidates_edge_writes_counters from_node via_eid
                    turn_node only barrier st onto) as ((Hg' & _) & _).
      congruence.
    + unfold getTurnCandidates_edge.
      pose proof (turn_validity_valid_forward (loop_this st) from_node
                    turn_node only barrier onto) as Hv.
      destruct (turn_validity (loop_this st) from_node turn_node only barrier
                  onto) as [v this'].
      simpl. rewrite map_app. apply Forall_app. split; [done|].
      apply Forall_singleton. split; simpl; [done|].
      intros ->. rewrite <- Hg. by apply Hv.
Qed.

Lemma outline_reclassify_roundabout_entry c :
  outline (reclassify_roundabout_entry c) = outline c.
Proof. unfold reclassify_roundabout_entry. by repeat case_match. Qed.

Lemma getTurnCandidates_origin this indeterminate from_node via_eid :
  let g := m_node_based_graph this in
  Forall (from_turn_node g (GetTarget g via_eid))
    (map outline (getTurnCandidates this indeterminate from_node via_eid).1).
Proof.
  intros g. unfold getTurnCandidates. cbn [fst]. fold g.
  eapply Forall_of_sublist;
    [apply fmap_sublist, erase_invalid_equivalents_sublist|].
  rewrite sort_ByAngle_Permutation.
  match goal with
  | |- context [foldl ?f ?st ?edges] =>
      pose proof (getTurnCandidates_loop_origin g from_node via_eid
                    (GetTarget g via_eid)
                    (CheckForEmanatingIsOnlyTurn (m_restriction_map this)
                       from_node (GetTarget g via_eid))
                    (bool_decide (GetTarget g via_eid ∈ m_barrier_nodes this))
                    edges st) as H
  end.
  case_match.
  - rewrite <- list_fmap_compose.
    rewrite (list_fmap_ext _ outline) by
      (intros; apply outline_reclassify_roundabout_entry).
    apply H; [done| |done]. by apply Forall_forall.
  - apply H; [done| |done]. by apply Forall_forall.
Qed.

(** The same holds after the passes [optimizeCandidates] and
    [suppressTurns]. *)
Lemma processed_turn_candidates_origin this indeterminate node_u via_eid :
  let g := m_node_based_graph this in
  Forall (from_turn_node g (GetTarget g via_eid))
    (map outline
       (processed_turn_candidates this indeterminate node_u via_eid).1).
Proof.
  intros g. unfold processed_turn_candidates.
  pose proof (getTurnCandidates_origin this indeterminate node_u via_eid) as H.
  destruct (getTurnCandidates this indeterminate node_u via_eid)
    as [candidates this'].
  cbn [fst] in *.
  by rewrite outline_suppressTurns, outline_optimizeCandidates.
Qed.

End Origin.

(** ** Edge ids and adjacent edge ranges *)

Lemma concat_take_S {A} (l : list (list A)) (n : nat) :
  length (concat (take (S n) l))
  = (length (concat (take n l)) + length (default [] (l !! n)))%nat.
Proof.
  revert n. induction l as [|x l IH]; intros n.
  - by destruct n.
  - destruct n as [|n].
    + simpl. rewrite ?take_0. simpl. rewrite ?app_nil_r. lia.
    + change (take (S (S n)) (x :: l)) with (x :: take (S n) l).
      change (take (S n) (x :: l)) with (x :: take n l).
      simpl concat. rewrite !length_app, IH. simpl. lia.
Qed.

Lemma BeginEdges_succ g n :
  0 <= n -> BeginEdges g (n + 1) = BeginEdges g n + GetOutDegree g n.
Proof.
  intros Hn. unfold BeginEdges, GetOutDegree.
  replace (Z.to_nat (n + 1)) with (S (Z.to_nat n)) by lia.
  rewrite concat_take_S, list_lookup_total_alt. simpl. lia.
Qed.

Lemma BeginEdges_nonneg g n : 0 <= BeginEdges g n.
Proof. unfold BeginEdges. lia. Qed.

Lemma BeginEdges_mono g n m : n <= m -> BeginEdges g n <= BeginEdges g m.
Proof.
  intros Hnm. unfold BeginEdges.
  assert (Hle : (Z.to_nat n <= Z.to_nat m)%nat) by lia.
  replace (Z.to_nat m) with (Z.to_nat n + (Z.to_nat m - Z.to_nat n))%nat
    by lia.
  rewrite <- take_take_drop, concat_app, length_app. lia.
Qed.

(** The adjacent edge ranges of two nodes do not meet. *)
Lemma GetAdjacentEdgeRange_disjoint g n m e1 e2 :
  0 <= n -> 0 <= m -> n <> m ->
  e1 ∈ GetAdjacentEdgeRange g n -> e2 ∈ GetAdjacentEdgeRange g m ->
  e1 <> e2.
Proof.
  intros Hn Hm Hnm H1 H2. unfold GetAdjacentEdgeRange in *.
  apply elem_of_seqZ in H1, H2.
  pose proof (BeginEdges_succ g n Hn) as Sn.
  pose proof (BeginEdges_succ g m Hm) as Sm.
  destruct (decide (n < m)).
  - pose proof (BeginEdges_mono g (n + 1) m). lia.
  - pose proof (BeginEdges_mono g (m + 1) n). lia.
Qed.

Lemma GetAdjacentEdgeRange_nonneg g n e :
  e ∈ GetAdjacentEdgeRange g n -> 0 <= e.
Proof.
  unfold GetAdjacentEdgeRange. intros H. apply elem_of_seqZ in H.
  pose proof (BeginEdges_nonneg g n). lia.
Qed.

(** The ranges depend on the sizes of the adjacency lists only. *)
Lemma GetAdjacentEdgeRange_shape g g' n :
  map length (adjacency g') = map length (adjacency g) ->
  GetAdjacentEdgeRange g' n = GetAdjacentEdgeRange g n.
Proof.
  intros Hshape.
  assert (Hbegin : forall k, BeginEdges g' k = BeginEdges g k).
  { intros k. unfold BeginEdges.
    rewrite !length_concat, !fmap_take.
    change (length <$> adjacency g') with (map length (adjacency g')).
    change (length <$> adjacency g) with (map length (adjacency g)).
    by rewrite Hshape. }
  assert (Hdeg : GetOutDegree g' n = GetOutDegree g n).
  { unfold GetOutDegree. rewrite !list_lookup_total_alt. f_equal.
    pose proof (f_equal (fun l => l !! Z.to_nat n) Hshape) as Hn.
    simpl in Hn. rewrite !list_lookup_fmap in Hn.
    destruct (adjacency g' !! Z.to_nat n), (adjacency g !! Z.to_nat n);
      simpl in *; congruence. }
  unfold GetAdjacentEdgeRange. by rewrite Hbegin, Hdeg.
Qed.

Lemma GetNumberOfNodes_shape g g' :
  map length (adjacency g') = map length (adjacency g) ->
  GetNumberOfNodes g' = GetNumberOfNodes g.
Proof.
  intros Hshape. unfold GetNumberOfNodes.
  apply (f_equal length) in Hshape. rewrite !length_map in Hshape. lia.
Qed.

(** An edge that is not reversed lies within the edge array. *)
Lemma forward_edge_in_array g e :
  reversed (GetEdgeData g e) = false ->
  edge_array g !! Z.to_nat e = Some (GetEdge g e).
Proof.
  unfold GetEdgeData, GetEdge. rewrite list_lookup_total_alt.
  by destruct (edge_array g !! Z.to_nat e).
Qed.

Lemma map_lookup_total {A B} `{!Inhabited A} (f : A -> B) (l l' : list A) i :
  map f l' = map f l -> f (l' !!! i) = f (l !!! i).
Proof.
  intros Hmap. rewrite !list_lookup_total_alt.
  pose proof (f_equal (fun k => k !! i) Hmap) as Hi. simpl in Hi.
  change (map f l') with (f <$> l') in Hi.
  change (map f l) with (f <$> l) in Hi.
  rewrite !list_lookup_fmap in Hi.
  destruct (l' !! i), (l !! i); simpl in *; congruence.
Qed.

Lemma forward_count_take_lt edges i j e :
  (i < j)%nat -> edges !! i = Some e -> forward_edge e ->
  forward_count (take i edges) < forward_count (take j edges).
Proof.
  intros Hij Hi Hf.
  replace j with (i + (j - i))%nat at 1 by lia.
  rewrite <- take_take_drop, forward_count_app.
  destruct (j - i)%nat as [|d] eqn:Hd; [lia|].
  rewrite (drop_S _ _ _ Hi). simpl. rewrite forward_count_cons.
  unfold forward_edge in Hf. rewrite Hf.
  pose proof (forward_count_nonneg (take d (drop (S i) edges))). lia.
Qed.

(** After the renumbering two different edges that are not reversed have
    different ids. *)
Lemma renumbered_ids_differ count edges i j a b :
  i <> j ->
  renumbered count edges !! i = Some a ->
  renumbered count edges !! j = Some b ->
  forward_edge a -> forward_edge b ->
  edge_id (data a) <> edge_id (data b).
Proof.
  assert (Hlt : forall i j a b, (i < j)%nat ->
            renumbered count edges !! i = Some a ->
            renumbered count edges !! j = Some b ->
            forward_edge a -> forward_edge b ->
            edge_id (data a) < edge_id (data b)).
  { clear. intros i j a b Hij Ha Hb Hfa Hfb.
    destruct (lookup_lt_is_Some_2 edges i) as [ei Hei].
    { apply lookup_lt_Some in Ha. by rewrite renumbered_length in Ha. }
    destruct (lookup_lt_is_Some_2 edges j) as [ej Hej].
    { apply lookup_lt_Some in Hb. by rewrite renumbered_length in Hb. }
    rewrite (renumbered_lookup count edges i ei Hei) in Ha.
    rewrite (renumbered_lookup count edges j ej Hej) in Hb.
    unfold forward_edge in *.
    destruct (reversed (data ei)) eqn:Hri; simplify_eq/=; [congruence|].
    destruct (reversed (data ej)) eqn:Hrj; simplify_eq/=; [congruence|].
    pose proof (forward_count_take_lt edges i j ei Hij Hei Hri). lia. }
  intros Hij Ha Hb Hfa Hfb.
  destruct (decide (i < j)%nat).
  - pose proof (Hlt i j a b ltac:(lia) Ha Hb Hfa Hfb). lia.
  - pose proof (Hlt j i b a ltac:(lia) Hb Ha Hfb Hfa). lia.
Qed.

(** ** The generation of the expanded nodes leaves the inputs alone *)

Lemma nodes_only_refl a : nodes_only a a.
Proof. split; [apply same_inputs_refl | done]. Qed.

Lemma nodes_only_trans a b c :
  nodes_only a b -> nodes_only b c -> nodes_only a c.
Proof.
  intros (H1 & H2 & H3) (H1' & H2' & H3').
  split; [by eapply same_inputs_trans | split; congruence].
Qed.

Lemma InsertEdgeBasedNode_segments_nodes_only this forward_data reverse_data
    position_1 position_2 geometry i source_id :
  nodes_only
    (InsertEdgeBasedNode_segments this forward_data reverse_data
       position_1 position_2 geometry i source_id)
    this.
Proof.
  revert this i source_id.
  induction geometry as [|segment rest IH]; intros this i source_id; simpl.
  - apply nodes_only_refl.
  - eapply nodes_only_trans; [apply IH|].
    split; [by repeat split | done].
Qed.

Lemma InsertEdgeBasedNode_nodes_only this node_u node_v :
  nodes_only (InsertEdgeBasedNode this node_u node_v) this.
Proof.
  unfold InsertEdgeBasedNode. case_match; [apply nodes_only_refl|].
  eapply nodes_only_trans; [apply InsertEdgeBasedNode_segments_nodes_only|].
  case_match; [|apply nodes_only_refl].
  split; [by repeat split | done].
Qed.

Lemma GenerateEdgeExpandedNodes_edge_nodes_only node_u this e1 :
  nodes_only (GenerateEdgeExpandedNodes_edge node_u this e1) this.
Proof.
  unfold GenerateEdgeExpandedNodes_edge.
  repeat case_match;
    first [apply nodes_only_refl | apply InsertEdgeBasedNode_nodes_only].
Qed.

Lemma GenerateEdgeExpandedNodes_nodes_only this :
  nodes_only (GenerateEdgeExpandedNodes this) this.
Proof.
  unfold GenerateEdgeExpandedNodes.
  generalize (seqZ 0 (GetNumberOfNodes (m_node_based_graph this))).
  intros nodes. revert this.
  induction nodes as [|node_u nodes IH]; intros this; simpl.
  - apply nodes_only_refl.
  - eapply nodes_only_trans; [apply IH|].
    generalize (GetAdjacentEdgeRange (m_node_based_graph this) node_u).
    intros edges. revert this.
    induction edges as [|e edges IHe]; intros this; simpl.
    + apply nodes_only_refl.
    + eapply nodes_only_trans; [apply IHe|].
      apply GenerateEdgeExpandedNodes_edge_nodes_only.
Qed.

(** ** The expanded edges of a run *)

Section Run.
Context `{toolkit : GuidanceToolkit}.

(** Where a surviving turn comes from. *)
Lemma surviving_turns_origin this stack via turn :
  let g := m_node_based_graph this in
  (via, turn) ∈ surviving_turns this stack ->
  exists node_u,
    0 <= node_u < GetNumberOfNodes g
    /\ via ∈ GetAdjacentEdgeRange g node_u
    /\ reversed (GetEdgeData g via) = false
    /\ eid turn ∈ GetAdjacentEdgeRange g (GetTarget g via)
    /\ reversed (GetEdgeData g (eid turn)) = false.
Proof.
  intros g Hin. unfold surviving_turns in Hin.
  apply list_elem_of_In, in_flat_map in Hin as (node_u & Hu & Hin).
  apply list_elem_of_In, elem_of_seqZ in Hu.
  unfold surviving_turns_of_node in Hin.
  apply in_flat_map in Hin as (e & He & Hin).
  apply list_elem_of_In in He.
  unfold surviving_turns_of_edge in Hin. fold g in Hin.
  destruct (reversed (GetEdgeData g e)) eqn:Hr; [done|].
  apply in_map_iff in Hin as (c & [= <- <-] & Hc).
  apply list_elem_of_In, list_elem_of_filter in Hc as [Hv Hc].
  pose proof (processed_turn_candidates_origin this (stack node_u e) node_u e)
    as Horigin.
  cbv zeta in Horigin. fold g in Horigin.
  rewrite Forall_forall in Horigin.
  destruct (Horigin (outline c)) as [Hrange Hforward].
  { apply list_elem_of_fmap. by exists c. }
  exists node_u. split; [unfold g; lia|]. split; [exact He|].
  split; [done|]. split; [exact Hrange|]. by apply Hforward.
Qed.

(** The graph after [Run_renumber] and [GenerateEdgeExpandedNodes], against
    the graph that the factory was made of. *)
Lemma prepared_graph g container barriers lights restrictions nodes profile :
  let this0 :=
    EdgeBasedGraphFactory_new g container barriers lights restrictions nodes
      profile in
  let this := GenerateEdgeExpandedNodes (Run_renumber this0) in
  let g' := m_node_based_graph this in
  GetNumberOfEdges g < 2 ^ 32 ->
  edge_array g' = renumbered 0 (edge_array g)
  /\ map length (adjacency g') = map length (adjacency g)
  /\ m_edge_based_edge_list this = []
  /\ m_traffic_lights this = lights
  /\ speed_profile this = profile.
Proof.
  intros this0 this g' Hlt.
  destruct (Run_renumber_new g container barriers lights restrictions nodes
              profile Hlt) as (nodes' & Heq & Hcat & Hlen).
  destruct (GenerateEdgeExpandedNodes_nodes_only (Run_renumber this0))
    as ((Hg & _ & _ & _ & Hl & _ & Hp) & _ & He).
  fold this in Hg, He, Hl, Hp. subst g'.
  rewrite Hg, He, Hl, Hp. unfold this0. rewrite Heq. simpl.
  unfold edge_array. simpl. done.
Qed.

(** C2 (as amended).  Run on a fresh factory over a graph whose edges join
    different nodes: every expanded edge of the edge list is the edge of a
    surviving valid turn candidate; its two forward ids are those of the via
    edge and of the edge of the candidate, and they differ.  Where the
    number that the hook returns for the candidate, cut toward zero, is an
    [int] (or the hook contributes 0), the weight is the distance of the via
    edge plus the penalties added for the turn (traffic signal, U-turn and
    that integer), in 32-bit unsigned arithmetic; and the weight is at least
    the distance of the via edge whenever the added penalties are not
    negative in sum and the total stays below 2^32. *)
Theorem C2_expanded_edge_ids_differ_and_weight_covers_distance
    g container barriers lights restrictions nodes profile lua stack
    this' file :
  let this0 :=
    EdgeBasedGraphFactory_new g container barriers lights restrictions nodes
      profile in
  let this := GenerateEdgeExpandedNodes (Run_renumber this0) in
  GetNumberOfEdges g < 2 ^ 32 ->
  edges_join_distinct_nodes g ->
  Run this0 lua stack = Some (this', file) ->
  forall k edge,
    m_edge_based_edge_list this' !! k = Some edge ->
    exists via turn,
      surviving_turns this stack !! k = Some (via, turn)
      /\ source edge = edge_id (GetEdgeData (m_node_based_graph this) via)
      /\ ebe_target edge
         = edge_id (GetEdgeData (m_node_based_graph this) (eid turn))
      /\ source edge <> ebe_target edge
      /\ forall penalty,
           hook_as_int this lua (angle turn) = Some penalty ->
           let added :=
             (if bool_decide (GetTarget g via ∈ m_traffic_lights this)
              then traffic_signal_penalty (speed_profile this) else 0)
             + (if isUturn (instruction turn)
                then u_turn_penalty (speed_profile this) else 0)
             + penalty in
           weight edge = wrap32 (distance (GetEdgeData g via) + added)
           /\ (0 <= added ->
               distance (GetEdgeData g via) + added < 2 ^ 32 ->
               weight edge >= distance (GetEdgeData g via)).
Proof.
  intros this0 this Hlt Hwf Hrun k edge Hk.
  destruct (prepared_graph g container barriers lights restrictions nodes
              profile Hlt) as (Harray & Hshape & Hempty & _).
  fold this0 this in Harray, Hshape, Hempty.
  set (g' := m_node_based_graph this) in *.
  change (GenerateEdgeExpandedEdges this lua stack = Some (this', file))
    in Hrun.
  pose proof (GenerateEdgeExpandedEdges_spec this lua stack) as Hspec.
  cbv zeta in Hspec. case_bool_decide; [|congruence].
  destruct Hspec as (this'' & Heq & _ & Hedges & _).
  rewrite Heq in Hrun. injection Hrun as -> _.
  rewrite Hedges, Hempty in Hk. simpl in Hk.
  rewrite list_lookup_imap in Hk.
  destruct (surviving_turns this stack !! k) as [[via turn]|] eqn:Hturn;
    [|done].
  simpl in Hk. injection Hk as <-.
  exists via, turn. split; [done|].
  assert (Hin : (via, turn) ∈ surviving_turns this stack)
    by (by eapply list_elem_of_lookup_2).
  destruct (surviving_turns_origin this stack via turn Hin)
    as (node_u & Hu & Hvia & Hvia_forward & Honto & Honto_forward).
  fold g' in Hu, Hvia, Hvia_forward, Honto, Honto_forward.
  destruct (renumbered_shape 0 (edge_array g)) as (Htargets & _ & Hdist).
  rewrite <- Harray in Htargets, Hdist.
  assert (Htarget : GetTarget g' via = GetTarget g via).
  { unfold GetTarget, GetEdge. by apply map_lookup_total. }
  assert (Hdistance : distance (GetEdgeData g' via)
                      = distance (GetEdgeData g via)).
  { unfold GetEdgeData, GetEdge.
    by apply (map_lookup_total (fun e => distance (data e))). }
  rewrite (GetNumberOfNodes_shape g g' Hshape) in Hu.
  rewrite (GetAdjacentEdgeRange_shape g g' _ Hshape) in Hvia.
  assert (Hnodes : 0 <= GetTarget g via < GetNumberOfNodes g
                   /\ GetTarget g via <> node_u).
  { unfold edges_join_distinct_nodes in Hwf.
    rewrite Forall_forall in Hwf.
    specialize (Hwf node_u ltac:(apply elem_of_seqZ; lia)).
    rewrite Forall_forall in Hwf. by apply Hwf. }
  rewrite Htarget, (GetAdjacentEdgeRange_shape g g' _ Hshape) in Honto.
  assert (Hdiffer : via <> eid turn).
  { apply (GetAdjacentEdgeRange_disjoint g node_u (GetTarget g via));
      try done; lia. }
  pose proof (GetAdjacentEdgeRange_nonneg _ _ _ Hvia) as Hvia0.
  pose proof (GetAdjacentEdgeRange_nonneg _ _ _ Honto) as Honto0.
  pose proof (forward_edge_in_array g' via Hvia_forward) as Hvia_in.
  pose proof (forward_edge_in_array g' (eid turn) Honto_forward) as Honto_in.
  rewrite Harray in Hvia_in, Honto_in.
  split; [reflexivity|]. split; [reflexivity|]. split.
  { unfold expanded_edge. cbn [source ebe_target fst snd]. fold g'.
    apply (renumbered_ids_differ 0 (edge_array g) (Z.to_nat via)
             (Z.to_nat (eid turn)) (GetEdge g' via) (GetEdge g' (eid turn)));
      try done.
    lia. }
  intros penalty Hpenalty added.
  assert (Hweight : forall i,
            weight (expanded_edge this lua i (via, turn))
            = wrap32 (distance (GetEdgeData g via) + added)).
  { intros i. unfold expanded_edge. cbn [weight fst snd].
    rewrite turn_distance_sum. fold g'. rewrite Hdistance.
    unfold added_penalties. fold g'.
    rewrite (hook_as_int_penalty _ _ _ _ Hpenalty), Htarget. done. }
  split; [apply Hweight|].
  intros Hadded Hsum. rewrite Hweight.
  destruct (decide (0 <= distance (GetEdgeData g via))).
  - rewrite wrap32_small by lia. lia.
  - pose proof (wrap32_range (distance (GetEdgeData g via) + added)). lia.
Qed.

End Run.

(** C2 at the road that ends at a traffic light, with a profile that
    charges every turn: both expanded edges join different forward ids and
    weigh at least the 10 of their via edge. *)
Lemma C2_expanded_edge_ids_differ_and_weight_covers_distance_witness :
  match @Run Examples.through_toolkit Junctions.dead_end_factory
          Examples.charging_profile Examples.initialised with
  | Some (this', _) =>
      forall k edge,
        m_edge_based_edge_list this' !! k = Some edge ->
        source edge <> ebe_target edge /\ weight edge >= 10
  | None => False
  end.
Proof.
  destruct (@Run Examples.through_toolkit Junctions.dead_end_factory
              Examples.charging_profile Examples.initialised)
    as [[this' file]|] eqn:Hrun; [|vm_compute in Hrun; discriminate].
  intros k edge Hk.
  destruct (@C2_expanded_edge_ids_differ_and_weight_covers_distance
              Examples.through_toolkit Junctions.dead_end_graph
              (Examples.uncompressed Junctions.dead_end_graph) ∅ {[ 1 ]}
              Examples.no_restrictions Junctions.dead_end_nodes
              Examples.profile Examples.charging_profile
              Examples.initialised this' file)
    with (k := k) (edge := edge)
    as (via & turn & Hturn & _ & _ & Hdiffer & Hweight).
  - vm_compute. reflexivity.
  - apply (bool_decide_unpack
             (edges_join_distinct_nodes Junctions.dead_end_graph)).
    vm_compute. exact I.
  - exact Hrun.
  - exact Hk.
  - split; [exact Hdiffer|].
    destruct k as [|[|k]]; vm_compute in Hturn; [| |discriminate].
    + injection Hturn as <- <-.
      destruct (Hweight 3) as [_ Hcovers]; [vm_compute; reflexivity|].
      apply Hcovers; vm_compute; [discriminate|reflexivity].
    + injection Hturn as <- <-.
      destruct (Hweight 3) as [_ Hcovers]; [vm_compute; reflexivity|].
      apply Hcovers; vm_compute; [discriminate|reflexivity].
Defined.

(** C2 as stated fails where the profile grants a bonus: on the
    through-road, with a turn function that returns -5, the first expanded
    edge comes from the via edge 0, of distance 10, and has the weight
    10 + 2 - 5 = 7. *)
Lemma C2_counterexample_negative_turn_penalty :
  exists this' file edge,
    @Run Examples.through_toolkit Examples.through_factory
      Examples.rewarding_profile Examples.initialised
    = Some (this', file)
    /\ m_edge_based_edge_list this' !! 0%nat = Some edge
    /\ source edge
       = edge_id (GetEdgeData (m_node_based_graph this') 0)
    /\ distance (GetEdgeData (m_node_based_graph this') 0) = 10
    /\ weight edge = 7
    /\ ~ (weight edge >= distance (GetEdgeData (m_node_based_graph this') 0)).
Proof.
  eexists _, _, _.
  split; [vm_compute; reflexivity|].
  split; [vm_compute; reflexivity|].
  split; [vm_compute; reflexivity|].
  split; [vm_compute; reflexivity|].
  split; [vm_compute; reflexivity|].
  vm_compute. intros H. apply H. reflexivity.
Qed.

(** ** When the uninitialised flag matters *)

Section RoundaboutFlag.
Context `{toolkit : GuidanceToolkit}.

(** No turn lowers the flag and nothing else reads it: the loop of
    [getTurnCandidates] started with the flag raised ends as the loop
    started from the same state, but for the raised flag. *)
Lemma getTurnCandidates_loop_flag from_node via_eid turn_node only barrier
    edges st :
  foldl (getTurnCandidates_edge from_node via_eid turn_node only barrier)
    (with_roundabout_entry st) edges
  = with_roundabout_entry
      (foldl (getTurnCandidates_edge from_node via_eid turn_node only barrier)
         st edges).
Proof.
  revert st. induction edges as [|onto edges IH]; intros st; [done|].
  simpl. rewrite <- IH. f_equal.
  unfold getTurnCandidates_edge, with_roundabout_entry. simpl.
  destruct (turn_validity (loop_this st) from_node turn_node only barrier
              onto) as [v this'].
  simpl. f_equal. by repeat case_match.
Qed.

(** What one turn adds to the candidates and to the flags. *)
Lemma getTurnCandidates_edge_flags from_node via_eid turn_node only barrier
    st onto :
  let st' :=
    getTurnCandidates_edge from_node via_eid turn_node only barrier st onto in
  exists candidate,
    turn_candidates st' = turn_candidates st ++ [candidate]
    /\ has_roundabout_entry st'
       = has_roundabout_entry st || valid_roundabout_entry candidate
    /\ has_non_roundabout st'
       = has_non_roundabout st || valid_other_turn candidate.
Proof.
  unfold getTurnCandidates_edge.
  destruct (turn_validity (loop_this st) from_node turn_node only barrier
              onto) as [v this'].
  cbv zeta. eexists. split; [reflexivity|].
  unfold valid_roundabout_entry, valid_other_turn.
  cbn [valid instruction has_roundabout_entry has_non_roundabout].
  match goal with
  | |- context [AnalyzeTurn ?a ?b ?c ?d ?e ?f ?g] =>
      generalize (AnalyzeTurn a b c d e f g); intros turn
  end.
  destruct v, (entersRoundabout turn), (has_roundabout_entry st),
    (has_non_roundabout st); split; reflexivity.
Qed.

(** What the loop adds to the candidates and to the flags. *)
Lemma getTurnCandidates_loop_flags from_node via_eid turn_node only barrier
    edges st :
  let st' :=
    foldl (getTurnCandidates_edge from_node via_eid turn_node only barrier)
      st edges in
  exists new,
    turn_candidates st' = turn_candidates st ++ new
    /\ has_roundabout_entry st'
       = has_roundabout_entry st || existsb valid_roundabout_entry new
    /\ has_non_roundabout st'
       = has_non_roundabout st || existsb valid_other_turn new.
Proof.
  revert st. induction edges as [|onto edges IH]; intros st.
  - exists []. simpl. by rewrite app_nil_r, !orb_false_r.
  - simpl.
    destruct (IH (getTurnCandidates_edge from_node via_eid turn_node
                    only barrier st onto)) as (new & Hc & He & Hn).
    destruct (getTurnCandidates_edge_flags from_node via_eid turn_node only
                barrier st onto) as (c & Hc1 & He1 & Hn1).
    cbv zeta in Hc, He, Hn, Hc1, He1, Hn1.
    exists (c :: new).
    rewrite Hc, He, Hn, Hc1, He1, Hn1, <- app_assoc. simpl.
    by rewrite !orb_assoc.
Qed.

(** With the flag initialised to false, the reclassification runs exactly
    when the candidates hold a valid roundabout entry and a valid turn that
    enters no roundabout. *)
Lemma candidate_loop_flags this from_node via_eid :
  let st := candidate_loop this from_node via_eid in
  has_roundabout_entry st
  = existsb valid_roundabout_entry (turn_candidates st)
  /\ has_non_roundabout st = existsb valid_other_turn (turn_candidates st).
Proof.
  intros st. subst st. unfold candidate_loop.
  match goal with
  | |- context [foldl ?f ?s ?l] =>
      destruct (getTurnCandidates_loop_flags from_node via_eid
                  (GetTarget (m_node_based_graph this) via_eid)
                  (CheckForEmanatingIsOnlyTurn (m_restriction_map this)
                     from_node (GetTarget (m_node_based_graph this) via_eid))
                  (bool_decide (GetTarget (m_node_based_graph this) via_eid
                                ∈ m_barrier_nodes this))
                  l s) as (new & Hc & He & Hn)
  end.
  cbv zeta in Hc, He, Hn. rewrite Hc, He, Hn. done.
Qed.

(** The value that the uninitialised flag holds matters only when there is
    no valid roundabout entry: where there is one, or where the value read
    is false, [getTurnCandidates] returns what it returns with the flag
    initialised to false. *)
Lemma getTurnCandidates_indeterminate this indeterminate from_node via_eid :
  indeterminate = false
  \/ existsb valid_roundabout_entry
       (turn_candidates (candidate_loop this from_node via_eid)) = true ->
  getTurnCandidates this indeterminate from_node via_eid
  = getTurnCandidates this false from_node via_eid.
Proof.
  intros [->|Hentry]; [done|].
  destruct indeterminate; [|done].
  destruct (candidate_loop_flags this from_node via_eid) as [He _].
  cbv zeta in He. rewrite Hentry in He.
  unfold getTurnCandidates.
  change {| loop_this := this; has_non_roundabout := false;
            has_roundabout_entry := true; turn_candidates := [] |}
    with (with_roundabout_entry
            {| loop_this := this; has_non_roundabout := false;
               has_roundabout_entry := false; turn_candidates := [] |}).
  rewrite getTurnCandidates_loop_flag.
  fold (candidate_loop this from_node via_eid).
  unfold with_roundabout_entry. cbn [loop_this has_non_roundabout
    has_roundabout_entry turn_candidates].
  rewrite He. reflexivity.
Qed.

(** Where the candidates hold a valid roundabout entry and a valid turn
    that enters no roundabout, the candidates are reclassified before they
    are sorted, whatever the uninitialised flag held. *)
Lemma getTurnCandidates_reclassifies this indeterminate from_node via_eid :
  let st := candidate_loop this from_node via_eid in
  let candidates :=
    sort_ByAngle (map reclassify_roundabout_entry (turn_candidates st)) in
  existsb valid_roundabout_entry (turn_candidates st) = true ->
  existsb valid_other_turn (turn_candidates st) = true ->
  (getTurnCandidates this indeterminate from_node via_eid).1
  = erase_invalid_equivalents (length candidates) 0 candidates.
Proof.
  intros st candidates Hentry Hother.
  rewrite getTurnCandidates_indeterminate by (right; exact Hentry).
  destruct (candidate_loop_flags this from_node via_eid) as [He Hn].
  cbv zeta in He, Hn. fold st in He, Hn.
  unfold getTurnCandidates. fold (candidate_loop this from_node via_eid).
  fold st. rewrite He, Hn, Hentry, Hother. reflexivity.
Qed.

(** With the flag initialised to false and no valid roundabout entry, no
    candidate is reclassified. *)
Lemma getTurnCandidates_initialised this from_node via_eid :
  let st := candidate_loop this from_node via_eid in
  let candidates := sort_ByAngle (turn_candidates st) in
  existsb valid_roundabout_entry (turn_candidates st) = false ->
  (getTurnCandidates this false from_node via_eid).1
  = erase_invalid_equivalents (length candidates) 0 candidates.
Proof.
  intros st candidates Hentry.
  destruct (candidate_loop_flags this from_node via_eid) as [He _].
  cbv zeta in He. fold st in He.
  unfold getTurnCandidates. fold (candidate_loop this from_node via_eid).
  fold st. rewrite He, Hentry, andb_false_r. reflexivity.
Qed.

(** The reclassification leaves no plain entry, provided the predicate
    [entersRoundabout] holds of the two plain entry types. *)
Lemma reclassify_roundabout_entry_type candidate :
  (forall i,
     type i = TurnType.EnterRoundabout \/ type i = TurnType.EnterRotary ->
     entersRoundabout i = true) ->
  type (instruction (reclassify_roundabout_entry candidate))
  <> TurnType.EnterRoundabout
  /\ type (instruction (reclassify_roundabout_entry candidate))
     <> TurnType.EnterRotary.
Proof.
  intros Henters. unfold reclassify_roundabout_entry.
  destruct (entersRoundabout (instruction candidate)) eqn:He.
  - repeat case_bool_decide; simpl in *; split; congruence.
  - split; intros Hty; rewrite Henters in He by auto; discriminate.
Qed.

End RoundaboutFlag.

(** ** The loops of [optimizeCandidates] end by themselves *)

Section ConflictLoops.
Context `{toolkit : GuidanceToolkit}.

(** The [while] loop stops when the region covers the vector: with
    [size - conflict_size] iterations to go, more fuel changes nothing. *)
Lemma extend_conflict_fuel fuel extra candidates turn_index conflict_end
    conflict_size :
  (length candidates - conflict_size <= fuel)%nat ->
  extend_conflict (fuel + extra) candidates turn_index conflict_end
    conflict_size
  = extend_conflict fuel candidates turn_index conflict_end conflict_size.
Proof.
  revert conflict_end conflict_size.
  induction fuel as [|fuel IH]; intros conflict_end conflict_size Hfuel.
  - destruct extra as [|extra]; simpl; [done|].
    rewrite (bool_decide_eq_false_2 (conflict_size < _)%nat) by lia.
    by rewrite andb_false_r.
  - simpl. case_match; [|done]. apply IH. lia.
Qed.

(** The body of the [for] loop never moves [turn_index] back. *)
Lemma optimizeCandidates_turn_index candidates turn_index :
  (turn_index < length candidates)%nat ->
  (turn_index <= (optimizeCandidates_turn candidates turn_index).1)%nat.
Proof.
  intros Hlt. unfold optimizeCandidates_turn.
  repeat (case_match; simplify_eq/=); try case_bool_decide; lia.
Qed.

(** The [for] loop ends when [turn_index] reaches the size: with
    [size - turn_index] iterations to go, more fuel changes nothing. *)
Lemma optimizeCandidates_loop_fuel fuel extra turn_index candidates :
  (length candidates - turn_index <= fuel)%nat ->
  optimizeCandidates_loop (fuel + extra) turn_index candidates
  = optimizeCandidates_loop fuel turn_index candidates.
Proof.
  revert turn_index candidates.
  induction fuel as [|fuel IH]; intros turn_index candidates Hfuel.
  - destruct extra as [|extra]; simpl; [done|].
    by rewrite bool_decide_eq_false_2 by lia.
  - simpl. case_bool_decide as Hlt; [|done].
    pose proof (optimizeCandidates_turn_index candidates turn_index Hlt)
      as Hindex.
    pose proof (f_equal length
                  (outline_optimizeCandidates_turn candidates turn_index))
      as Hlength.
    rewrite !length_map in Hlength.
    destruct (optimizeCandidates_turn candidates turn_index) as [i c].
    simpl in Hindex, Hlength. apply IH. lia.
Qed.

End ConflictLoops.

(** * Further properties *)

(** ** The expanded nodes of an edge pair *)

(** The nodes that the loop over the geometry appends, one per segment. *)
Lemma InsertEdgeBasedNode_segments_nodes this forward_data reverse_data
    position_1 position_2 geometry i source_id :
  let this' :=
    InsertEdgeBasedNode_segments this forward_data reverse_data
      position_1 position_2 geometry i source_id in
  exists added,
    m_edge_based_node_list this' = m_edge_based_node_list this ++ added
    /\ m_edge_based_node_is_startpoint this'
       = m_edge_based_node_is_startpoint this
         ++ replicate (length geometry)
              (startpoint forward_data || startpoint reverse_data)
    /\ length added = length geometry
    /\ forall k node,
         added !! k = Some node ->
         v node = geometry_node_id (geometry !!! k)
         /\ u node = match k with
                     | O => source_id
                     | S k' => geometry_node_id (geometry !!! k')
                     end
         /\ fwd_segment_position node = i + Z.of_nat k
         /\ forward_edge_based_node_id node = edge_id forward_data
         /\ reverse_edge_based_node_id node = edge_id reverse_data.
Proof.
  revert this i source_id.
  induction geometry as [|segment rest IH]; intros this i source_id; simpl.
  - exists []. rewrite !app_nil_r. repeat split; try done.
  - match goal with
    | |- context [InsertEdgeBasedNode_segments ?t _ _ _ _ rest ?j ?s] =>
        destruct (IH t j s) as (added & Hn & Hs & Hl & Hk)
    end.
    simpl in Hn, Hs. rewrite <- app_assoc in Hn, Hs.
    eexists (_ :: added). split; [exact Hn|]. split; [exact Hs|].
    split; [simpl; by rewrite Hl|].
    intros [|k] node Hnode; simpl in Hnode.
    + injection Hnode as <-. simpl. repeat split; lia.
    + destruct (Hk k node Hnode) as (Hv & Hu & Hp & Hf & Hr).
      simpl. repeat split; [exact Hv | | lia | exact Hf | exact Hr].
      destruct k; exact Hu.
Qed.

(** X1.  [InsertEdgeBasedNode(node_u, node_v)], when at least one side of
    the pair is routable, appends one node per element of the geometry of
    the forward edge, and the nodes form a path: the first starts at
    [node_u], every node ends at the coordinate of its geometry element, and
    every further node starts where the one before ends.  Segment [k] has
    [fwd_segment_position] [k], all nodes carry the two edge ids of the
    pair, and one start-point marker is appended per node. *)
Theorem X1_segments_of_a_pair_form_a_path this node_u node_v :
  let g := m_node_based_graph this in
  let edge_id_1 := FindEdge g node_u node_v in
  let edge_id_2 := FindEdge g node_v node_u in
  let geometry :=
    GetBucketReference (m_compressed_edge_container this) edge_id_1 in
  let this' := InsertEdgeBasedNode this node_u node_v in
  edge_id (GetEdgeData g edge_id_1) <> SPECIAL_NODEID
  \/ edge_id (GetEdgeData g edge_id_2) <> SPECIAL_NODEID ->
  exists added,
    m_edge_based_node_list this' = m_edge_based_node_list this ++ added
    /\ length added = length geometry
    /\ length (m_edge_based_node_is_startpoint this')
       = (length (m_edge_based_node_is_startpoint this)
          + length geometry)%nat
    /\ (forall node, added !! 0%nat = Some node -> u node = node_u)
    /\ (forall k node next,
          added !! k = Some node -> added !! S k = Some next ->
          u next = v node)
    /\ (forall k node,
          added !! k = Some node ->
          v node = geometry_node_id (geometry !!! k)
          /\ fwd_segment_position node = Z.of_nat k
          /\ forward_edge_based_node_id node
             = edge_id (GetEdgeData g edge_id_1)
          /\ reverse_edge_based_node_id node
             = edge_id (GetEdgeData g edge_id_2)).
Proof.
  intros g edge_id_1 edge_id_2 geometry this' Hroutable. subst this'.
  unfold InsertEdgeBasedNode. fold g. fold edge_id_1. fold edge_id_2.
  assert (Hnot : bool_decide (edge_id (GetEdgeData g edge_id_1)
                              = SPECIAL_NODEID)
                 && bool_decide (edge_id (GetEdgeData g edge_id_2)
                                 = SPECIAL_NODEID) = false).
  { destruct Hroutable as [H|H]; rewrite (bool_decide_eq_false_2 _ H);
      [done | by rewrite andb_false_r]. }
  rewrite Hnot.
  assert (Hsegments :
    forall t,
      m_edge_based_node_list t = m_edge_based_node_list this ->
      m_edge_based_node_is_startpoint t
      = m_edge_based_node_is_startpoint this ->
      m_compressed_edge_container t = m_compressed_edge_container this ->
      let t' :=
        InsertEdgeBasedNode_segments t (GetEdgeData g edge_id_1)
          (GetEdgeData g edge_id_2)
          (GetPositionForID (m_compressed_edge_container t) edge_id_1)
          (GetPositionForID (m_compressed_edge_container t) edge_id_2)
          (GetBucketReference (m_compressed_edge_container t) edge_id_1)
          0 node_u in
      exists added,
        m_edge_based_node_list t' = m_edge_based_node_list this ++ added
        /\ m_edge_based_node_is_startpoint t'
           = m_edge_based_node_is_startpoint this
             ++ replicate (length geometry)
                  (startpoint (GetEdgeData g edge_id_1)
                   || startpoint (GetEdgeData g edge_id_2))
        /\ length added = length geometry
        /\ forall k node,
             added !! k = Some node ->
             v node = geometry_node_id (geometry !!! k)
             /\ u node = match k with
                         | O => node_u
                         | S k' => geometry_node_id (geometry !!! k')
                         end
             /\ fwd_segment_position node = 0 + Z.of_nat k
             /\ forward_edge_based_node_id node
                = edge_id (GetEdgeData g edge_id_1)
             /\ reverse_edge_based_node_id node
                = edge_id (GetEdgeData g edge_id_2)).
  { intros t Hlist Hmark Hcontainer. rewrite Hcontainer, <- Hlist, <- Hmark.
    apply InsertEdgeBasedNode_segments_nodes. }
  match goal with
  | |- context [InsertEdgeBasedNode_segments ?t _ _ _ _ _ _ _] =>
      destruct (Hsegments t) as (added & Hn & Hs & Hl & Hk);
        [by case_match | by case_match | by case_match |]
  end.
  exists added. split; [exact Hn|]. split; [exact Hl|].
  split; [by rewrite Hs, length_app, length_replicate|].
  split; [|split].
  - intros node Hnode. by destruct (Hk 0%nat node Hnode) as (_ & Hu & _).
  - intros k node next Hnode Hnext.
    destruct (Hk k node Hnode) as (Hv & _).
    destruct (Hk (S k) next Hnext) as (_ & Hu & _).
    by rewrite Hu, Hv.
  - intros k node Hnode.
    destruct (Hk k node Hnode) as (Hv & _ & Hp & Hf & Hr).
    repeat split; [exact Hv | lia | exact Hf | exact Hr].
Qed.

(** X1 at the one-way street of the junction example: the pair of the
    nodes 0 and 1 gives one node from node 0 to node 1. *)
Lemma X1_segments_of_a_pair_form_a_path_witness :
  let this := Run_renumber Examples.oneway_factory in
  exists added,
    m_edge_based_node_list (InsertEdgeBasedNode this 0 1)
    = m_edge_based_node_list this ++ added
    /\ length added = 1%nat
    /\ (forall node, added !! 0%nat = Some node -> u node = 0).
Proof.
  intros this.
  destruct (X1_segments_of_a_pair_form_a_path this 0 1)
    as (added & Hn & Hl & _ & Hu & _).
  - left. vm_compute. discriminate.
  - exists added. split; [exact Hn|]. split; [exact Hl | exact Hu].
Defined.

(** ** The expanded nodes of a run *)

Lemma lists_in_step_refl a : lists_in_step a a.
Proof. split; reflexivity. Qed.

Lemma lists_in_step_trans a b c :
  lists_in_step a b -> lists_in_step b c -> lists_in_step a c.
Proof. unfold lists_in_step. intros [H1 H2] [H3 H4]. split; lia. Qed.

Lemma InsertEdgeBasedNode_lists_in_step this node_u node_v :
  lists_in_step (InsertEdgeBasedNode this node_u node_v) this.
Proof.
  unfold InsertEdgeBasedNode. case_match; [apply lists_in_step_refl|].
  match goal with
  | |- context [InsertEdgeBasedNode_segments ?t ?f ?r ?p1 ?p2 ?geo ?i ?s] =>
      destruct (InsertEdgeBasedNode_segments_frame t f r p1 p2 geo i s)
        as (Hw & _ & _ & _ & Hn & Hs)
  end.
  split.
  - rewrite Hn, Hs. case_match; simpl; lia.
  - rewrite Hw. case_match; simpl; [apply length_insert | done].
Qed.

Lemma GenerateEdgeExpandedNodes_lists_in_step this :
  lists_in_step (GenerateEdgeExpandedNodes this) this.
Proof.
  unfold GenerateEdgeExpandedNodes.
  generalize (seqZ 0 (GetNumberOfNodes (m_node_based_graph this))).
  intros nodes. revert this.
  induction nodes as [|node_u nodes IH]; intros this; simpl.
  - apply lists_in_step_refl.
  - eapply lists_in_step_trans; [apply IH|].
    generalize (GetAdjacentEdgeRange (m_node_based_graph this) node_u).
    intros edges. revert this.
    induction edges as [|e edges IHe]; intros this; simpl.
    + apply lists_in_step_refl.
    + eapply lists_in_step_trans; [apply IHe|].
      unfold GenerateEdgeExpandedNodes_edge.
      repeat case_match;
        first [apply lists_in_step_refl
              | apply InsertEdgeBasedNode_lists_in_step].
Qed.

(** The forward id of the nodes that [InsertEdgeBasedNode] appends. *)
Lemma InsertEdgeBasedNode_forward_ids this node_u node_v :
  let g := m_node_based_graph this in
  exists added,
    m_edge_based_node_list (InsertEdgeBasedNode this node_u node_v)
    = m_edge_based_node_list this ++ added
    /\ (added <> [] ->
        edge_id (GetEdgeData g (FindEdge g node_u node_v)) <> SPECIAL_NODEID
        \/ edge_id (GetEdgeData g (FindEdge g node_v node_u))
           <> SPECIAL_NODEID)
    /\ Forall
         (fun node =>
            forward_edge_based_node_id node
            = edge_id (GetEdgeData g (FindEdge g node_u node_v))
            /\ reverse_edge_based_node_id node
               = edge_id (GetEdgeData g (FindEdge g node_v node_u)))
         added.
Proof.
  intros g. unfold InsertEdgeBasedNode. fold g.
  destruct (bool_decide (edge_id (GetEdgeData g (FindEdge g node_u node_v))
                         = SPECIAL_NODEID)
            && bool_decide (edge_id (GetEdgeData g (FindEdge g node_v node_u))
                            = SPECIAL_NODEID)) eqn:Hboth.
  - exists []. rewrite app_nil_r. repeat split; done.
  - match goal with
    | |- context [InsertEdgeBasedNode_segments ?t ?f ?r ?p1 ?p2 ?geo ?i ?s] =>
        destruct (InsertEdgeBasedNode_segments_nodes t f r p1 p2 geo i s)
          as (added & Hn & _ & _ & Hk);
        assert (Hlist : m_edge_based_node_list t
                        = m_edge_based_node_list this) by (by case_match)
    end.
    cbv zeta in Hn. rewrite Hlist in Hn.
    exists added. split; [exact Hn|]. split.
    + intros _. apply andb_false_iff in Hboth.
      destruct Hboth as [H|H]; apply bool_decide_eq_false in H; auto.
    + apply Forall_lookup. intros k node Hnode.
      destruct (Hk k node Hnode) as (_ & _ & _ & Hf & Hr). by split.
Qed.

(** X2.  In the loop of [GenerateEdgeExpandedNodes], for an edge [e1] that
    [FindEdge] finds between its two nodes, every node that the iteration
    appends has a forward id that [RenumberEdges] has assigned: where [e1]
    itself has none, the pair is inserted the other way round, and a pair
    without any id is skipped. *)
Theorem X2_expanded_nodes_have_a_forward_id this node_u e1 :
  let g := m_node_based_graph this in
  FindEdge g node_u (GetTarget g e1) = e1 ->
  exists added,
    m_edge_based_node_list (GenerateEdgeExpandedNodes_edge node_u this e1)
    = m_edge_based_node_list this ++ added
    /\ Forall
         (fun node => forward_edge_based_node_id node <> SPECIAL_NODEID)
         added.
Proof.
  intros g Hfind. unfold GenerateEdgeExpandedNodes_edge. fold g.
  case_bool_decide as Hgt.
  { exists []. by rewrite app_nil_r. }
  case_bool_decide as Hid.
  - destruct (InsertEdgeBasedNode_forward_ids this (GetTarget g e1) node_u)
      as (added & Hn & Hsome & Hids).
    fold g in Hn, Hsome, Hids. rewrite Hfind in Hsome, Hids.
    exists added. split; [exact Hn|].
    destruct added as [|node added]; [constructor|].
    destruct Hsome as [Hforward|Hreverse]; [done | | done].
    eapply Forall_impl; [exact Hids|].
    intros n [Hf _]. by rewrite Hf.
  - destruct (InsertEdgeBasedNode_forward_ids this node_u (GetTarget g e1))
      as (added & Hn & _ & Hids).
    fold g in Hn, Hids. rewrite Hfind in Hids.
    exists added. split; [exact Hn|].
    eapply Forall_impl; [exact Hids|].
    intros n [Hf _]. by rewrite Hf.
Qed.

(** X2 at the one-way street of the junction example, for the edge 0 out
    of node 0. *)
Lemma X2_expanded_nodes_have_a_forward_id_witness :
  let this := Run_renumber Examples.oneway_factory in
  exists added,
    m_edge_based_node_list (GenerateEdgeExpandedNodes_edge 0 this 0)
    = m_edge_based_node_list this ++ added
    /\ Forall
         (fun node => forward_edge_based_node_id node <> SPECIAL_NODEID)
         added.
Proof.
  apply (X2_expanded_nodes_have_a_forward_id
           (Run_renumber Examples.oneway_factory) 0 0).
  vm_compute. reflexivity.
Defined.

Section RunResults.
Context `{toolkit : GuidanceToolkit}.

(** What a call of [GenerateEdgeExpandedEdges] that returns has done. *)
Lemma GenerateEdgeExpandedEdges_some this lua stack this' file :
  GenerateEdgeExpandedEdges this lua stack = Some (this', file) ->
  let turns := surviving_turns this stack in
  Z.of_nat (length turns) < 2 ^ 32
  /\ file = {| length_prefix := Z.of_nat (length turns);
               file_records := map (original_edge_data this) turns |}
  /\ same_inputs this' this
  /\ m_edge_based_edge_list this'
     = m_edge_based_edge_list this
       ++ imap (fun k => expanded_edge this lua
                           (length (m_edge_based_edge_list this) + k))
               turns
  /\ m_max_edge_id this' = m_max_edge_id this
  /\ m_edge_based_node_weights this' = m_edge_based_node_weights this
  /\ m_edge_based_node_list this' = m_edge_based_node_list this
  /\ m_edge_based_node_is_startpoint this'
     = m_edge_based_node_is_startpoint this.
Proof.
  intros Hrun turns.
  pose proof (GenerateEdgeExpandedEdges_spec this lua stack) as Hspec.
  cbv zeta in Hspec. fold turns in Hspec.
  case_bool_decide as Hfits; [|congruence].
  destruct Hspec as (this'' & Heq & Hrest).
  rewrite Hrun in Heq. injection Heq as -> ->.
  split; [exact Hfits|]. split; [reflexivity | exact Hrest].
Qed.

(** X3.  After a run on a fresh object the closing assertions of
    [GenerateEdgeExpandedNodes] hold of what the accessors hand out:
    [GetEdgeBasedNodes] and [GetStartPointMarkers] give vectors of the same
    size, and [GetEdgeBasedNodeWeights] gives as many weights as
    [GetHighestEdgeID() + 1], computed in 32-bit unsigned arithmetic as the
    assertion does (on a graph without forward edges the highest id is
    2^32 - 1 and there is no weight). *)
Theorem X3_results_of_a_run_agree_in_size
    g container barriers lights restrictions nodes profile lua stack
    this' file :
  let this0 :=
    EdgeBasedGraphFactory_new g container barriers lights restrictions nodes
      profile in
  GetNumberOfEdges g < 2 ^ 32 ->
  Run this0 lua stack = Some (this', file) ->
  length (GetEdgeBasedNodes this' []).2
  = length (GetStartPointMarkers this' []).2
  /\ Z.of_nat (length (GetEdgeBasedNodeWeights this' []).2)
     = wrap32 (GetHighestEdgeID this' + 1).
Proof.
  intros this0 Hlt Hrun. unfold Run in Hrun.
  apply GenerateEdgeExpandedEdges_some in Hrun.
  destruct Hrun as (_ & _ & _ & _ & Hmax & Hweights & Hnodes & Hmarkers).
  unfold GetEdgeBasedNodes, GetStartPointMarkers, GetEdgeBasedNodeWeights,
    GetHighestEdgeID. cbn [snd].
  rewrite Hmax, Hweights, Hnodes, Hmarkers.
  destruct (GenerateEdgeExpandedNodes_lists_in_step (Run_renumber this0))
    as [Hstep Hsize].
  destruct (GenerateEdgeExpandedNodes_nodes_only (Run_renumber this0))
    as (_ & Hsame & _).
  destruct (Run_renumber_new g container barriers lights restrictions nodes
              profile Hlt) as (nodes' & Heq & _).
  pose proof (forward_count_le_length (edge_array g)) as Hle.
  pose proof (forward_count_nonneg (edge_array g)) as Hge.
  unfold GetNumberOfEdges in Hlt.
  fold this0 in Heq. rewrite Hsame, Hsize. rewrite Heq in Hstep |- *.
  simpl in Hstep |- *. split; [lia|].
  rewrite length_map, wrap32_add_l.
  replace (forward_count (edge_array g) - 1 + 1)
    with (forward_count (edge_array g)) by lia.
  rewrite wrap32_small by lia. reflexivity.
Qed.

End RunResults.

(** X3 at the through-road. *)
Lemma X3_results_of_a_run_agree_in_size_witness :
  match @Run Examples.through_toolkit Examples.through_factory
          Examples.charging_profile Examples.initialised with
  | Some (this', _) =>
      length (GetEdgeBasedNodes this' []).2
      = length (GetStartPointMarkers this' []).2
      /\ Z.of_nat (length (GetEdgeBasedNodeWeights this' []).2)
         = wrap32 (GetHighestEdgeID this' + 1)
  | None => False
  end.
Proof.
  destruct (@Run Examples.through_toolkit Examples.through_factory
              Examples.charging_profile Examples.initialised)
    as [[this' file]|] eqn:Hrun; [|vm_compute in Hrun; discriminate].
  apply (@X3_results_of_a_run_agree_in_size
           Examples.through_toolkit Examples.through_graph
           (Examples.uncompressed Examples.through_graph) ∅ {[ 1 ]}
           Examples.no_restrictions Examples.through_nodes
           Examples.profile Examples.charging_profile
           Examples.initialised this' file).
  - vm_compute. reflexivity.
  - exact Hrun.
Defined.

(** ** The validity checks of a candidate *)

(** [turn_is_valid] at the end of the checks, in one expression. *)
Lemma turn_validity_valid this from_node turn_node only is_barrier_node onto :
  let g := m_node_based_graph this in
  let to_node := GetTarget g onto in
  (turn_validity this from_node turn_node only is_barrier_node onto).1
  = negb (reversed (GetEdgeData g onto))
    && negb (bool_decide (only <> SPECIAL_NODEID)
             && bool_decide (to_node <> only))
    && (if is_barrier_node then bool_decide (from_node = to_node)
        else negb (bool_decide (from_node = to_node)
                   && bool_decide (GetOutDegree g turn_node > 1)
                   && bool_decide
                        (number_of_emmiting_bidirectional_edges g turn_node
                         > 1)))
    && negb (CheckIfTurnIsRestricted (m_restriction_map this)
               from_node turn_node to_node
             && bool_decide (only = SPECIAL_NODEID)
             && bool_decide (to_node <> only)).
Proof.
  intros g to_node.
  unfold turn_validity, check_only_restriction, check_barrier_and_uturn,
    check_turn_restricted, increment_restricted_turns_counter,
    increment_skipped_uturns_counter, increment_skipped_barrier_turns_counter.
  fold g. fold to_node.
  destruct (reversed (GetEdgeData g onto)), is_barrier_node;
    repeat (case_bool_decide; simpl; try done; try congruence);
    repeat (case_match; simpl in *; try done; try congruence).
Qed.

(** X4.  At a barrier node the only candidate that can be valid is the
    U-turn: a valid candidate leads back to [from_node].  A candidate to
    another node that reaches the barrier check (its edge is not reversed
    and no only_-restriction has excluded it) is invalid and counted in
    [skipped_barrier_turns_counter]. *)
Theorem X4_only_the_uturn_passes_a_barrier
    this from_node turn_node only onto :
  let g := m_node_based_graph this in
  let to_node := GetTarget g onto in
  let result := turn_validity this from_node turn_node only true onto in
  (result.1 = true -> to_node = from_node)
  /\ (reversed (GetEdgeData g onto) = false ->
      only = SPECIAL_NODEID \/ to_node = only ->
      to_node <> from_node ->
      result.1 = false
      /\ skipped_barrier_turns_counter result.2
         = skipped_barrier_turns_counter this + 1).
Proof.
  intros g to_node result. split.
  - subst result. rewrite turn_validity_valid. fold g. fold to_node.
    intros Hvalid. repeat (apply andb_true_iff in Hvalid as [Hvalid ?]).
    symmetry. by eapply bool_decide_eq_true_1.
  - intros Hforward Honly Hother. subst result.
    unfold turn_validity, check_only_restriction, check_barrier_and_uturn,
      check_turn_restricted, increment_restricted_turns_counter,
      increment_skipped_uturns_counter,
      increment_skipped_barrier_turns_counter.
    fold g. fold to_node. rewrite Hforward. simpl.
    assert (Hpass : bool_decide (only <> SPECIAL_NODEID)
                    && bool_decide (to_node <> only) = false).
    { destruct Honly as [->| ->].
      - by rewrite (bool_decide_eq_false_2 (_ <> _)) by tauto.
      - rewrite (bool_decide_eq_false_2 (only <> only)) by tauto.
        by rewrite andb_false_r. }
    rewrite Hpass. simpl.
    rewrite (bool_decide_eq_true_2 (from_node <> to_node)) by congruence.
    simpl. by case_match.
Qed.

(** X5.  Where an only_-restriction emanates from [(from_node, turn_node)],
    a valid candidate leads to the node of the restriction, and a candidate
    on an edge that is not reversed to any other node is invalid and counted
    once in [restricted_turns_counter]. *)
Theorem X5_only_turn_admits_its_target_alone
    this from_node turn_node only is_barrier_node onto :
  let g := m_node_based_graph this in
  let to_node := GetTarget g onto in
  let result :=
    turn_validity this from_node turn_node only is_barrier_node onto in
  only <> SPECIAL_NODEID ->
  (result.1 = true -> to_node = only)
  /\ (reversed (GetEdgeData g onto) = false -> to_node <> only ->
      result.1 = false
      /\ restricted_turns_counter result.2
         = restricted_turns_counter this + 1
      /\ skipped_uturns_counter result.2 = skipped_uturns_counter this
      /\ skipped_barrier_turns_counter result.2
         = skipped_barrier_turns_counter this).
Proof.
  intros g to_node result Honly. split.
  - subst result. rewrite turn_validity_valid. fold g. fold to_node.
    intros Hvalid. repeat (apply andb_true_iff in Hvalid as [Hvalid ?]).
    rewrite (bool_decide_eq_true_2 _ Honly) in *. simpl in *.
    destruct (decide (to_node = only)) as [|Hne]; [done|].
    by rewrite (bool_decide_eq_true_2 _ Hne) in *.
  - intros Hforward Hother. subst result.
    unfold turn_validity, check_only_restriction, check_barrier_and_uturn,
      check_turn_restricted, increment_restricted_turns_counter,
      increment_skipped_uturns_counter,
      increment_skipped_barrier_turns_counter.
    fold g. fold to_node. rewrite Hforward. simpl.
    rewrite (bool_decide_eq_true_2 _ Honly),
      (bool_decide_eq_true_2 _ Hother). simpl.
    rewrite (bool_decide_eq_false_2 (only = SPECIAL_NODEID)) by done.
    by rewrite andb_false_r.
Qed.

(** X4 at the through-road with a barrier at node 1: the turn ahead, from
    node 0 onto the edge 2, is skipped and counted. *)
Lemma X4_only_the_uturn_passes_a_barrier_witness :
  let this := Examples.prepared Junctions.barrier_factory in
  let result := turn_validity this 0 1 SPECIAL_NODEID true 2 in
  result.1 = false
  /\ skipped_barrier_turns_counter result.2
     = skipped_barrier_turns_counter this + 1.
Proof.
  intros this.
  destruct (X4_only_the_uturn_passes_a_barrier this 0 1 SPECIAL_NODEID 2)
    as [_ Hskip].
  apply Hskip.
  - vm_compute. reflexivity.
  - left. reflexivity.
  - vm_compute. discriminate.
Defined.

(** X5 at the through-road with the only_-restriction from node 0 over
    node 1 to node 2: the U-turn back to node 0 is restricted. *)
Lemma X5_only_turn_admits_its_target_alone_witness :
  let this := Examples.prepared Junctions.only_turn_factory in
  let result := turn_validity this 0 1 2 false 1 in
  result.1 = false
  /\ restricted_turns_counter result.2 = restricted_turns_counter this + 1.
Proof.
  intros this.
  destruct (X5_only_turn_admits_its_target_alone this 0 1 2 false 1)
    as [_ Hskip].
  - vm_compute. discriminate.
  - destruct Hskip as (Hvalid & Hcount & _).
    + vm_compute. reflexivity.
    + vm_compute. discriminate.
    + split; [exact Hvalid | exact Hcount].
Defined.

(** X6.  The U-turn at the end of a dead-end street is kept: where the
    turn node is no barrier and has at most one outgoing edge, the candidate
    back to [from_node] on an edge that is not reversed is valid, unless an
    only_-restriction or the restriction query excludes it, and no counter
    changes. *)
Theorem X6_dead_end_keeps_its_uturn this from_node turn_node only onto :
  let g := m_node_based_graph this in
  let result := turn_validity this from_node turn_node only false onto in
  GetTarget g onto = from_node ->
  reversed (GetEdgeData g onto) = false ->
  GetOutDegree g turn_node <= 1 ->
  only = SPECIAL_NODEID \/ only = from_node ->
  CheckIfTurnIsRestricted (m_restriction_map this)
    from_node turn_node from_node = false ->
  result = (true, this).
Proof.
  intros g result Hto Hforward Hdegree Honly Hfree. subst result.
  unfold turn_validity, check_only_restriction, check_barrier_and_uturn,
    check_turn_restricted.
  fold g. rewrite Hto, Hforward. simpl.
  assert (Hpass : bool_decide (only <> SPECIAL_NODEID)
                  && bool_decide (from_node <> only) = false).
  { destruct Honly as [->| ->].
    - by rewrite (bool_decide_eq_false_2 (_ <> _)) by tauto.
    - rewrite (bool_decide_eq_false_2 (from_node <> from_node)) by tauto.
      by rewrite andb_false_r. }
  rewrite Hpass. simpl.
  rewrite (bool_decide_eq_false_2 (GetOutDegree g turn_node > 1)) by lia.
  rewrite andb_false_r. simpl. by rewrite Hfree.
Qed.

(** X6 at the end of the through-road: at node 2, reached from node 1,
    the only edge leads back. *)
Lemma X6_dead_end_keeps_its_uturn_witness :
  let this := Examples.prepared Examples.through_factory in
  turn_validity this 1 2 SPECIAL_NODEID false 3 = (true, this).
Proof.
  intros this.
  apply (X6_dead_end_keeps_its_uturn this 1 2 SPECIAL_NODEID 3).
  - vm_compute. reflexivity.
  - vm_compute. reflexivity.
  - vm_compute. discriminate.
  - left. reflexivity.
  - vm_compute. reflexivity.
Defined.

(** X7.  The checks of one candidate count it at most once as restricted,
    and at most once as a skipped U-turn or as a skipped barrier turn, never
    as both; and whatever they count is an invalid candidate. *)
Theorem X7_a_candidate_is_counted_at_most_once_per_counter
    this from_node turn_node only is_barrier_node onto :
  let result :=
    turn_validity this from_node turn_node only is_barrier_node onto in
  let restricted :=
    restricted_turns_counter result.2 - restricted_turns_counter this in
  let uturns :=
    skipped_uturns_counter result.2 - skipped_uturns_counter this in
  let barrier :=
    skipped_barrier_turns_counter result.2
    - skipped_barrier_turns_counter this in
  0 <= restricted <= 1
  /\ 0 <= uturns /\ 0 <= barrier /\ uturns + barrier <= 1
  /\ (0 < restricted + uturns + barrier -> result.1 = false).
Proof.
  unfold turn_validity, check_only_restriction, check_barrier_and_uturn,
    check_turn_restricted, increment_restricted_turns_counter,
    increment_skipped_uturns_counter, increment_skipped_barrier_turns_counter.
  destruct (reversed (GetEdgeData (m_node_based_graph this) onto)),
    is_barrier_node;
    repeat (case_bool_decide; simpl; try lia);
    repeat (case_match; simpl in *; try lia);
    repeat split; try lia; try done; intros; lia.
Qed.

(** ** The candidates that [getTurnCandidates] returns *)

Section Candidates.
Context `{toolkit : GuidanceToolkit}.

(** The loop appends one candidate per edge: its edge, its validity as the
    checks decide it, and its instruction as [AnalyzeTurn] gives it. *)
Lemma getTurnCandidates_loop_candidates this from_node via_eid turn_node only
    barrier edges st :
  same_inputs (loop_this st) this ->
  let st' :=
    foldl (getTurnCandidates_edge from_node via_eid turn_node only barrier)
      st edges in
  exists new,
    turn_candidates st' = turn_candidates st ++ new
    /\ map edge_and_validity new
       = map (fun e =>
                (e, (turn_validity this from_node turn_node only barrier
                       e).1))
             edges
    /\ Forall
         (fun c =>
            instruction c
            = AnalyzeTurn this from_node via_eid turn_node (eid c)
                (GetTarget (m_node_based_graph this) (eid c)) (angle c))
         new.
Proof.
  revert st. induction edges as [|onto edges IH]; intros st Hsame.
  - exists []. simpl. by rewrite app_nil_r.
  - simpl.
    destruct (IH (getTurnCandidates_edge from_node via_eid turn_node only
                    barrier st onto)) as (new & Hc & Hk & Hi).
    { eapply same_inputs_trans; [|exact Hsame].
      apply same_but_counters_inputs,
        getTurnCandidates_edge_writes_counters. }
    cbv zeta in Hc. rewrite Hc.
    pose proof (turn_validity_reads_inputs (loop_this st) this from_node
                  turn_node only barrier onto Hsame) as Hvalid.
    unfold getTurnCandidates_edge.
    destruct (turn_validity (loop_this st) from_node turn_node only barrier
                onto) as [valid this'].
    simpl in Hvalid. subst valid. cbn [turn_candidates].
    eexists (_ :: new). rewrite <- app_assoc. split; [reflexivity|].
    destruct Hsame as (Hg & _).
    split; [|constructor; [|exact Hi]].
    + simpl. unfold edge_and_validity at 1. simpl. by rewrite Hk.
    + simpl. rewrite Hg. apply AnalyzeTurn_reads_graph. exact Hg.
Qed.

(** The candidates of the loop, whatever the uninitialised flag held. *)
Lemma getTurnCandidates_loop_any_flag this indeterminate from_node via_eid :
  let g := m_node_based_graph this in
  let turn_node := GetTarget g via_eid in
  turn_candidates
    (foldl
       (getTurnCandidates_edge from_node via_eid turn_node
          (CheckForEmanatingIsOnlyTurn (m_restriction_map this) from_node
             turn_node)
          (bool_decide (turn_node ∈ m_barrier_nodes this)))
       {| loop_this := this; has_non_roundabout := false;
          has_roundabout_entry := indeterminate; turn_candidates := [] |}
       (GetAdjacentEdgeRange g turn_node))
  = turn_candidates (candidate_loop this from_node via_eid).
Proof.
  intros g turn_node. destruct indeterminate; [|reflexivity].
  change {| loop_this := this; has_non_roundabout := false;
            has_roundabout_entry := true; turn_candidates := [] |}
    with (with_roundabout_entry
            {| loop_this := this; has_non_roundabout := false;
               has_roundabout_entry := false; turn_candidates := [] |}).
  rewrite getTurnCandidates_loop_flag. reflexivity.
Qed.

(** What [getTurnCandidates] returns: the candidates of the loop, some or
    all of them reclassified, sorted, and without the erased ones. *)
Lemma getTurnCandidates_shape this indeterminate from_node via_eid :
  exists candidates,
    (getTurnCandidates this indeterminate from_node via_eid).1
    = erase_invalid_equivalents (length (sort_ByAngle candidates)) 0
        (sort_ByAngle candidates)
    /\ Forall2 as_left_or_reclassified candidates
         (turn_candidates (candidate_loop this from_node via_eid)).
Proof.
  unfold getTurnCandidates. cbn [fst].
  rewrite getTurnCandidates_loop_any_flag.
  eexists. split; [reflexivity|].
  case_match.
  - apply Forall2_fmap_l, Forall_Forall2_diag, Forall_forall.
    intros c _. by right.
  - apply Forall_Forall2_diag, Forall_forall. intros c _. by left.
Qed.

(** The candidates of the loop, edge by edge. *)
Lemma candidate_loop_candidates this from_node via_eid :
  let g := m_node_based_graph this in
  let turn_node := GetTarget g via_eid in
  let only :=
    CheckForEmanatingIsOnlyTurn (m_restriction_map this) from_node turn_node in
  let barrier := bool_decide (turn_node ∈ m_barrier_nodes this) in
  let candidates := turn_candidates (candidate_loop this from_node via_eid) in
  map edge_and_validity candidates
  = map (fun e =>
           (e, (turn_validity this from_node turn_node only barrier e).1))
        (GetAdjacentEdgeRange g turn_node)
  /\ Forall
       (fun c =>
          instruction c
          = AnalyzeTurn this from_node via_eid turn_node (eid c)
              (GetTarget g (eid c)) (angle c))
       candidates.
Proof.
  intros g turn_node only barrier candidates. subst candidates.
  unfold candidate_loop. fold g. fold turn_node. fold only. fold barrier.
  destruct (getTurnCandidates_loop_candidates this from_node via_eid turn_node
              only barrier (GetAdjacentEdgeRange g turn_node)
              {| loop_this := this; has_non_roundabout := false;
                 has_roundabout_entry := false; turn_candidates := [] |})
    as (new & Hc & Hk & Hi); [apply same_inputs_refl|].
  cbv zeta in Hc. rewrite Hc. simpl. split; [exact Hk | exact Hi].
Qed.

Lemma edge_and_validity_reclassified c' c :
  as_left_or_reclassified c' c -> edge_and_validity c' = edge_and_validity c.
Proof.
  intros [->| ->]; [done|].
  pose proof (outline_reclassify_roundabout_entry c) as H.
  unfold outline in H. unfold edge_and_validity. congruence.
Qed.

Lemma edge_and_validity_reclassified_list candidates' candidates :
  Forall2 as_left_or_reclassified candidates' candidates ->
  map edge_and_validity candidates' = map edge_and_validity candidates.
Proof.
  induction 1 as [|c' c l' l Hc _ IH]; [done|]. simpl.
  by rewrite (edge_and_validity_reclassified c' c Hc), IH.
Qed.

End Candidates.

Lemma valid_edges_of_candidates (candidates : list TurnCandidate) :
  map eid (filter (fun c => valid c = true) candidates)
  = map fst (filter (fun p : EdgeID * bool => p.2 = true)
               (map edge_and_validity candidates)).
Proof.
  induction candidates as [|c l IH]; [done|]. simpl.
  rewrite !filter_cons. unfold edge_and_validity at 1. simpl.
  destruct (decide (valid c = true)); simpl; by rewrite IH.
Qed.

Lemma valid_edges_of_checks (check : EdgeID -> bool) (edges : list EdgeID) :
  map fst (filter (fun p : EdgeID * bool => p.2 = true)
             (map (fun e => (e, check e)) edges))
  = filter (fun e => check e = true) edges.
Proof.
  induction edges as [|e l IH]; [done|]. simpl.
  rewrite !filter_cons. simpl.
  destruct (decide (check e = true)); simpl; by rewrite IH.
Qed.

Lemma edges_of_candidates (candidates : list TurnCandidate) :
  map eid candidates = map fst (map edge_and_validity candidates).
Proof. rewrite <- list_fmap_compose. reflexivity. Qed.

Section ReturnedCandidates.
Context `{toolkit : GuidanceToolkit}.

(** X8.  The valid candidates that [getTurnCandidates] returns are, up to
    their order, the edges out of the turn node that pass the validity
    checks, one candidate each: the removal of the near duplicates drops no
    valid candidate, and the value of the uninitialised flag changes none
    of this. *)
Theorem X8_valid_candidates_are_the_edges_that_pass
    this indeterminate from_node via_eid :
  let g := m_node_based_graph this in
  let turn_node := GetTarget g via_eid in
  let only :=
    CheckForEmanatingIsOnlyTurn (m_restriction_map this) from_node turn_node in
  let barrier := bool_decide (turn_node ∈ m_barrier_nodes this) in
  map eid
    (filter (fun c => valid c = true)
       (getTurnCandidates this indeterminate from_node via_eid).1)
  ≡ₚ filter
       (fun e =>
          (turn_validity this from_node turn_node only barrier e).1 = true)
       (GetAdjacentEdgeRange g turn_node).
Proof.
  intros g turn_node only barrier.
  destruct (getTurnCandidates_shape this indeterminate from_node via_eid)
    as (candidates & -> & Hleft).
  destruct (candidate_loop_candidates this from_node via_eid) as [Hkeys _].
  rewrite erase_invalid_equivalents_keeps_valid.
  rewrite sort_ByAngle_Permutation.
  rewrite valid_edges_of_candidates.
  rewrite (edge_and_validity_reclassified_list _ _ Hleft), Hkeys.
  by rewrite valid_edges_of_checks.
Qed.

(** X9.  [getTurnCandidates] returns at most one candidate per edge out of
    the turn node and none for any other edge: the edges of the candidates
    are pairwise different, each lies in the adjacency range of the turn
    node, and there are no more candidates than the node has edges. *)
Theorem X9_at_most_one_candidate_per_outgoing_edge
    this indeterminate from_node via_eid :
  let g := m_node_based_graph this in
  let turn_node := GetTarget g via_eid in
  let candidates :=
    (getTurnCandidates this indeterminate from_node via_eid).1 in
  NoDup (map eid candidates)
  /\ Forall (fun c => eid c ∈ GetAdjacentEdgeRange g turn_node) candidates
  /\ Z.of_nat (length candidates) <= GetOutDegree g turn_node.
Proof.
  intros g turn_node candidates. subst candidates.
  destruct (getTurnCandidates_shape this indeterminate from_node via_eid)
    as (candidates & -> & Hleft).
  destruct (candidate_loop_candidates this from_node via_eid) as [Hkeys _].
  assert (Hedges : map eid (sort_ByAngle candidates)
                   ≡ₚ GetAdjacentEdgeRange g turn_node).
  { rewrite sort_ByAngle_Permutation, edges_of_candidates.
    rewrite (edge_and_validity_reclassified_list _ _ Hleft), Hkeys.
    rewrite <- list_fmap_compose. simpl.
    by rewrite list_fmap_id. }
  pose proof (erase_invalid_equivalents_sublist
                (length (sort_ByAngle candidates)) 0
                (sort_ByAngle candidates)) as Hsub.
  pose proof (fmap_sublist eid _ _ Hsub) as Hsub_eid.
  assert (Hnodup : NoDup (map eid (sort_ByAngle candidates))).
  { rewrite Hedges. apply NoDup_seqZ. }
  split; [by eapply sublist_NoDup|]. split.
  - apply Forall_forall. intros c Hc.
    rewrite <- Hedges.
    eapply elem_of_submseteq; [|apply sublist_submseteq, Hsub_eid].
    by apply list_elem_of_fmap_2.
  - apply sublist_length in Hsub_eid. rewrite !length_map in Hsub_eid.
    apply Permutation_length in Hedges. rewrite length_map in Hedges.
    unfold GetAdjacentEdgeRange in Hedges. rewrite length_seqZ in Hedges.
    unfold GetOutDegree in *. lia.
Qed.

(** X10.  Every candidate that [getTurnCandidates] returns for an edge that
    leads back to [from_node] carries the instruction (Turn, UTurn): the
    test [node_u == node_w] of [AnalyzeTurn] comes before the handling of
    roundabouts and ramps, and the reclassification of the roundabout
    entries leaves the type Turn alone. *)
Theorem X10_the_way_back_is_classified_as_uturn
    this indeterminate from_node via_eid :
  let g := m_node_based_graph this in
  Forall
    (fun c =>
       GetTarget g (eid c) = from_node ->
       instruction c
       = {| type := TurnType.Turn;
            direction_modifier := DirectionModifier.UTurn |})
    (getTurnCandidates this indeterminate from_node via_eid).1.
Proof.
  intros g.
  destruct (getTurnCandidates_shape this indeterminate from_node via_eid)
    as (candidates & -> & Hleft).
  destruct (candidate_loop_candidates this from_node via_eid) as [_ Hturn].
  eapply Forall_of_sublist; [apply erase_invalid_equivalents_sublist|].
  rewrite sort_ByAngle_Permutation.
  generalize dependent
    (turn_candidates (candidate_loop this from_node via_eid)).
  intros loop Hleft.
  induction Hleft as [|c' c l' l Hc Hrest IH]; intros Hturn; [constructor|].
  apply Forall_cons in Hturn as [Hins Hturn].
  constructor; [|by apply IH].
  assert (Hback : GetTarget g (eid c) = from_node ->
                  instruction c
                  = {| type := TurnType.Turn;
                       direction_modifier := DirectionModifier.UTurn |}).
  { intros Hto. rewrite Hins. unfold AnalyzeTurn. fold g.
    by rewrite Hto, bool_decide_eq_true_2. }
  destruct Hc as [->| ->]; [exact Hback|].
  pose proof (outline_reclassify_roundabout_entry c) as Hout.
  unfold outline in Hout. injection Hout as Heid _ _ _.
  rewrite Heid. intros Hto. specialize (Hback Hto).
  unfold reclassify_roundabout_entry.
  destruct (entersRoundabout (instruction c)); [|exact Hback].
  rewrite (bool_decide_eq_false_2 (type (instruction c) = _))
    by (by rewrite Hback).
  rewrite (bool_decide_eq_false_2 (type (instruction c) = _))
    by (by rewrite Hback).
  exact Hback.
Qed.

(** X11.  The passes [optimizeCandidates] and [suppressTurns] rewrite
    instructions only: they return the candidates in the order in which
    they receive them, each with the edge, the validity, the angle and the
    confidence it had, and neither adds nor removes a candidate. *)
Theorem X11_the_passes_rewrite_instructions_only this via_eid candidates :
  let processed :=
    suppressTurns this via_eid (optimizeCandidates this via_eid candidates) in
  length processed = length candidates
  /\ map eid processed = map eid candidates
  /\ map valid processed = map valid candidates
  /\ map angle processed = map angle candidates
  /\ map confidence processed = map confidence candidates.
Proof.
  intros processed.
  assert (Houtline : map outline processed = map outline candidates).
  { subst processed.
    by rewrite outline_suppressTurns, outline_optimizeCandidates. }
  split; [by rewrite <- (length_map outline), Houtline, length_map|].
  assert (Hparts : forall l,
    map eid l = map (fun o => o.1.1.1) (map outline l)
    /\ map valid l = map (fun o => o.1.1.2) (map outline l)
    /\ map angle l = map (fun o => o.1.2) (map outline l)
    /\ map confidence l = map (fun o => o.2) (map outline l)).
  { intros l. rewrite <- !list_fmap_compose. done. }
  destruct (Hparts processed) as (-> & -> & -> & ->).
  destruct (Hparts candidates) as (-> & -> & -> & ->).
  by rewrite Houtline.
Qed.

End ReturnedCandidates.

(** ** The order of the angles *)

Lemma SFltb_rank x y :
  SFltb x y = true
  <-> exists p q, spec_rank x = Some p /\ spec_rank y = Some q /\ rank_lt p q.
Proof.
  unfold SFltb, SFcompare.
  destruct x as [sx|sx| |sx mx ex], y as [sy|sy| |sy my ey];
    try destruct sx; try destruct sy; simpl;
    try change (Pos.compare_cont Eq mx my) with (Pos.compare mx my);
    try destruct (Z.compare_spec ex ey);
    try destruct (Pos.compare_spec mx my); simpl.
  all: split.
  all: try (intros Hfalse; discriminate Hfalse).
  all: try (intros _; eexists _, _; split; [reflexivity|];
            split; [reflexivity|]; unfold rank_lt; simpl; lia).
  all: try (intros (p & q & Hp & Hq & Hlt); try discriminate;
            simplify_eq; unfold rank_lt in Hlt; simpl in Hlt; try done; lia).
Qed.

Lemma is_nan_rank x :
  is_nan x = false -> exists p, spec_rank (Prim2SF x) = Some p.
Proof.
  unfold is_nan. rewrite eqb_spec. unfold SFeqb, SFcompare.
  destruct (Prim2SF x) as [s|s| |s m e]; simpl; try destruct s; eauto.
  discriminate.
Qed.

(** [<] on [double] is asymmetric. *)
Lemma ltb_asymmetric (a b : float) :
  (a <? b)%float = true -> (b <? a)%float = false.
Proof.
  rewrite !ltb_spec. intros H. apply not_true_is_false. intros H'.
  apply SFltb_rank in H as (p & q & Hp & Hq & Hlt).
  apply SFltb_rank in H' as (q' & p' & Hq' & Hp' & Hlt').
  simplify_eq. unfold rank_lt in *. lia.
Qed.

(** Where [b] is no NaN, "not smaller than" passes through [b]. *)
Lemma ltb_not_transitive (a b c : float) :
  is_nan b = false ->
  (b <? a)%float = false -> (c <? b)%float = false -> (c <? a)%float = false.
Proof.
  intros Hb Hba Hcb. apply not_true_is_false. intros Hca.
  rewrite ltb_spec in Hca.
  apply SFltb_rank in Hca as (pc & pa & Hpc & Hpa & Hlt).
  destruct (is_nan_rank b Hb) as (pb & Hpb).
  apply not_true_iff_false in Hba, Hcb.
  rewrite ltb_spec, SFltb_rank in Hba, Hcb.
  destruct (decide (rank_lt pb pa)) as [H1|H1].
  { apply Hba. eauto. }
  destruct (decide (rank_lt pc pb)) as [H2|H2].
  { apply Hcb. eauto. }
  unfold rank_lt in *. lia.
Qed.

(** ** The candidates are sorted by angle *)

Lemma insert_ByAngle_sorted c l :
  Forall (fun d => is_nan (angle d) = false) l ->
  sorted_ByAngle l -> sorted_ByAngle (insert_ByAngle c l).
Proof.
  induction l as [|d rest IH]; intros Hnan Hsorted; simpl; [done|].
  apply Forall_cons in Hnan as [Hd Hrest].
  destruct Hsorted as [Hall Hsorted].
  destruct (angle d <? angle c)%float eqn:Hlt; simpl.
  - split; [|by apply IH].
    rewrite insert_ByAngle_Permutation.
    constructor; [by apply ltb_asymmetric|exact Hall].
  - split; [|by split].
    constructor; [exact Hlt|].
    eapply Forall_impl; [exact Hall|]. intros b Hbd. simpl in Hbd.
    by apply (ltb_not_transitive (angle c) (angle d) (angle b)).
Qed.

Lemma sort_ByAngle_sorted l :
  Forall (fun d => is_nan (angle d) = false) l ->
  sorted_ByAngle (sort_ByAngle l).
Proof.
  induction l as [|c rest IH]; intros Hnan; simpl; [done|].
  apply Forall_cons in Hnan as [_ Hrest].
  apply insert_ByAngle_sorted; [|by apply IH].
  by rewrite sort_ByAngle_Permutation.
Qed.

Lemma sorted_ByAngle_sublist l1 l2 :
  l1 `sublist_of` l2 -> sorted_ByAngle l2 -> sorted_ByAngle l1.
Proof.
  induction 1 as [|a l1 l2 Hsub IH|a l1 l2 Hsub IH]; simpl; [done| |].
  - intros [Hall Hsorted]. split; [|by apply IH].
    by eapply Forall_of_sublist.
  - intros [_ Hsorted]. by apply IH.
Qed.

Lemma sorted_ByAngle_angles l1 l2 :
  map angle l1 = map angle l2 -> sorted_ByAngle l1 -> sorted_ByAngle l2.
Proof.
  revert l2. induction l1 as [|a l1 IH]; intros [|b l2] Heq; try done.
  simpl in Heq. injection Heq as Hab Heq. simpl.
  intros [Hall Hsorted]. split; [|by apply IH].
  rewrite <- Hab.
  assert (Hangles : Forall (fun x => (x <? angle a)%float = false)
                      (map angle l1)).
  { apply Forall_fmap. exact Hall. }
  rewrite Heq in Hangles. apply Forall_fmap in Hangles. exact Hangles.
Qed.

Lemma sorted_ByAngle_is_sorted l : sorted_ByAngle l -> is_sorted_ByAngle l.
Proof.
  induction l as [|c rest IH]; intros Hsorted i a b Ha Hb; [done|].
  destruct Hsorted as [Hall Hsorted].
  destruct i as [|i]; simpl in Ha, Hb.
  - injection Ha as <-.
    rewrite Forall_forall in Hall. apply Hall.
    by eapply list_elem_of_lookup_2.
  - by eapply IH.
Qed.

Section SortedCandidates.
Context `{toolkit : GuidanceToolkit}.

Lemma getTurnCandidates_loop_angles from_node via_eid turn_node only barrier
    edges st :
  (forall p q r, is_nan (computeAngle p q r) = false) ->
  Forall (fun c => is_nan (angle c) = false) (turn_candidates st) ->
  Forall (fun c => is_nan (angle c) = false)
    (turn_candidates
       (foldl (getTurnCandidates_edge from_node via_eid turn_node only
                 barrier) st edges)).
Proof.
  intros Hangle. revert st.
  induction edges as [|onto edges IH]; intros st Hst; simpl; [exact Hst|].
  apply IH. unfold getTurnCandidates_edge.
  destruct (turn_validity (loop_this st) from_node turn_node only barrier
              onto) as [valid this'].
  cbn [turn_candidates]. apply Forall_app. split; [exact Hst|].
  constructor; [|constructor]. apply Hangle.
Qed.

(** X12.  Where [computeAngle] returns no NaN, [getTurnCandidates] returns
    its candidates sorted by angle, so that the assertion at the head of
    [optimizeCandidates] holds, and [optimizeCandidates] returns them
    sorted again, so that the one in [suppressTurns] holds as well: the
    removal of the near duplicates and the rewriting of the instructions
    keep the order that the sort has made. *)
Theorem X12_candidates_are_sorted_by_angle
    this indeterminate from_node via_eid :
  let candidates :=
    (getTurnCandidates this indeterminate from_node via_eid).1 in
  (forall p q r, is_nan (computeAngle p q r) = false) ->
  is_sorted_ByAngle candidates
  /\ is_sorted_ByAngle (optimizeCandidates this via_eid candidates).
Proof.
  intros candidates Hangle.
  assert (Hsorted : sorted_ByAngle candidates).
  { subst candidates.
    destruct (getTurnCandidates_shape this indeterminate from_node via_eid)
      as (l & -> & Hleft).
    eapply sorted_ByAngle_sublist;
      [apply erase_invalid_equivalents_sublist|].
    apply sort_ByAngle_sorted.
    assert (Hloop : Forall (fun c => is_nan (angle c) = false)
                      (turn_candidates
                         (candidate_loop this from_node via_eid))).
    { unfold candidate_loop.
      by apply getTurnCandidates_loop_angles. }
    generalize dependent
      (turn_candidates (candidate_loop this from_node via_eid)).
    intros loop Hleft.
    induction Hleft as [|c' c l' l0 Hc _ IH]; intros Hloop; [done|]. apply Forall_cons in Hloop as [Hnan Hloop].
    constructor; [|by apply IH].
    destruct Hc as [->| ->]; [exact Hnan|].
    pose proof (outline_reclassify_roundabout_entry c) as Hout.
    unfold outline in Hout. injection Hout as _ _ Hsame _.
    by rewrite Hsame. }
  split; [by apply sorted_ByAngle_is_sorted|].
  apply sorted_ByAngle_is_sorted.
  eapply sorted_ByAngle_angles; [|exact Hsorted].
  pose proof (outline_optimizeCandidates this via_eid candidates) as Hout.
  apply (f_equal (map (fun o : EdgeID * bool * float * float => o.1.2)))
    in Hout.
  rewrite <- !list_fmap_compose in Hout. symmetry. exact Hout.
Qed.

End SortedCandidates.

(** X12 at the junction of the one-way street: the three candidates come
    back by increasing angle. *)
Lemma X12_candidates_are_sorted_by_angle_witness :
  let this := Examples.prepared Examples.oneway_factory in
  is_sorted_ByAngle
    (@getTurnCandidates Examples.crossing_toolkit this false 0 0).1.
Proof.
  intros this.
  apply (@X12_candidates_are_sorted_by_angle Examples.crossing_toolkit
           this false 0 0).
  intros p q r. simpl. unfold Reference.computeAngle.
  case_bool_decide; [reflexivity|].
  repeat (rewrite filter_cons; case_decide; simpl; [reflexivity|]).
  reflexivity.
Defined.

(** ** Forks and ends of roads *)

Section ForkAndEnd.
Context `{toolkit : GuidanceToolkit}.

(** X13.  [checkForkAndEnd] answers Fork or EndOfRoad only for three
    candidates of which the first has the modifier UTurn, and Fork only
    when the other two are valid and their roads and the road of the via
    edge are of one class.  [optimizeCandidates] then returns the first
    candidate as it is and labels the other two: (Fork, SlightRight) and
    (Fork, SlightLeft) at a fork, (EndOfRoad, Right) and (EndOfRoad, Left) at
    the end of a road. *)
Theorem X13_fork_and_end_of_road this via_eid candidates :
  let g := m_node_based_graph this in
  let ty := checkForkAndEnd this via_eid candidates in
  ty <> TurnType.Invalid ->
  (ty = TurnType.Fork \/ ty = TurnType.EndOfRoad)
  /\ exists c0 c1 c2,
       candidates = [c0; c1; c2]
       /\ direction_modifier (instruction c0) = DirectionModifier.UTurn
       /\ (ty = TurnType.Fork ->
           valid c1 = true /\ valid c2 = true
           /\ road_class (GetEdgeData g via_eid)
              = road_class (GetEdgeData g (eid c1))
           /\ road_class (GetEdgeData g (eid c1))
              = road_class (GetEdgeData g (eid c2)))
       /\ optimizeCandidates this via_eid candidates
          = [ c0;
              set_instruction c1
                {| type := ty;
                   direction_modifier :=
                     if bool_decide (ty = TurnType.Fork)
                     then DirectionModifier.SlightRight
                     else DirectionModifier.Right |};
              set_instruction c2
                {| type := ty;
                   direction_modifier :=
                     if bool_decide (ty = TurnType.Fork)
                     then DirectionModifier.SlightLeft
                     else DirectionModifier.Left |} ].
Proof.
  intros g ty Hty.
  assert (Hshape : exists c0 c1 c2,
            candidates = [c0; c1; c2]
            /\ direction_modifier (instruction c0) = DirectionModifier.UTurn).
  { subst ty. unfold checkForkAndEnd in Hty.
    case_bool_decide as Hlen; [done|]. case_bool_decide as Hmod; [done|].
    try apply dec_stable in Hlen. try apply dec_stable in Hmod.
    destruct candidates as [|c0 [|c1 [|c2 [|c3 rest]]]]; try done.
    by exists c0, c1, c2. }
  destruct Hshape as (c0 & c1 & c2 & -> & Hmod).
  assert (Hcases :
    (ty = TurnType.Fork
     /\ valid c1 = true /\ valid c2 = true
     /\ road_class (GetEdgeData g via_eid)
        = road_class (GetEdgeData g (eid c1))
     /\ road_class (GetEdgeData g (eid c1))
        = road_class (GetEdgeData g (eid c2)))
    \/ ty = TurnType.EndOfRoad).
  { subst ty. unfold checkForkAndEnd in Hty |- *. fold g in Hty |- *.
    cbn [length list_lookup_total list_lookup_total_alt lookup_total] in *.
    repeat (case_match; try done); simplify_eq/=.
    all: try (right; reflexivity).
    left. split; [reflexivity|].
    repeat match goal with
           | H : _ && _ = true |- _ => apply andb_true_iff in H as [? ?]
           | H : _ || _ = false |- _ => apply orb_false_iff in H as [? ?]
           | H : bool_decide _ = false |- _ =>
               apply bool_decide_eq_false in H; apply dec_stable in H
           end.
    done. }
  split; [destruct Hcases as [[? _]|?]; auto|].
  exists c0, c1, c2. split; [reflexivity|]. split; [exact Hmod|].
  split.
  { intros Hfork. destruct Hcases as [[_ ?]|Hend]; [done|congruence]. }
  unfold optimizeCandidates. fold ty.
  rewrite bool_decide_eq_false_2 by (simpl; lia).
  rewrite (bool_decide_eq_true_2 _ Hty). reflexivity.
Qed.

End ForkAndEnd.

(** X13 at the junction of the one-way street, where the roads to the
    right and to the left leave at 90 and 270 degrees: the end of a road. *)
Lemma X13_fork_and_end_of_road_witness :
  let this := Examples.prepared Examples.oneway_factory in
  let candidates :=
    (@getTurnCandidates Examples.crossing_toolkit this false 0 0).1 in
  @checkForkAndEnd Examples.crossing_toolkit this 0 candidates
  = TurnType.EndOfRoad
  /\ map instruction
       (@optimizeCandidates Examples.crossing_toolkit this 0 candidates)
     = [ {| type := TurnType.Turn;
            direction_modifier := DirectionModifier.UTurn |};
         {| type := TurnType.EndOfRoad;
            direction_modifier := DirectionModifier.Right |};
         {| type := TurnType.EndOfRoad;
            direction_modifier := DirectionModifier.Left |} ].
Proof.
  intros this candidates.
  assert (Hend : @checkForkAndEnd Examples.crossing_toolkit this 0 candidates
                 = TurnType.EndOfRoad) by (vm_compute; reflexivity).
  split; [exact Hend|].
  destruct (@X13_fork_and_end_of_road Examples.crossing_toolkit this 0
              candidates) as (_ & c0 & c1 & c2 & Hc & _ & _ & Hopt).
  - rewrite Hend. discriminate.
  - rewrite Hopt, Hend. clear Hopt.
    assert (Hins : map instruction candidates
                   = [ {| type := TurnType.Turn;
                          direction_modifier := DirectionModifier.UTurn |};
                       {| type := TurnType.Turn;
                          direction_modifier := DirectionModifier.Right |};
                       {| type := TurnType.Turn;
                          direction_modifier := DirectionModifier.Left |} ])
      by (vm_compute; reflexivity).
    rewrite Hc in Hins. simpl in Hins. injection Hins as H0 _ _.
    simpl. by rewrite H0.
Defined.

(** ** The expanded edges of a run and the expanded nodes *)

Section EdgesOfARun.
Context `{toolkit : GuidanceToolkit}.

(** The state in which [Run] calls [GenerateEdgeExpandedEdges], for a fresh
    object. *)
Lemma prepared_results g container barriers lights restrictions nodes
    profile :
  let this0 :=
    EdgeBasedGraphFactory_new g container barriers lights restrictions nodes
      profile in
  let this := GenerateEdgeExpandedNodes (Run_renumber this0) in
  GetNumberOfEdges g < 2 ^ 32 ->
  m_max_edge_id this = wrap32 (forward_count (edge_array g) - 1)
  /\ length (m_edge_based_node_weights this)
     = Z.to_nat (forward_count (edge_array g)).
Proof.
  intros this0 this Hlt.
  destruct (GenerateEdgeExpandedNodes_lists_in_step (Run_renumber this0))
    as [_ Hsize].
  destruct (GenerateEdgeExpandedNodes_nodes_only (Run_renumber this0))
    as (_ & Hmax & _).
  destruct (Run_renumber_new g container barriers lights restrictions nodes
              profile Hlt) as (nodes' & Heq & _).
  fold this0 in Heq. fold this in Hsize, Hmax.
  rewrite Hmax, Hsize, Heq. simpl. split; [reflexivity|].
  rewrite length_map. unfold forward_count. lia.
Qed.

(** X14.  After a run on a fresh object every expanded edge joins two
    expanded nodes: its source and its target are ids that [RenumberEdges]
    has assigned, between 0 and [GetHighestEdgeID()], different from
    SPECIAL_NODEID as the loop asserts, and the weight vector has an entry
    for both. *)
Theorem X14_expanded_edges_join_expanded_nodes
    g container barriers lights restrictions nodes profile lua stack
    this' file :
  let this0 :=
    EdgeBasedGraphFactory_new g container barriers lights restrictions nodes
      profile in
  GetNumberOfEdges g < 2 ^ 32 ->
  Run this0 lua stack = Some (this', file) ->
  Forall
    (fun edge =>
       (0 <= source edge <= GetHighestEdgeID this'
        /\ 0 <= ebe_target edge <= GetHighestEdgeID this')
       /\ (source edge <> SPECIAL_NODEID
           /\ ebe_target edge <> SPECIAL_NODEID)
       /\ is_Some (m_edge_based_node_weights this'
                     !! Z.to_nat (source edge))
       /\ is_Some (m_edge_based_node_weights this'
                     !! Z.to_nat (ebe_target edge)))
    (m_edge_based_edge_list this').
Proof.
  intros this0 Hlt Hrun. unfold Run in Hrun.
  set (this := GenerateEdgeExpandedNodes (Run_renumber this0)) in *.
  destruct (prepared_graph g container barriers lights restrictions nodes
              profile Hlt) as (Harray & Hshape & Hempty & _).
  destruct (prepared_results g container barriers lights restrictions nodes
              profile Hlt) as [Hmax Hsize].
  fold this0 this in Harray, Hshape, Hempty, Hmax, Hsize.
  set (g' := m_node_based_graph this) in *.
  apply GenerateEdgeExpandedEdges_some in Hrun.
  destruct Hrun as (_ & _ & _ & Hedges & Hmax' & Hweights & _).
  unfold GetHighestEdgeID. rewrite Hedges, Hempty, Hmax', Hweights, Hmax.
  simpl. apply Forall_lookup. intros k edge Hk.
  rewrite list_lookup_imap in Hk.
  destruct (surviving_turns this stack !! k) as [[via turn]|] eqn:Hturn;
    [|done].
  simpl in Hk. injection Hk as <-.
  assert (Hin : (via, turn) ∈ surviving_turns this stack)
    by (by eapply list_elem_of_lookup_2).
  destruct (surviving_turns_origin this stack via turn Hin)
    as (node_u & _ & _ & Hvia_forward & _ & Honto_forward).
  fold g' in Hvia_forward, Honto_forward.
  pose proof (forward_count_le_length (edge_array g)) as Hle.
  unfold GetNumberOfEdges in Hlt.
  assert (Hid : forall e,
            reversed (GetEdgeData g' e) = false ->
            0 <= edge_id (GetEdgeData g' e)
            < forward_count (edge_array g)).
  { intros e Hforward.
    pose proof (forward_edge_in_array g' e Hforward) as He.
    rewrite Harray in He.
    destruct (renumbered_weight 0 0 (edge_array g) (GetEdge g' e))
      as [Hrange _]; [by eapply list_elem_of_lookup_2 | exact Hforward|].
    exact Hrange. }
  pose proof (Hid via Hvia_forward) as Hs.
  pose proof (Hid (eid turn) Honto_forward) as Ht.
  unfold expanded_edge. cbn [source ebe_target fst snd]. fold g'.
  rewrite wrap32_small by lia.
  unfold SPECIAL_NODEID.
  repeat split; try lia; apply lookup_lt_is_Some_2; lia.
Qed.

(** X15.  A run on a fresh object numbers its expanded edges
    consecutively from 0, marks every one of them forward and not backward,
    and writes one record per edge: the count at the head of the
    original-edge-data file is the number of expanded edges. *)
Theorem X15_expanded_edges_are_numbered_in_order
    g container barriers lights restrictions nodes profile lua stack
    this' file :
  let this0 :=
    EdgeBasedGraphFactory_new g container barriers lights restrictions nodes
      profile in
  GetNumberOfEdges g < 2 ^ 32 ->
  Run this0 lua stack = Some (this', file) ->
  length_prefix file = Z.of_nat (length (m_edge_based_edge_list this'))
  /\ length (file_records file) = length (m_edge_based_edge_list this')
  /\ forall k edge,
       m_edge_based_edge_list this' !! k = Some edge ->
       ebe_edge_id edge = Z.of_nat k
       /\ forward edge = true /\ backward edge = false.
Proof.
  intros this0 Hlt Hrun. unfold Run in Hrun.
  set (this := GenerateEdgeExpandedNodes (Run_renumber this0)) in *.
  destruct (prepared_graph g container barriers lights restrictions nodes
              profile Hlt) as (_ & _ & Hempty & _).
  fold this0 this in Hempty.
  apply GenerateEdgeExpandedEdges_some in Hrun.
  destruct Hrun as (Hfits & -> & _ & Hedges & _).
  rewrite Hedges, Hempty. simpl.
  rewrite length_imap, length_map. split; [reflexivity|].
  split; [reflexivity|].
  intros k edge Hk. rewrite list_lookup_imap in Hk.
  destruct (surviving_turns this stack !! k) as [[via turn]|] eqn:Hturn;
    [|done].
  simpl in Hk. injection Hk as <-.
  apply lookup_lt_Some in Hturn.
  unfold expanded_edge. cbn [ebe_edge_id forward backward].
  rewrite wrap32_small by lia. done.
Qed.

(** X16.  [GenerateEdgeExpandedEdges] only appends expanded edges: the
    edges that the list held come first in the list it leaves, and the
    expanded nodes, their start-point markers, the weight vector, the
    highest edge id and every input member (graph, node coordinates,
    restrictions, barriers, traffic lights, geometry, profile) are as they
    were. *)
Theorem X16_edge_generation_only_appends_edges this lua stack this' file :
  GenerateEdgeExpandedEdges this lua stack = Some (this', file) ->
  m_edge_based_edge_list this `prefix_of` m_edge_based_edge_list this'
  /\ m_edge_based_node_list this' = m_edge_based_node_list this
  /\ m_edge_based_node_is_startpoint this'
     = m_edge_based_node_is_startpoint this
  /\ m_edge_based_node_weights this' = m_edge_based_node_weights this
  /\ GetHighestEdgeID this' = GetHighestEdgeID this
  /\ same_inputs this' this.
Proof.
  intros Hrun. apply GenerateEdgeExpandedEdges_some in Hrun.
  destruct Hrun
    as (_ & _ & Hsame & Hedges & Hmax & Hweights & Hnodes & Hmarkers).
  split; [rewrite Hedges; by eexists|].
  unfold GetHighestEdgeID.
  split; [exact Hnodes|]. split; [exact Hmarkers|].
  split; [exact Hweights|]. split; [exact Hmax | exact Hsame].
Qed.

End EdgesOfARun.

(** X14 at the through-road. *)
Lemma X14_expanded_edges_join_expanded_nodes_witness :
  match @Run Examples.through_toolkit Examples.through_factory
          Examples.charging_profile Examples.initialised with
  | Some (this', _) =>
      Forall
        (fun edge =>
           0 <= source edge <= GetHighestEdgeID this'
           /\ 0 <= ebe_target edge <= GetHighestEdgeID this')
        (m_edge_based_edge_list this')
  | None => False
  end.
Proof.
  destruct (@Run Examples.through_toolkit Examples.through_factory
              Examples.charging_profile Examples.initialised)
    as [[this' file]|] eqn:Hrun; [|vm_compute in Hrun; discriminate].
  eapply Forall_impl.
  - apply (@X14_expanded_edges_join_expanded_nodes
             Examples.through_toolkit Examples.through_graph
             (Examples.uncompressed Examples.through_graph) ∅ {[ 1 ]}
             Examples.no_restrictions Examples.through_nodes
             Examples.profile Examples.charging_profile
             Examples.initialised this' file).
    + vm_compute. reflexivity.
    + exact Hrun.
  - intros edge (Hrange & _). exact Hrange.
Defined.

(** X15 at the through-road. *)
Lemma X15_expanded_edges_are_numbered_in_order_witness :
  match @Run Examples.through_toolkit Examples.through_factory
          Examples.charging_profile Examples.initialised with
  | Some (this', file) =>
      length_prefix file = Z.of_nat (length (m_edge_based_edge_list this'))
  | None => False
  end.
Proof.
  destruct (@Run Examples.through_toolkit Examples.through_factory
              Examples.charging_profile Examples.initialised)
    as [[this' file]|] eqn:Hrun; [|vm_compute in Hrun; discriminate].
  destruct (@X15_expanded_edges_are_numbered_in_order
              Examples.through_toolkit Examples.through_graph
              (Examples.uncompressed Examples.through_graph) ∅ {[ 1 ]}
              Examples.no_restrictions Examples.through_nodes
              Examples.profile Examples.charging_profile
              Examples.initialised this' file) as [Hprefix _].
  - vm_compute. reflexivity.
  - exact Hrun.
  - exact Hprefix.
Defined.

(** X16 at the through-road, in the state in which [Run] generates the
    edges. *)
Lemma X16_edge_generation_only_appends_edges_witness :
  let this := Examples.prepared Examples.through_factory in
  match @GenerateEdgeExpandedEdges Examples.through_toolkit this
          Examples.charging_profile Examples.initialised with
  | Some (this', _) =>
      m_edge_based_node_list this' = m_edge_based_node_list this
  | None => False
  end.
Proof.
  intros this.
  destruct (@GenerateEdgeExpandedEdges Examples.through_toolkit this
              Examples.charging_profile Examples.initialised)
    as [[this' file]|] eqn:Hrun; [|vm_compute in Hrun; discriminate].
  destruct (@X16_edge_generation_only_appends_edges
              Examples.through_toolkit this Examples.charging_profile
              Examples.initialised this' file Hrun) as (_ & Hnodes & _).
  exact Hnodes.
Defined.

(** ** A graph without forward edges *)

Lemma all_reversed_lookup (edges : list NodeBasedEdge) i :
  Forall (fun e => reversed (data e) = true) edges ->
  reversed (data (edges !!! i)) = true.
Proof.
  intros Hall. rewrite list_lookup_total_alt.
  destruct (edges !! i) as [e|] eqn:He; [|reflexivity].
  rewrite Forall_forall in Hall. apply Hall.
  by eapply list_elem_of_lookup_2.
Qed.

Lemma forward_count_all_reversed (edges : list NodeBasedEdge) :
  Forall (fun e => reversed (data e) = true) edges ->
  forward_count edges = 0.
Proof.
  unfold forward_count. induction 1 as [|e l He _ IH]; [done|].
  rewrite filter_cons_False; [exact IH|].
  unfold forward_edge. by rewrite He.
Qed.

Lemma flat_map_nil {A B} (f : A -> list B) (l : list A) :
  (forall x, f x = []) -> flat_map f l = [].
Proof.
  intros Hf. induction l as [|x l IH]; [done|]. simpl. by rewrite Hf, IH.
Qed.

Section NoForwardEdge.
Context `{toolkit : GuidanceToolkit}.

Lemma surviving_turns_all_reversed this stack :
  (forall e, reversed (GetEdgeData (m_node_based_graph this) e) = true) ->
  surviving_turns this stack = [].
Proof.
  intros Hall. unfold surviving_turns. apply flat_map_nil. intros node_u.
  unfold surviving_turns_of_node. apply flat_map_nil. intros e.
  unfold surviving_turns_of_edge. by rewrite Hall.
Qed.

(** X17.  On a graph whose edges are all reversed (and on a graph without
    edges) a run on a fresh object returns, with no expanded edge, no
    weight, and an original-edge-data file that holds the count 0 and no
    record; the highest edge id is then 0u - 1 = 2^32 - 1. *)
Theorem X17_run_without_forward_edges
    g container barriers lights restrictions nodes profile lua stack :
  let this0 :=
    EdgeBasedGraphFactory_new g container barriers lights restrictions nodes
      profile in
  GetNumberOfEdges g < 2 ^ 32 ->
  Forall (fun e => reversed (data e) = true) (edge_array g) ->
  exists this',
    Run this0 lua stack
    = Some (this', {| length_prefix := 0; file_records := [] |})
    /\ m_edge_based_edge_list this' = []
    /\ m_edge_based_node_weights this' = []
    /\ GetHighestEdgeID this' = 4294967295.
Proof.
  intros this0 Hlt Hall. unfold Run.
  set (this := GenerateEdgeExpandedNodes (Run_renumber this0)).
  destruct (prepared_graph g container barriers lights restrictions nodes
              profile Hlt) as (Harray & _ & Hempty & _).
  destruct (prepared_results g container barriers lights restrictions nodes
              profile Hlt) as [Hmax Hsize].
  fold this0 this in Harray, Hempty, Hmax, Hsize.
  assert (Hnone : forward_count (edge_array g) = 0).
  { by apply forward_count_all_reversed. }
  assert (Hturns : surviving_turns this stack = []).
  { apply surviving_turns_all_reversed. intros e.
    unfold GetEdgeData, GetEdge. rewrite Harray.
    destruct (renumbered_shape 0 (edge_array g)) as (_ & Hreversed & _).
    rewrite (map_lookup_total (fun e => reversed (data e)) _ _ _ Hreversed).
    by apply all_reversed_lookup. }
  pose proof (GenerateEdgeExpandedEdges_spec this lua stack) as Hspec.
  cbv zeta in Hspec. rewrite Hturns in Hspec. simpl in Hspec.
  rewrite ?bool_decide_eq_true_2 in Hspec by lia.
  destruct Hspec as (this' & Hrun & _ & Hedges & Hmax' & Hweights & _).
  exists this'. split; [exact Hrun|].
  split; [by rewrite Hedges, Hempty|].
  unfold GetHighestEdgeID. rewrite Hmax', Hmax, Hnone. split; [|reflexivity].
  rewrite Hweights. apply nil_length_inv. rewrite Hsize, Hnone. reflexivity.
Qed.

End NoForwardEdge.

(** X17 at the graph without nodes. *)
Lemma X17_run_without_forward_edges_witness :
  exists this',
    @Run Examples.through_toolkit Examples.empty_factory
      Examples.charging_profile Examples.initialised
    = Some (this', {| length_prefix := 0; file_records := [] |})
    /\ m_edge_based_edge_list this' = [].
Proof.
  destruct (@X17_run_without_forward_edges Examples.through_toolkit
              {| adjacency := [] |}
              (Examples.uncompressed {| adjacency := [] |}) ∅ ∅
              Examples.no_restrictions [] Examples.profile
              Examples.charging_profile Examples.initialised)
    as (this' & Hrun & Hedges & _).
  - vm_compute. reflexivity.
  - constructor.
  - exists this'. split; [exact Hrun | exact Hedges].
Defined.

(** ** What [suppressTurns] leaves alone *)

Lemma assign_instruction_other i j ins (l : list TurnCandidate) :
  i <> j -> assign_instruction j ins l !! i = l !! i.
Proof. intros H. unfold assign_instruction. by apply list_lookup_alter_ne. Qed.

Lemma assign_modifier_other i j m (l : list TurnCandidate) :
  i <> j -> assign_modifier j m l !! i = l !! i.
Proof. intros H. unfold assign_modifier. by apply list_lookup_alter_ne. Qed.

Lemma assign_type_other i j ty (l : list TurnCandidate) :
  i <> j -> assign_type j ty l !! i = l !! i.
Proof. intros H. unfold assign_type. by apply list_lookup_alter_ne. Qed.

Section Suppression.
Context `{toolkit : GuidanceToolkit}.

(** An iteration of the second loop writes to its own candidate only. *)
Lemma suppressTurns_turn_other this via_eid has_obvious obvious_angle
    candidates turn_index i :
  i <> turn_index ->
  (suppressTurns_turn this via_eid has_obvious obvious_angle candidates
     turn_index).1 !! i
  = candidates !! i.
Proof.
  intros Hne. unfold suppressTurns_turn.
  repeat (case_match; simplify_eq/=);
    repeat first [ rewrite assign_instruction_other by done
                 | rewrite assign_modifier_other by done
                 | rewrite assign_type_other by done ];
    done.
Qed.

Lemma suppressTurns_loop_keeps this via_eid has_obvious obvious_angle
    indices candidates i c :
  candidates !! i = Some c ->
  isBasic (type (instruction c)) = false ->
  (suppressTurns_loop this via_eid has_obvious obvious_angle candidates
     indices).1 !! i
  = Some c.
Proof.
  revert candidates.
  induction indices as [|j indices IH]; intros candidates Hc Hbasic;
    [exact Hc|].
  simpl.
  assert (Hstep : (suppressTurns_turn this via_eid has_obvious obvious_angle
                     candidates j).1 !! i = Some c).
  { destruct (decide (i = j)) as [->|Hne].
    - unfold suppressTurns_turn.
      rewrite (list_lookup_total_correct _ _ _ Hc), Hbasic. exact Hc.
    - by rewrite suppressTurns_turn_other. }
  destruct (suppressTurns_turn this via_eid has_obvious obvious_angle
              candidates j) as [candidates' asserted].
  specialize (IH candidates' Hstep Hbasic).
  destruct (suppressTurns_loop this via_eid has_obvious obvious_angle
              candidates' indices) as [result asserted'].
  exact IH.
Qed.

(** X18.  Unless it is handed exactly three candidates, [suppressTurns]
    returns every candidate whose instruction type is not basic as it
    receives it: the instructions of roundabouts, ramps, forks and the like
    pass through it unchanged. *)
Theorem X18_suppression_keeps_what_is_not_basic
    this via_eid candidates i c :
  length candidates <> 3%nat ->
  candidates !! i = Some c ->
  isBasic (type (instruction c)) = false ->
  suppressTurns this via_eid candidates !! i = Some c.
Proof.
  intros Hlen Hc Hbasic.
  unfold suppressTurns, suppressTurns_asserting.
  rewrite (bool_decide_eq_false_2 _ Hlen).
  destruct (find_obvious_with_same_name this via_eid candidates
              (seq 0 (length candidates))) as [[found found_angle] asserted].
  pose proof (suppressTurns_loop_keeps this via_eid found found_angle
                (seq 0 (length candidates)) candidates i c Hc Hbasic)
    as Hkeeps.
  destruct (suppressTurns_loop this via_eid found found_angle candidates
              (seq 0 (length candidates))) as [result asserted'].
  exact Hkeeps.
Qed.

End Suppression.

(** X18 at the junction on the rim of the roundabout, for a candidate that
    leaves the roundabout by the edge 2: it keeps its instruction. *)
Lemma X18_suppression_keeps_what_is_not_basic_witness :
  let this := Examples.prepared Examples.roundabout_factory in
  let candidate :=
    {| eid := 2; valid := true; angle := 90%float;
       instruction := {| type := TurnType.ExitRoundabout;
                         direction_modifier := DirectionModifier.Right |};
       confidence := 1%float |} in
  @suppressTurns Examples.crossing_toolkit this 5 [candidate] !! 0%nat
  = Some candidate.
Proof.
  intros this candidate.
  apply (@X18_suppression_keeps_what_is_not_basic Examples.crossing_toolkit
           this 5 [candidate] 0%nat candidate).
  - simpl. lia.
  - reflexivity.
  - vm_compute. reflexivity.
Defined.

(** ** The loops end *)

Section Termination.
Context `{toolkit : GuidanceToolkit}.

(** X19.  The loops that move their own index end within the size of the
    candidate vector: the closing loop of [getTurnCandidates], which steps
    back after every erasure, the [for] loop of [optimizeCandidates], whose
    body assigns [turn_index], and the [while] loop in it that extends a
    conflict each run at most [size] iterations, so that further iterations
    would change nothing. *)
Theorem X19_the_loops_end_within_the_size candidates extra :
  let n := length candidates in
  erase_invalid_equivalents (n + extra) 0 candidates
  = erase_invalid_equivalents n 0 candidates
  /\ optimizeCandidates_loop (n + extra) 0 candidates
     = optimizeCandidates_loop n 0 candidates
  /\ forall turn_index conflict_end,
       extend_conflict (n + extra) candidates turn_index conflict_end 2
       = extend_conflict n candidates turn_index conflict_end 2.
Proof.
  intros n. split; [|split].
  - apply erase_invalid_equivalents_fuel. lia.
  - apply optimizeCandidates_loop_fuel. lia.
  - intros turn_index conflict_end. apply extend_conflict_fuel. lia.
Qed.

End Termination.

(** ** The counters of [getTurnCandidates] *)

Lemma turn_validity_counted this from_node turn_node only is_barrier_node
    onto :
  counted_at_most 1
    (turn_validity this from_node turn_node only is_barrier_node onto).2
    this.
Proof.
  unfold counted_at_most, turn_validity, check_only_restriction,
    check_barrier_and_uturn, check_turn_restricted,
    increment_restricted_turns_counter, increment_skipped_uturns_counter,
    increment_skipped_barrier_turns_counter.
  destruct (reversed (GetEdgeData (m_node_based_graph this) onto)),
    is_barrier_node;
    repeat (case_bool_decide; simpl; try lia);
    repeat (case_match; simpl in *; try lia).
Qed.

Section Counters.
Context `{toolkit : GuidanceToolkit}.

Lemma getTurnCandidates_loop_counted from_node via_eid turn_node only barrier
    edges st :
  counted_at_most (Z.of_nat (length edges))
    (loop_this
       (foldl (getTurnCandidates_edge from_node via_eid turn_node only
                 barrier) st edges))
    (loop_this st).
Proof.
  revert st. induction edges as [|onto edges IH]; intros st.
  - simpl. unfold counted_at_most. lia.
  - simpl foldl.
    specialize (IH (getTurnCandidates_edge from_node via_eid turn_node only
                      barrier st onto)).
    assert (Hstep : counted_at_most 1
                      (loop_this
                         (getTurnCandidates_edge from_node via_eid turn_node
                            only barrier st onto))
                      (loop_this st)).
    { unfold getTurnCandidates_edge.
      pose proof (turn_validity_counted (loop_this st) from_node turn_node
                    only barrier onto) as H.
      destruct (turn_validity (loop_this st) from_node turn_node only
                  barrier onto) as [valid this']. exact H. }
    revert IH Hstep. unfold counted_at_most.
    rewrite length_cons, Nat2Z.inj_succ. lia.
Qed.

(** X20.  [getTurnCandidates] changes nothing of the object but the three
    skip counters; it never lowers a counter, and for a turn node with [d]
    outgoing edges it counts at most [d] restricted turns and at most [d]
    skipped U-turns and barrier turns together. *)
Theorem X20_candidates_touch_the_counters_only
    this indeterminate from_node via_eid :
  let g := m_node_based_graph this in
  let this' := (getTurnCandidates this indeterminate from_node via_eid).2 in
  same_but_counters this' this
  /\ counted_at_most (GetOutDegree g (GetTarget g via_eid)) this' this.
Proof.
  intros g this'. split; [apply getTurnCandidates_writes_counters|].
  subst this'. unfold getTurnCandidates. cbn [snd]. fold g.
  match goal with
  | |- context [foldl (getTurnCandidates_edge ?f ?v ?t ?o ?b) ?st ?edges] =>
      pose proof (getTurnCandidates_loop_counted f v t o b edges st) as H
  end.
  unfold GetAdjacentEdgeRange in H at 1. rewrite length_seqZ in H.
  unfold GetOutDegree in H at 1. rewrite Z2Nat.id in H by lia.
  exact H.
Qed.

End Counters.

(** ** What the renumbering and the node generation leave alone *)

(** X21.  [RenumberEdges] returns the number of edges that are not
    reversed and changes nothing of the graph but the [edge_id] of these
    edges: a reversed edge is left as it is, and an edge that is not
    reversed keeps its target and all its data but the id, which becomes
    the number of edges that are not reversed before it in the edge array.
    The weights that the vector held stay in front of the appended ones. *)
Theorem X21_renumbering_changes_edge_ids_only (this : EdgeBasedGraphFactory) :
  let edges := edge_array (m_node_based_graph this) in
  let result := RenumberEdges this in
  let edges' := edge_array (m_node_based_graph result.1) in
  forward_count edges < 2 ^ 32 ->
  result.2 = forward_count edges
  /\ length edges' = length edges
  /\ (forall i e,
        edges !! i = Some e ->
        edges' !! i
        = Some (if reversed (data e) then e
                else {| target := target e;
                        data := set_edge_id (data e)
                                  (forward_count (take i edges)) |}))
  /\ m_edge_based_node_weights this
     `prefix_of` m_edge_based_node_weights result.1.
Proof.
  intros edges result edges' Hlt.
  destruct (RenumberEdges_spec this Hlt) as (nodes' & Heq & Hcat & Hlen).
  fold edges in Heq, Hcat.
  assert (Hedges : edges' = renumbered 0 edges).
  { subst edges' result. rewrite Heq. simpl. unfold edge_array. simpl.
    exact Hcat. }
  subst result. rewrite Hedges, Heq. cbn [fst snd].
  split; [reflexivity|]. split; [apply renumbered_length|]. split.
  - intros i e He. rewrite (renumbered_lookup 0 edges i e He).
    by rewrite Z.add_0_l.
  - simpl. by eexists.
Qed.

(** X21 at the one-way street of the junction example: five of the six
    edges are not reversed. *)
Lemma X21_renumbering_changes_edge_ids_only_witness :
  (RenumberEdges Examples.oneway_factory).2 = 5.
Proof.
  destruct (X21_renumbering_changes_edge_ids_only Examples.oneway_factory)
    as (Hcount & _).
  - vm_compute. reflexivity.
  - rewrite Hcount. vm_compute. reflexivity.
Defined.

Lemma weights_marked_refl a : weights_marked a a.
Proof. split; [reflexivity|]. intros i w Hw. by right. Qed.

Lemma weights_marked_trans a b c :
  weights_marked a b -> weights_marked b c -> weights_marked a c.
Proof.
  intros [Hl1 H1] [Hl2 H2]. split; [congruence|].
  intros i w Hw. destruct (H1 i w Hw) as [->|Hb]; [by left|].
  by apply H2.
Qed.

Lemma InsertEdgeBasedNode_weights_marked this node_u node_v :
  weights_marked (InsertEdgeBasedNode this node_u node_v) this.
Proof.
  unfold InsertEdgeBasedNode. case_match; [apply weights_marked_refl|].
  match goal with
  | |- context [InsertEdgeBasedNode_segments ?t ?f ?r ?p1 ?p2 ?geo ?i ?s] =>
      destruct (InsertEdgeBasedNode_segments_frame t f r p1 p2 geo i s)
        as (Hw & _)
  end.
  unfold weights_marked. rewrite Hw. case_match; simpl.
  - split; [apply length_insert|]. intros i w Hi.
    match type of Hi with
    | <[?k := _]> _ !! _ = _ => destruct (decide (i = k)) as [->|Hne]
    end.
    + apply list_lookup_insert_Some in Hi.
      destruct Hi as [(_ & <- & _)|[Hne _]]; [by left|done].
    + rewrite list_lookup_insert_ne in Hi by done. by right.
  - split; [reflexivity|]. intros i w Hi. by right.
Qed.

(** X22.  [GenerateEdgeExpandedNodes] keeps the size of the weight vector
    and changes none of its entries but to INVALID_EDGE_WEIGHT; the graph,
    the highest edge id, the expanded edges and the input members are as
    they were. *)
Theorem X22_node_generation_only_marks_weights this :
  let this' := GenerateEdgeExpandedNodes this in
  length (m_edge_based_node_weights this')
  = length (m_edge_based_node_weights this)
  /\ (forall i w,
        m_edge_based_node_weights this' !! i = Some w ->
        w = INVALID_EDGE_WEIGHT
        \/ m_edge_based_node_weights this !! i = Some w)
  /\ m_node_based_graph this' = m_node_based_graph this
  /\ GetHighestEdgeID this' = GetHighestEdgeID this
  /\ m_edge_based_edge_list this' = m_edge_based_edge_list this.
Proof.
  intros this'.
  assert (Hmarked : weights_marked this' this).
  { subst this'. unfold GenerateEdgeExpandedNodes.
    generalize (seqZ 0 (GetNumberOfNodes (m_node_based_graph this))).
    intros nodes. revert this.
    induction nodes as [|node_u nodes IH]; intros this; simpl.
    - apply weights_marked_refl.
    - eapply weights_marked_trans; [apply IH|].
      generalize (GetAdjacentEdgeRange (m_node_based_graph this) node_u).
      intros edges. revert this.
      induction edges as [|e edges IHe]; intros this; simpl.
      + apply weights_marked_refl.
      + eapply weights_marked_trans; [apply IHe|].
        unfold GenerateEdgeExpandedNodes_edge.
        repeat case_match;
          first [apply weights_marked_refl
                | apply InsertEdgeBasedNode_weights_marked]. }
  destruct Hmarked as [Hlength Hentries].
  destruct (GenerateEdgeExpandedNodes_nodes_only this)
    as ((Hgraph & _) & Hmax & Hedges).
  unfold GetHighestEdgeID. by repeat split.
Qed.

(** ** Candidates without conflicts *)

Section NoConflict.
Context `{toolkit : GuidanceToolkit}.

Lemma optimizeCandidates_turn_nothing_to_resolve candidates turn_index :
  nothing_to_resolve candidates turn_index = true ->
  optimizeCandidates_turn candidates turn_index = (turn_index, candidates).
Proof.
  unfold nothing_to_resolve, optimizeCandidates_turn. intros Hnothing.
  destruct (negb (isBasic (type (instruction (candidates !!! turn_index))))
            || isUturn (instruction (candidates !!! turn_index))
            || isOnRoundabout (instruction (candidates !!! turn_index)));
    [reflexivity|].
  simpl in Hnothing. apply negb_true_iff in Hnothing.
  by rewrite Hnothing.
Qed.

Lemma optimizeCandidates_loop_nothing_to_resolve fuel turn_index candidates :
  (forall i, (i < length candidates)%nat ->
             nothing_to_resolve candidates i = true) ->
  optimizeCandidates_loop fuel turn_index candidates = candidates.
Proof.
  intros Hnothing. revert turn_index.
  induction fuel as [|fuel IH]; intros turn_index; simpl; [reflexivity|].
  case_bool_decide as Hlt; [|reflexivity].
  rewrite optimizeCandidates_turn_nothing_to_resolve by auto.
  apply IH.
Qed.

(** X23.  For two or more candidates, where [checkForkAndEnd] finds
    neither a fork nor the end of a road, and after the passes for ramps and
    for multiple U-turns no candidate conflicts with the candidate to its
    left, the [for] loop of [optimizeCandidates] resolves nothing:
    [optimizeCandidates] returns the candidates as these two passes leave
    them. *)
Theorem X23_without_conflicts_nothing_is_resolved this via_eid candidates :
  let prepared :=
    relabel_multiple_uturns (optimizeRamps this via_eid candidates) in
  (1 < length candidates)%nat ->
  checkForkAndEnd this via_eid candidates = TurnType.Invalid ->
  (forall i, (i < length prepared)%nat ->
             nothing_to_resolve prepared i = true) ->
  optimizeCandidates this via_eid candidates = prepared.
Proof.
  intros prepared Hmany Hcheck Hnothing. unfold optimizeCandidates.
  rewrite bool_decide_eq_false_2 by lia.
  rewrite Hcheck. rewrite bool_decide_eq_false_2 by tauto.
  fold prepared. by apply optimizeCandidates_loop_nothing_to_resolve.
Qed.

End NoConflict.

(** X23 at the junction of the fan: the three candidates that are left
    carry three different instructions. *)
Lemma X23_without_conflicts_nothing_is_resolved_witness :
  let this := Examples.prepared Examples.fan_factory in
  let candidates :=
    (@getTurnCandidates Examples.fan_toolkit this false 0 0).1 in
  @optimizeCandidates Examples.fan_toolkit this 0 candidates
  = @relabel_multiple_uturns Examples.fan_toolkit
      (@optimizeRamps Examples.fan_toolkit this 0 candidates).
Proof.
  intros this candidates.
  apply (@X23_without_conflicts_nothing_is_resolved Examples.fan_toolkit
           this 0 candidates).
  - vm_compute. lia.
  - vm_compute. reflexivity.
  - intros i Hi.
    assert (Hlength : length
              (@relabel_multiple_uturns Examples.fan_toolkit
                 (@optimizeRamps Examples.fan_toolkit this 0 candidates))
            = 3%nat) by (vm_compute; reflexivity).
    rewrite Hlength in Hi.
    destruct i as [|[|[|i]]]; [| | |lia]; vm_compute; reflexivity.
Defined.

(** ** Junctions without ramps *)

Section Ramps.
Context `{toolkit : GuidanceToolkit}.

Lemma optimizeRamps_continue_no_ramp g in_edge_data candidates :
  isRampClass (road_class in_edge_data) = false ->
  (optimizeRamps_continue g in_edge_data candidates).2 = candidates.
Proof.
  intros Hclass. induction candidates as [|c rest IH]; [reflexivity|].
  simpl. rewrite Hclass, andb_false_r.
  destruct (optimizeRamps_continue g in_edge_data rest) as [e rest'].
  simpl in IH. subst rest'.
  by repeat case_match.
Qed.

Lemma optimizeRamps_sides_no_ramp continue_eid to_the_right candidates :
  Forall (fun c => type (instruction c) <> TurnType.Ramp) candidates ->
  optimizeRamps_sides continue_eid to_the_right candidates = candidates.
Proof.
  intros Hall. revert to_the_right.
  induction Hall as [|c rest Hc _ IH]; intros to_the_right; [reflexivity|].
  simpl. rewrite (bool_decide_eq_true_2 _ Hc).
  case_match; by rewrite IH.
Qed.

(** X24.  [optimizeRamps] rewrites instructions at ramps only: where the
    road of the via edge is of no ramp class and no candidate has the type
    Ramp, it returns the candidates as it receives them. *)
Theorem X24_without_ramps_nothing_is_rewritten this via_edge candidates :
  let g := m_node_based_graph this in
  isRampClass (road_class (GetEdgeData g via_edge)) = false ->
  Forall (fun c => type (instruction c) <> TurnType.Ramp) candidates ->
  optimizeRamps this via_edge candidates = candidates.
Proof.
  intros g Hclass Hall. unfold optimizeRamps. fold g.
  pose proof (optimizeRamps_continue_no_ramp g (GetEdgeData g via_edge)
                candidates Hclass) as Hfirst.
  destruct (optimizeRamps_continue g (GetEdgeData g via_edge) candidates)
    as [continue_eid candidates'].
  simpl in Hfirst. subst candidates'.
  case_bool_decide; [|reflexivity].
  by apply optimizeRamps_sides_no_ramp.
Qed.

End Ramps.

(** X24 at the junction of the one-way street, a junction of residential
    roads. *)
Lemma X24_without_ramps_nothing_is_rewritten_witness :
  let this := Examples.prepared Examples.oneway_factory in
  let candidates :=
    (@getTurnCandidates Examples.crossing_toolkit this false 0 0).1 in
  @optimizeRamps Examples.crossing_toolkit this 0 candidates = candidates.
Proof.
  intros this candidates.
  apply (@X24_without_ramps_nothing_is_rewritten Examples.crossing_toolkit
           this 0 candidates).
  - vm_compute. reflexivity.
  - apply (bool_decide_unpack
             (Forall (fun c => type (instruction c) <> TurnType.Ramp)
                candidates)).
    vm_compute. exact I.
Defined.
